(** * Ordis: schema-driven LLM extraction -- verification of the core pipeline

    A shallow embedding of the TypeScript sources
      - [src/llm/errors.ts]          (LLMErrorCodes, LLMError)
      - [src/llm/types.ts]           (ChatMessage, LLMRequest, LLMResponse, ...)
      - [src/llm/prompt-builder.ts]  (buildSystemPrompt, buildUserPrompt)
      - [src/llm/client.ts]          (LLMClient: chat, chatWithRetry, ...)
      - [src/schemas/loader.ts]      (loadSchema, parseSchema,
                                      loadSchemaFromObject)
      - [src/cli.ts]                 (parseArgs, main)
      - [benchmarks/model-comparison.bench.ts]
                                     (calculateAccuracy, ensureModelsAvailable)
    followed by the properties the specification states about them.

    Conventions.
      - A JavaScript string is the list of its UTF-16 code units.
      - A number of a JSON text or of a configuration is carried as the
        rational its literal denotes, which decides the branches of the
        code; [number] adds the three non-finite values that a
        string-to-number conversion can produce.  Where a property is about
        the value of an arithmetic result (the delay of [calculateDelay],
        the comparisons and the accuracy of [calculateAccuracy]), the
        arithmetic is that of IEEE-754 doubles, module [Double].
      - A [throw] is the [Throw] constructor of [Result]; [try]/[catch] is
        [try_catch].
      - What the JavaScript engine decides (texts of built-in error messages,
        number/string conversions, validity of a regular expression) is a
        field of the class [Engine]. *)

From Stdlib Require Import List Bool String Ascii NArith ZArith QArith Qabs Qminmax Qpower Lia.
From Stdlib Require SpecFloat.
Import ListNotations.

Set Implicit Arguments.
Set Warnings "-register-all".

(* ===================================================================== *)
(** * JavaScript strings *)
(* ===================================================================== *)

Module JS.

Definition char := N.
Definition jsstring := list char.

(** An ASCII literal as a JavaScript string. *)
Definition js (s : string) : jsstring :=
  map N_of_ascii (list_ascii_of_string s).

Definition NL : jsstring := [10%N].
Definition QUOTE : jsstring := [34%N].
Definition BACKTICK : char := 96%N.

(** The fence marker, three backticks. *)
Definition FENCE : jsstring := [BACKTICK; BACKTICK; BACKTICK].

Fixpoint str_eqb (a b : jsstring) : bool :=
  match a, b with
  | [], [] => true
  | x :: a', y :: b' => N.eqb x y && str_eqb a' b'
  | _, _ => false
  end.

(** [String.prototype.startsWith]. *)
Fixpoint startsWith (s prefix : jsstring) : bool :=
  match prefix, s with
  | [], _ => true
  | p :: prefix', c :: s' => N.eqb c p && startsWith s' prefix'
  | _ :: _, [] => false
  end.

(** WhiteSpace and LineTerminator code points of ECMAScript: the class that
    both [String.prototype.trim] and the regular-expression escape [\s]
    use. *)
Definition is_ws (c : char) : bool :=
  ((9 <=? c) && (c <=? 13) || (c =? 32) || (c =? 160) || (c =? 5760)
   || (8192 <=? c) && (c <=? 8202)
   || (c =? 8232) || (c =? 8233) || (c =? 8239) || (c =? 8287)
   || (c =? 12288) || (c =? 65279))%N.

Fixpoint dropWhile (p : char -> bool) (s : jsstring) : jsstring :=
  match s with
  | [] => []
  | c :: s' => if p c then dropWhile p s' else s
  end.

Definition trimStart (s : jsstring) : jsstring := dropWhile is_ws s.

(** [trimEnd] cuts at the first position from which only white space
    follows. *)
Fixpoint trimEnd (s : jsstring) : jsstring :=
  match s with
  | [] => []
  | c :: s' => if forallb is_ws s then [] else c :: trimEnd s'
  end.

(** [String.prototype.trim]. *)
Definition trim (s : jsstring) : jsstring := trimEnd (trimStart s).

(** [s.replace(/^<prefix>\s*/, '')]: the pattern is anchored at the start, so
    it matches only when [s] begins with [prefix]; the greedy [\s*] then
    takes the whole run of white space that follows. *)
Fixpoint stripPrefix (prefix s : jsstring) : option jsstring :=
  match prefix, s with
  | [], _ => Some s
  | p :: prefix', c :: s' => if N.eqb c p then stripPrefix prefix' s' else None
  | _ :: _, [] => None
  end.

Definition replace_start (prefix s : jsstring) : jsstring :=
  match stripPrefix prefix s with
  | Some rest => dropWhile is_ws rest
  | None => s
  end.

(** Does [/\s*```$/] match at the very start of [s]?  The greedy [\s*] takes
    the maximal run of white space (no shorter run can work: the next unit
    must be a backtick), after which exactly the fence must remain. *)
Definition fence_tail_here (s : jsstring) : bool :=
  str_eqb (dropWhile is_ws s) FENCE.

(** [s.replace(/\s*```$/, '')]: a regular-expression search tries the
    positions from left to right, and the match, reaching the end of the
    string, is replaced by the empty string. *)
Fixpoint replace_fence_tail (s : jsstring) : jsstring :=
  if fence_tail_here s then []
  else match s with
       | [] => []
       | c :: s' => c :: replace_fence_tail s'
       end.

(** [Array.prototype.join] on an array of strings. *)
Fixpoint join (sep : jsstring) (l : list jsstring) : jsstring :=
  match l with
  | [] => []
  | [x] => x
  | x :: l' => x ++ sep ++ join sep l'
  end.

(** A string is truthy when it is not empty. *)
Definition truthy (s : jsstring) : bool :=
  match s with [] => false | _ :: _ => true end.

End JS.

Import JS.

(** Finite and non-finite JavaScript numbers. *)
Inductive number : Type :=
| Fin (q : Q)
| PosInf
| NegInf
| NaN.

(** [x * 1000]. *)
Definition times1000 (x : number) : number :=
  match x with
  | Fin q => Fin (q * 1000)
  | PosInf => PosInf
  | NegInf => NegInf
  | NaN => NaN
  end.

(** [Math.min(x, m)] for a finite [m]. *)
Definition Math_min (x : number) (m : Q) : number :=
  match x with
  | Fin q => Fin (Qmin q m)
  | PosInf => Fin m
  | NegInf => NegInf
  | NaN => NaN
  end.

(** The comparison [x > m]; every comparison with NaN is false. *)
Definition exceeds (x : number) (m : Q) : Prop :=
  match x with
  | Fin q => m < q
  | PosInf => True
  | NegInf => False
  | NaN => False
  end.

(* ===================================================================== *)
(** * IEEE-754 doubles *)
(* ===================================================================== *)

(** The Number type of JavaScript is the binary64 format of IEEE 754.  Where
    a property is about the value a computation gives, and not only about
    the branch it takes, the computation is embedded on the binary64
    operations of the standard library ([SpecFloat]: round to nearest, ties
    to even), with their overflow to an infinity and their NaN. *)
Module Double.

Import SpecFloat.

Definition double : Type := spec_float.

Definition prec : Z := 53.
Definition emax : Z := 1024.

Definition mul : double -> double -> double := SFmul prec emax.
Definition add : double -> double -> double := SFadd prec emax.
Definition sub : double -> double -> double := SFsub prec emax.
Definition div : double -> double -> double := SFdiv prec emax.
Definition abs : double -> double := SFabs.

(** The comparisons [<], [<=] and [===]; each is false when an argument is
    NaN. *)
Definition ltb : double -> double -> bool := SFltb.
Definition leb : double -> double -> bool := SFleb.
Definition eqb : double -> double -> bool := SFeqb.

Definition isNaN (x : double) : bool :=
  match x with S754_nan => true | _ => false end.


(** The double of an integer: the nearest one. *)
Definition ofZ (z : Z) : double := binary_normalize prec emax z 0 false.

(** The double that a numeric literal of the exact value [q] denotes: the
    nearest one, the quotient of numerator and denominator rounded once. *)
Definition ofQ (q : Q) : double :=
  let round (s : bool) (a : positive) : double :=
    let '(m, e, l) :=
      SFdiv_core_binary prec emax (Zpos a) 0 (Zpos (Qden q)) 0 in
    binary_round_aux prec emax s m e l in
  match Qnum q with
  | Z0 => S754_zero false
  | Zpos a => round false a
  | Zneg a => round true a
  end.

(** The double of a number that a string-to-number conversion gives. *)
Definition ofNumber (x : number) : double :=
  match x with
  | Fin q => ofQ q
  | PosInf => S754_infinity false
  | NegInf => S754_infinity true
  | NaN => S754_nan
  end.

(** [Math.min(x, y)]: NaN when an argument is NaN; [-0] is below [+0]. *)
Definition Math_min (x y : double) : double :=
  match SFcompare x y with
  | None => S754_nan
  | Some Lt => x
  | Some Gt => y
  | Some Eq => match x with S754_zero true => x | _ => y end
  end.


End Double.

(* ===================================================================== *)
(** * JSON values and [JSON.parse] *)
(* ===================================================================== *)

(** A decoded JSON value.  An object is the list of its members in the order
    the decoder created them; a repeated key overwrites the earlier
    member. *)
Inductive JSON : Type :=
| JNull
| JBool (b : bool)
| JNumber (q : Q)
| JString (s : jsstring)
| JArray (items : list JSON)
| JObject (members : list (jsstring * JSON)).

Module Json.

Fixpoint lookup (key : jsstring) (m : list (jsstring * JSON)) : option JSON :=
  match m with
  | [] => None
  | (k, v) :: m' => if str_eqb k key then Some v else lookup key m'
  end.

Fixpoint set (key : jsstring) (v : JSON) (m : list (jsstring * JSON))
  : list (jsstring * JSON) :=
  match m with
  | [] => [(key, v)]
  | (k, w) :: m' => if str_eqb k key then (k, v) :: m' else (k, w) :: set key v m'
  end.

(** ToBoolean. *)
Definition toBoolean (v : JSON) : bool :=
  match v with
  | JNull => false
  | JBool b => b
  | JNumber q => negb (Qeq_bool q 0)
  | JString s => JS.truthy s
  | JArray _ | JObject _ => true
  end.

(** [typeof v === 'object'] (true of [null], arrays and objects). *)
Definition typeof_object (v : JSON) : bool :=
  match v with
  | JNull | JArray _ | JObject _ => true
  | _ => false
  end.

(** JSON white space: space, tab, line feed, carriage return. *)
Definition is_json_ws (c : char) : bool :=
  ((c =? 32) || (c =? 9) || (c =? 10) || (c =? 13))%N.

Definition skip_ws (s : jsstring) : jsstring := dropWhile is_json_ws s.

Definition is_digit (c : char) : bool := ((48 <=? c) && (c <=? 57))%N.

Definition hex_val (c : char) : option N :=
  if is_digit c then Some (c - 48)%N
  else if ((97 <=? c) && (c <=? 102))%N then Some (c - 87)%N
  else if ((65 <=? c) && (c <=? 70))%N then Some (c - 55)%N
  else None.

Definition hex4 (a b c d : char) : option char :=
  match hex_val a, hex_val b, hex_val c, hex_val d with
  | Some x, Some y, Some z, Some w => Some (((x * 16 + y) * 16 + z) * 16 + w)%N
  | _, _, _, _ => None
  end.

(** The single-character escapes of a JSON string. *)
Definition simple_escape (c : char) : option char :=
  if (c =? 34)%N then Some 34%N          (* quotation mark *)
  else if (c =? 92)%N then Some 92%N     (* reverse solidus *)
  else if (c =? 47)%N then Some 47%N     (* solidus *)
  else if (c =? 98)%N then Some 8%N      (* b *)
  else if (c =? 102)%N then Some 12%N    (* f *)
  else if (c =? 110)%N then Some 10%N    (* n *)
  else if (c =? 114)%N then Some 13%N    (* r *)
  else if (c =? 116)%N then Some 9%N     (* t *)
  else None.

(** The characters of a string literal after its opening quotation mark, up
    to and including the closing one. *)
Fixpoint parse_chars (s acc : jsstring) : option (jsstring * jsstring) :=
  match s with
  | [] => None
  | c :: t =>
      if (c =? 34)%N then Some (rev acc, t)
      else if (c =? 92)%N then
        match t with
        | [] => None
        | e :: t' =>
            if (e =? 117)%N then
              match t' with
              | h1 :: h2 :: h3 :: h4 :: t'' =>
                  match hex4 h1 h2 h3 h4 with
                  | Some u => parse_chars t'' (u :: acc)
                  | None => None
                  end
              | _ => None
              end
            else
              match simple_escape e with
              | Some u => parse_chars t' (u :: acc)
              | None => None
              end
        end
      else if (c <? 32)%N then None
      else parse_chars t (c :: acc)
  end.

(** A maximal run of decimal digits: its value, its length, the rest. *)
Fixpoint digits (s : jsstring) (acc : Z) (len : Z) : Z * Z * jsstring :=
  match s with
  | c :: t =>
      if is_digit c then digits t (acc * 10 + Z.of_N (c - 48)) (len + 1)
      else (acc, len, s)
  | [] => (acc, len, s)
  end.

(** The integer part of a number: a single zero, or a run that does not
    begin with zero. *)
Definition parse_int (s : jsstring) : option (Z * jsstring) :=
  match s with
  | c :: t =>
      if (c =? 48)%N then Some (0%Z, t)
      else if is_digit c then
        let '(v, _, rest) := digits s 0 0 in Some (v, rest)
      else None
  | [] => None
  end.

Definition parse_frac (s : jsstring) : option (Z * Z * jsstring) :=
  match s with
  | c :: t =>
      if (c =? 46)%N then
        let '(v, len, rest) := digits t 0 0 in
        if (len =? 0)%Z then None else Some (v, len, rest)
      else Some (0%Z, 0%Z, s)
  | [] => Some (0%Z, 0%Z, s)
  end.

Definition parse_exp (s : jsstring) : option (Z * jsstring) :=
  match s with
  | c :: t =>
      if ((c =? 101) || (c =? 69))%N then
        let '(neg, t') :=
          match t with
          | d :: t'' =>
              if (d =? 45)%N then (true, t'')
              else if (d =? 43)%N then (false, t'')
              else (false, t)
          | [] => (false, t)
          end in
        let '(v, len, rest) := digits t' 0 0 in
        if (len =? 0)%Z then None
        else Some (if neg then (- v)%Z else v, rest)
      else Some (0%Z, s)
  | [] => Some (0%Z, s)
  end.

(** A number literal; its value is [(-1)^sign * (int.frac) * 10^exp]. *)
Definition parse_number (s : jsstring) : option (Q * jsstring) :=
  let '(neg, s1) :=
    match s with
    | c :: t => if (c =? 45)%N then (true, t) else (false, s)
    | [] => (false, s)
    end in
  match parse_int s1 with
  | None => None
  | Some (i, s2) =>
      match parse_frac s2 with
      | None => None
      | Some (f, flen, s3) =>
          match parse_exp s3 with
          | None => None
          | Some (e, s4) =>
              let mant := (i * 10 ^ flen + f)%Z in
              let q := inject_Z (if neg then - mant else mant)
                       * Qpower (10 # 1) (e - flen) in
              Some (Qred q, s4)
          end
      end
  end.

Definition parse_literal (word : jsstring) (v : JSON) (s : jsstring)
  : option (JSON * jsstring) :=
  match stripPrefix word s with
  | Some rest => Some (v, rest)
  | None => None
  end.

(** Recursive descent over the JSON grammar.  The fuel bounds the number of
    nested or successive values; [parse] supplies more than the text can
    use. *)
Fixpoint parse_value (fuel : nat) (s : jsstring) : option (JSON * jsstring) :=
  match fuel with
  | O => None
  | S fuel' =>
      match skip_ws s with
      | [] => None
      | c :: t =>
          if (c =? 123)%N then                       (* left brace *)
            match skip_ws t with
            | d :: t' =>
                if (d =? 125)%N then Some (JObject [], t')
                else parse_members fuel' (d :: t') []
            | [] => None
            end
          else if (c =? 91)%N then                   (* left bracket *)
            match skip_ws t with
            | d :: t' =>
                if (d =? 93)%N then Some (JArray [], t')
                else parse_elements fuel' (d :: t') []
            | [] => None
            end
          else if (c =? 34)%N then
            match parse_chars t [] with
            | Some (str, rest) => Some (JString str, rest)
            | None => None
            end
          else if (c =? 116)%N then parse_literal (js "true") (JBool true) (c :: t)
          else if (c =? 102)%N then parse_literal (js "false") (JBool false) (c :: t)
          else if (c =? 110)%N then parse_literal (js "null") JNull (c :: t)
          else
            match parse_number (c :: t) with
            | Some (q, rest) => Some (JNumber q, rest)
            | None => None
            end
      end
  end

with parse_elements (fuel : nat) (s : jsstring) (acc : list JSON)
  : option (JSON * jsstring) :=
  match fuel with
  | O => None
  | S fuel' =>
      match parse_value fuel' s with
      | None => None
      | Some (v, rest) =>
          match skip_ws rest with
          | c :: t =>
              if (c =? 44)%N then parse_elements fuel' t (v :: acc)
              else if (c =? 93)%N then Some (JArray (rev (v :: acc)), t)
              else None
          | [] => None
          end
      end
  end

with parse_members (fuel : nat) (s : jsstring) (acc : list (jsstring * JSON))
  : option (JSON * jsstring) :=
  match fuel with
  | O => None
  | S fuel' =>
      match skip_ws s with
      | q :: t =>
          if (q =? 34)%N then
            match parse_chars t [] with
            | None => None
            | Some (key, rest) =>
                match skip_ws rest with
                | c :: t' =>
                    if (c =? 58)%N then
                      match parse_value fuel' t' with
                      | None => None
                      | Some (v, rest') =>
                          match skip_ws rest' with
                          | d :: t'' =>
                              if (d =? 44)%N then parse_members fuel' t'' (set key v acc)
                              else if (d =? 125)%N then Some (JObject (set key v acc), t'')
                              else None
                          | [] => None
                          end
                      end
                    else None
                | [] => None
                end
            end
          else None
      | [] => None
      end
  end.

(** [JSON.parse]: [None] stands for the SyntaxError it throws. *)
Definition parse (s : jsstring) : option JSON :=
  match parse_value (2 * List.length s + 2) s with
  | Some (v, rest) =>
      match skip_ws rest with
      | [] => Some v
      | _ :: _ => None
      end
  | None => None
  end.

End Json.

(* ===================================================================== *)
(** * Exceptions *)
(* ===================================================================== *)

(** The outcome of a computation that may throw a value of type [E]. *)
Inductive Result (E A : Type) : Type :=
| Ok (a : A)
| Throw (e : E).

Arguments Ok {E A} a.
Arguments Throw {E A} e.

Definition bind {E A B} (m : Result E A) (k : A -> Result E B) : Result E B :=
  match m with
  | Ok a => k a
  | Throw e => Throw e
  end.

Notation "x <- m ;; k" := (bind m (fun x => k))
  (at level 61, m at next level, right associativity).

(** [try { body } catch (error) { handler }]. *)
Definition try_catch {E E' A} (body : Result E A) (handler : E -> Result E' A)
  : Result E' A :=
  match body with
  | Ok a => Ok a
  | Throw e => handler e
  end.

(** A call that never returns normally ([Promise<never>]). *)
Definition never {E A} (m : Result E Empty_set) : Result E A :=
  match m with
  | Ok a => match a with end
  | Throw e => Throw e
  end.

(** A built-in error object (Error, TypeError, SyntaxError, DOMException). *)
Record JSError : Type := mkJSError {
  err_name : jsstring;
  err_message : jsstring
}.

(** [new Error(message)]. *)
Definition Error (message : jsstring) : JSError :=
  mkJSError (js "Error") message.

(** What the JavaScript engine decides. *)
Class Engine : Type := {
  (** a number inside a template literal *)
  Number_toString : Q -> jsstring;
  (** [Number(s)] on a string *)
  String_toNumber : jsstring -> number;
  (** the message of the SyntaxError that [JSON.parse(text)] throws *)
  JSON_syntax_message : jsstring -> jsstring;
  (** the message of the TypeError thrown on reading a property of [null] *)
  null_property_message : jsstring -> jsstring;
  (** does [new RegExp(source)] succeed *)
  RegExp_valid : jsstring -> bool
}.

(* ===================================================================== *)
(** * Schemas: [src/schemas/types.ts] *)
(* ===================================================================== *)

(** Modelled from the spec: the declarations of [src/schemas/types.ts] are
    not among the sources.  The records follow the data model of the
    specification (section 3) and the members that [prompt-builder.ts] and
    the tests read.  [fields] lists the entries of the JavaScript object in
    the order [Object.entries] enumerates them. *)
Record FieldDefinition : Type := mkField {
  type : jsstring;
  optional : bool;
  description : option jsstring;
  enum : option (list jsstring);
  min : option Q;
  max : option Q;
  pattern : option jsstring
}.

Record SchemaMetadata : Type := mkMetadata {
  meta_name : option jsstring;
  meta_version : option jsstring;
  meta_description : option jsstring
}.

Record ConfidenceConfig : Type := mkConfidence {
  threshold : Q;
  failOnLowConfidence : bool
}.

Record Schema : Type := mkSchema {
  fields : list (jsstring * FieldDefinition);
  metadata : option SchemaMetadata;
  confidence : option ConfidenceConfig
}.

(** [Object.keys(fields)]. *)
Definition keys {A} (o : list (jsstring * A)) : list jsstring := map fst o.

(** A JavaScript object has each key once. *)
Definition object_wf {A} (o : list (jsstring * A)) : Prop := NoDup (keys o).

(** An optional string member used as a condition. *)
Definition truthy_opt (o : option jsstring) : bool :=
  match o with
  | Some s => JS.truthy s
  | None => false
  end.

Definition isSome {A} (o : option A) : bool :=
  match o with Some _ => true | None => false end.

(* ===================================================================== *)
(** * Prompt builder: [src/llm/prompt-builder.ts] *)
(* ===================================================================== *)

Section PromptBuilder.

Context {engine : Engine}.

(** The text before the field definitions. *)
Definition PROMPT_HEAD : jsstring :=
  join NL
    [ js "You are a data extraction assistant. Extract structured data from the provided text according to the schema below.";
      [];
      js "CRITICAL INSTRUCTIONS:";
      js "1. Return ONLY valid JSON matching the schema";
      js "2. Include confidence scores (0-100) for each field, even if field is null";
      js "3. Do not include any explanation or markdown formatting";
      js "4. For optional fields: set value to null if not found or confidence too low";
      js "5. ALWAYS include ALL fields in confidenceByField, even if value is null";
      [];
      js "SCHEMA:";
      [] ].

(** [fieldDef.min ?? '−∞'] and [fieldDef.max ?? '∞'] inside the template. *)
Definition MINUS_INFINITY : jsstring := [8722%N; 8734%N].
Definition INFINITY : jsstring := [8734%N].

Definition bound_text (b : option Q) (fallback : jsstring) : jsstring :=
  match b with
  | Some q => Number_toString q
  | None => fallback
  end.

(** One iteration of the loop over [Object.entries(fields)]: the successive
    [prompt += ...] statements. *)
Definition appendField (prompt : jsstring) (entry : jsstring * FieldDefinition)
  : jsstring :=
  let '(fieldName, fieldDef) := entry in
  let prompt := prompt ++ (NL ++ js "- " ++ fieldName ++ js ": " ++ type fieldDef) in
  let prompt :=
    if optional fieldDef then prompt ++ js " (optional)" else prompt in
  let prompt :=
    if truthy_opt (description fieldDef)
    then prompt ++ (js " - " ++ match description fieldDef with
                                | Some d => d
                                | None => []
                                end)
    else prompt in
  let prompt :=
    match enum fieldDef with
    | Some values => prompt ++ (js " - allowed values: " ++ join (js ", ") values)
    | None => prompt
    end in
  let prompt :=
    if isSome (min fieldDef) || isSome (max fieldDef)
    then prompt ++ (js " - range: " ++ bound_text (min fieldDef) MINUS_INFINITY
                    ++ js " to " ++ bound_text (max fieldDef) INFINITY)
    else prompt in
  let prompt :=
    if truthy_opt (pattern fieldDef)
    then prompt ++ (js " - pattern: " ++ match pattern fieldDef with
                                         | Some p => p
                                         | None => []
                                         end)
    else prompt in
  prompt.

(** The confidence block, present when the schema has a [confidence]
    member. *)
Definition appendConfidence (prompt : jsstring) (c : option ConfidenceConfig)
  : jsstring :=
  match c with
  | Some conf =>
      prompt ++ (NL ++ NL ++ js "CONFIDENCE REQUIREMENTS:" ++ NL
                 ++ js "- Minimum confidence threshold: "
                 ++ Number_toString (threshold conf) ++ js "%" ++ NL
                 ++ js "- Provide per-field confidence scores in your response"
                 ++ NL)
  | None => prompt
  end.

(** The two [map] callbacks of the response format. *)
Definition dataKey (name : jsstring) : jsstring :=
  QUOTE ++ name ++ QUOTE ++ js ": <extracted_value_or_null>".

Definition confidenceKey (name : jsstring) : jsstring :=
  QUOTE ++ name ++ QUOTE ++ js ": <confidence_0_to_100_or_0_if_not_found>".

(** The separator of both [join] calls: a comma, a line feed, four spaces. *)
Definition KEY_SEP : jsstring := js "," ++ NL ++ js "    ".

Definition FORMAT_OPEN : jsstring :=
  NL ++ NL ++ js "RESPONSE FORMAT:" ++ NL
  ++ js "{" ++ NL
  ++ js "  " ++ QUOTE ++ js "data" ++ QUOTE ++ js ": {" ++ NL
  ++ js "    ".

Definition FORMAT_MIDDLE : jsstring :=
  NL ++ js "  }," ++ NL
  ++ js "  " ++ QUOTE ++ js "confidence" ++ QUOTE
  ++ js ": <overall_confidence_0_to_100>," ++ NL
  ++ js "  " ++ QUOTE ++ js "confidenceByField" ++ QUOTE ++ js ": {" ++ NL
  ++ js "    ".

Definition FORMAT_CLOSE : jsstring :=
  NL ++ js "  }" ++ NL
  ++ js "}" ++ NL
  ++ NL
  ++ js "IMPORTANT: Include ALL fields in both data and confidenceByField. Use null for data and 0 for confidence if field not found or uncertain.".

(** The response-format tail for the given key list. *)
Definition responseFormat (names : list jsstring) : jsstring :=
  FORMAT_OPEN ++ join KEY_SEP (map dataKey names)
  ++ FORMAT_MIDDLE ++ join KEY_SEP (map confidenceKey names)
  ++ FORMAT_CLOSE.

Definition buildSystemPrompt (schema : Schema) : jsstring :=
  let prompt := PROMPT_HEAD in
  (* Add field definitions *)
  let prompt := fold_left appendField (fields schema) prompt in
  (* Add confidence requirements *)
  let prompt := appendConfidence prompt (confidence schema) in
  (* Add response format *)
  let prompt := prompt ++ responseFormat (keys (fields schema)) in
  prompt.

Definition buildUserPrompt (input : jsstring) : jsstring :=
  js "Extract data from the following text:" ++ NL ++ NL ++ input.

End PromptBuilder.

(* ===================================================================== *)
(** * LLM errors: [src/llm/errors.ts] *)
(* ===================================================================== *)

Inductive LLMErrorCode : Type :=
| NETWORK_ERROR
| API_ERROR
| TIMEOUT
| INVALID_RESPONSE
| AUTHENTICATION_ERROR
| RATE_LIMIT.

Definition LLMErrorCode_eqb (a b : LLMErrorCode) : bool :=
  match a, b with
  | NETWORK_ERROR, NETWORK_ERROR
  | API_ERROR, API_ERROR
  | TIMEOUT, TIMEOUT
  | INVALID_RESPONSE, INVALID_RESPONSE
  | AUTHENTICATION_ERROR, AUTHENTICATION_ERROR
  | RATE_LIMIT, RATE_LIMIT => true
  | _, _ => false
  end.

(** The [details] object of an error.  The client stores only these four
    members, each a string. *)
Record Details : Type := mkDetails {
  originalError : option jsstring;
  retryAfter : option jsstring;
  content : option jsstring;
  error : option jsstring
}.

Definition noDetails : Details := mkDetails None None None None.

Record LLMError : Type := mkLLMError {
  message : jsstring;
  code : LLMErrorCode;
  statusCode : option Z;
  details : option Details
}.

(* ===================================================================== *)
(** * Client types: [src/llm/types.ts] *)
(* ===================================================================== *)

Record RetryConfig : Type := mkRetryConfig {
  maxRetries : Z;
  initialDelay : Q;
  maxDelay : Q;
  backoffFactor : Q
}.

Record LLMConfig : Type := mkLLMConfig {
  baseURL : jsstring;
  apiKey : option jsstring;
  model : jsstring;
  temperature : option Q;
  maxTokens : option Q;
  timeout : option Q;
  retries : option RetryConfig
}.

Inductive Role : Type := system | user | assistant.

(** A chat message.  The declared type has [content: string]; the parser
    guards against a response without it, hence the option. *)
Record ChatMessage : Type := mkMessage {
  role : Role;
  msg_content : option jsstring
}.

Record LLMRequest : Type := mkRequest {
  req_model : jsstring;
  messages : list ChatMessage;
  req_temperature : Q;
  max_tokens : Q
}.

(** A choice; only [message] is read. *)
Record Choice : Type := mkChoice {
  choice_message : option ChatMessage
}.

(** A completion response; only [choices] is read. *)
Record LLMResponse : Type := mkResponse {
  choices : option (list Choice)
}.

Record ExtractionResponse : Type := mkExtraction {
  data : JSON;
  ex_confidence : Q;
  confidenceByField : JSON
}.

Record ExtractionOptions : Type := mkOptions {
  opt_schema : Schema;
  input : jsstring;
  systemPrompt : option jsstring
}.

(* ===================================================================== *)
(** * The network *)
(* ===================================================================== *)

(** The decoded body of an HTTP response, at the two types the client casts
    it to: [{ error?: { message?: string } }] on the error path and
    [LLMResponse] on the success path. *)
Record Body : Type := mkBody {
  errorData_message : option jsstring;
  asLLMResponse : LLMResponse
}.

(** A fetch [Response].  [json] is what [response.json()] settles to;
    [header_RetryAfter] is [response.headers.get('Retry-After')]. *)
Record Response : Type := mkHttpResponse {
  ok : bool;
  status : Z;
  statusText : jsstring;
  header_RetryAfter : option jsstring;
  json : Result JSError Body
}.

(** The Fetch standard: [ok] is true exactly for the statuses 200..299. *)
Definition Response_wf (r : Response) : Prop :=
  ok r = ((200 <=? status r) && (status r <=? 299))%Z.

Record HttpRequest : Type := mkHttpRequest {
  url : jsstring;
  method : jsstring;
  headers : list (jsstring * jsstring);
  body : LLMRequest
}.

(** How a [fetch] call settles. *)
Inductive FetchOutcome : Type :=
| Resolved (response : Response)
| Rejected (reason : JSError).

(** What [fetch] rejects with once [controller.abort()] has run; only the
    timer armed with the configured timeout calls it. *)
Definition AbortError : JSError :=
  mkJSError (js "AbortError") (js "This operation was aborted").

(** The network as one call of [chatWithRetry] sees it: how the fetch of
    attempt [n] settles. *)
Definition Network : Type := Z -> HttpRequest -> FetchOutcome.

(** What is thrown inside the [try] block of [chat]. *)
Inductive Thrown : Type :=
| ThrownLLMError (e : LLMError)
| ThrownError (e : JSError).

Definition lift {A} (m : Result JSError A) : Result Thrown A :=
  match m with
  | Ok a => Ok a
  | Throw e => Throw (ThrownError e)
  end.

Definition await_fetch (o : FetchOutcome) : Result Thrown Response :=
  match o with
  | Resolved r => Ok r
  | Rejected e => Throw (ThrownError e)
  end.

(** What one call of [chatWithRetry] does, in order. *)
Inductive Event : Type :=
| EvChat (attempt : Z)
| EvSleep (ms : number).

(* ===================================================================== *)
(** * The client: [src/llm/client.ts] *)
(* ===================================================================== *)

Record ResolvedConfig : Type := mkResolved {
  cfg_baseURL : jsstring;
  cfg_apiKey : option jsstring;
  cfg_model : jsstring;
  cfg_temperature : Q;
  cfg_maxTokens : Q;
  cfg_timeout : Q
}.

Record LLMClient : Type := mkClient {
  config : ResolvedConfig;
  retryConfig : RetryConfig
}.

Definition orDefault {A} (o : option A) (d : A) : A :=
  match o with Some a => a | None => d end.

(** [constructor(config)]. *)
Definition newLLMClient (config : LLMConfig) : LLMClient :=
  {| config :=
       {| cfg_baseURL := baseURL config;
          cfg_apiKey := apiKey config;
          cfg_model := model config;
          cfg_temperature := orDefault (temperature config) 0;
          cfg_maxTokens := orDefault (maxTokens config) 2000;
          cfg_timeout := orDefault (timeout config) 120000 |};
     retryConfig :=
       orDefault (retries config)
         {| maxRetries := 3;
            initialDelay := 1000;
            maxDelay := 10000;
            backoffFactor := 2 |} |}.

Section Client.

Context {engine : Engine}.
Variable this : LLMClient.

(** Checks if error is retryable. *)
Definition isRetryableError (error : LLMError) : bool :=
  let retryableCodes := [NETWORK_ERROR; TIMEOUT; RATE_LIMIT; API_ERROR] in
  existsb (LLMErrorCode_eqb (code error)) retryableCodes.

(** [error.details?.retryAfter]. *)
Definition details_retryAfter (error : LLMError) : option jsstring :=
  match details error with
  | Some d => retryAfter d
  | None => None
  end.

(** Calculates delay with exponential backoff and jitter; [random] is the
    value [Math.random()] returns. *)
Definition calculateDelay (attempt : Z) (error : LLMError) (random : Q) : number :=
  if LLMErrorCode_eqb (code error) RATE_LIMIT
     && truthy_opt (details_retryAfter error)
  then
    let retryAfter :=
      times1000 (String_toNumber (orDefault (details_retryAfter error) [])) in
    Math_min retryAfter (maxDelay (retryConfig this))
  else
    let exponentialDelay :=
      initialDelay (retryConfig this)
      * Qpower (backoffFactor (retryConfig this)) attempt in
    let jitter := exponentialDelay * (25 # 100) * random in
    let delayWithJitter := exponentialDelay + jitter in
    Math_min (Fin delayWithJitter) (maxDelay (retryConfig this)).

(** Handles error responses from API. *)
Definition handleErrorResponse (response : Response) : Result Thrown Empty_set :=
  let status := status response in
  let errorMessage :=
    js "API error: " ++ Number_toString (inject_Z status) ++ js " "
    ++ statusText response in
  let errorMessage :=
    match json response with
    | Ok errorData =>
        if truthy_opt (errorData_message errorData)
        then orDefault (errorData_message errorData) []
        else errorMessage
    | Throw _ => errorMessage
    end in
  let '(errorCode, details) :=
    if ((status =? 401) || (status =? 403))%Z then
      (AUTHENTICATION_ERROR, noDetails)
    else if (status =? 429)%Z then
      (RATE_LIMIT,
       if truthy_opt (header_RetryAfter response)
       then mkDetails None (header_RetryAfter response) None None
       else noDetails)
    else (API_ERROR, noDetails) in
  Throw (ThrownLLMError (mkLLMError errorMessage errorCode (Some status) (Some details))).

(** The headers of the request: [Authorization] only with a non-empty key. *)
Definition requestHeaders : list (jsstring * jsstring) :=
  (js "Content-Type", js "application/json")
  :: (if truthy_opt (cfg_apiKey (config this))
      then [(js "Authorization",
             js "Bearer " ++ orDefault (cfg_apiKey (config this)) [])]
      else []).

(** Calls chat completion API; [fetch] is how the call settles. *)
Definition chat (fetch : HttpRequest -> FetchOutcome) (request : LLMRequest)
  : Result LLMError LLMResponse :=
  let url := cfg_baseURL (config this) ++ js "/chat/completions" in
  try_catch
    (response <- await_fetch
                   (fetch {| url := url;
                             method := js "POST";
                             headers := requestHeaders;
                             body := request |}) ;;
     _ <- (if negb (ok response)
           then never (handleErrorResponse response)
           else Ok tt) ;;
     data <- lift (json response) ;;
     Ok (asLLMResponse data))
    (fun error =>
       match error with
       | ThrownLLMError e => Throw e
       | ThrownError e =>
           if str_eqb (err_name e) (js "AbortError") then
             Throw (mkLLMError
                      (js "Request timeout after "
                       ++ Number_toString (cfg_timeout (config this)) ++ js "ms")
                      TIMEOUT None None)
           else
             Throw (mkLLMError
                      (js "Network error: " ++ err_message e)
                      NETWORK_ERROR None
                      (Some (mkDetails (Some (err_message e)) None None None)))
       end).

(** The outcome of [chatWithRetry]: [Throw None] is [throw null], which
    [throw lastError!] does when no attempt was made. *)
Definition RetryResult : Type :=
  (Result (option LLMError) LLMResponse * list Event)%type.

Definition emit (ev : list Event) (r : RetryResult) : RetryResult :=
  (fst r, ev ++ snd r).

(** The [while (attempt <= maxRetries)] loop.  [fuel] bounds the number of
    iterations; [None] means it ran out. *)
Fixpoint retryLoop (net : Network) (rnd : Z -> Q) (request : LLMRequest)
    (fuel : nat) (attempt : Z) (lastError : option LLMError)
  : option RetryResult :=
  if (attempt <=? maxRetries (retryConfig this))%Z then
    match fuel with
    | O => None
    | S fuel' =>
        match chat (net attempt) request with
        | Ok response => Some (Ok response, [EvChat attempt])
        | Throw lastError =>
            (* Don't retry on non-retryable errors *)
            if negb (isRetryableError lastError) then
              Some (Throw (Some lastError), [EvChat attempt])
            (* Last attempt - don't wait *)
            else if (attempt =? maxRetries (retryConfig this))%Z then
              Some (Throw (Some lastError), [EvChat attempt])
            else
              let delay := calculateDelay attempt lastError (rnd attempt) in
              option_map (emit [EvChat attempt; EvSleep delay])
                (retryLoop net rnd request fuel' (attempt + 1) (Some lastError))
        end
    end
  else Some (Throw lastError, []).

(** Calls chat completion API with retry logic. *)
Definition chatWithRetry (net : Network) (rnd : Z -> Q) (request : LLMRequest)
  : option RetryResult :=
  retryLoop net rnd request
    (Z.to_nat (maxRetries (retryConfig this) + 1)) 0 None.

(** [response.choices[0].message.content] when all three are present. *)
Definition firstContent (choice : Choice) : option jsstring :=
  match choice_message choice with
  | Some message => msg_content message
  | None => None
  end.

(** Remove markdown code blocks if present. *)
Definition stripCodeBlock (content : jsstring) : jsstring :=
  if startsWith content (FENCE ++ js "json") then
    replace_fence_tail (replace_start (FENCE ++ js "json") content)
  else if startsWith content FENCE then
    replace_fence_tail (replace_start FENCE content)
  else content.

Definition JSON_parse (text : jsstring) : Result JSError JSON :=
  match Json.parse text with
  | Some v => Ok v
  | None => Throw (mkJSError (js "SyntaxError") (JSON_syntax_message text))
  end.

(** [parsed.key]: reading a property of [null] throws a TypeError; a missing
    property, or any property of a value that is not an object, is
    [undefined]. *)
Definition getProperty (parsed : JSON) (key : jsstring)
  : Result JSError (option JSON) :=
  match parsed with
  | JNull => Throw (mkJSError (js "TypeError") (null_property_message key))
  | JObject members => Ok (Json.lookup key members)
  | _ => Ok None
  end.

(** [!v || typeof v !== 'object'] for a possibly undefined [v]. *)
Definition notAnObject (v : option JSON) : bool :=
  match v with
  | Some x => negb (Json.toBoolean x) || negb (Json.typeof_object x)
  | None => true
  end.

(** The body of the [try] block of [parseExtractionResponse]. *)
Definition decodeExtraction (content : jsstring)
  : Result JSError ExtractionResponse :=
  parsed <- JSON_parse content ;;
  data <- getProperty parsed (js "data") ;;
  if notAnObject data then
    Throw (Error (js "Response missing data object"))
  else
    confidence <- getProperty parsed (js "confidence") ;;
    match confidence with
    | Some (JNumber confidence) =>
        confidenceByField <- getProperty parsed (js "confidenceByField") ;;
        if notAnObject confidenceByField then
          Throw (Error (js "Response missing confidenceByField object"))
        else
          Ok {| data := orDefault data JNull;
                ex_confidence := confidence;
                confidenceByField := orDefault confidenceByField JNull |}
    | _ => Throw (Error (js "Response missing confidence score"))
    end.

(** The guards of [parseExtractionResponse] that precede the decoding: the
    message text, or the error thrown for a response without choices or
    without content. *)
Definition responseContent (response : LLMResponse) : Result LLMError jsstring :=
  match choices response with
  | None | Some [] =>
      Throw (mkLLMError (js "No choices in LLM response") INVALID_RESPONSE None None)
  | Some (choice :: _) =>
      if negb (truthy_opt (firstContent choice)) then
        Throw (mkLLMError (js "No content in LLM response") INVALID_RESPONSE None None)
      else Ok (orDefault (firstContent choice) [])
  end.

(** Parses extraction response from LLM. *)
Definition parseExtractionResponse (response : LLMResponse)
  : Result LLMError ExtractionResponse :=
  text <- responseContent response ;;
  let content := trim text in
  let content := stripCodeBlock content in
  try_catch (decodeExtraction content)
    (fun error =>
       Throw (mkLLMError
                (js "Failed to parse LLM response: " ++ err_message error)
                INVALID_RESPONSE None
                (Some (mkDetails None None
                         (Some content) (Some (err_message error)))))).

(** The request that [extract] creates from its options. *)
Definition extractionRequest (options : ExtractionOptions) : LLMRequest :=
  (* Build prompts *)
  let system_ :=
    if truthy_opt (systemPrompt options)
    then orDefault (systemPrompt options) []
    else buildSystemPrompt (opt_schema options) in
  let user_ := buildUserPrompt (input options) in
  (* Create request *)
  {| req_model := cfg_model (config this);
     messages := [ mkMessage system (Some system_);
                   mkMessage user (Some user_) ];
     req_temperature := cfg_temperature (config this);
     max_tokens := cfg_maxTokens (config this) |}.

(** What [extract] makes of a completion: the parsed response, or the error
    of the parser. *)
Definition parsed (response : LLMResponse)
  : Result (option LLMError) ExtractionResponse :=
  match parseExtractionResponse response with
  | Ok r => Ok r
  | Throw e => Throw (Some e)
  end.

(** Extracts data from text using schema. *)
Definition extract (net : Network) (rnd : Z -> Q) (options : ExtractionOptions)
  : option (Result (option LLMError) ExtractionResponse * list Event) :=
  let request := extractionRequest options in
  (* Call API with retries *)
  match chatWithRetry net rnd request with
  | None => None
  | Some (Ok response, events) =>
      (* Parse response *)
      Some (parsed response, events)
  | Some (Throw e, events) => Some (Throw e, events)
  end.

End Client.

(* ===================================================================== *)
(** * The delay as a double *)
(* ===================================================================== *)

(** The client above carries its numbers as exact rationals, which decide
    the branches it takes and the order of its requests and waits.  The
    value of a wait is computed here as the engine computes it, on
    doubles. *)
Module Doubles.

(** [this.retryConfig]. *)
Record RetryConfig : Type := mkRetryConfig {
  maxRetries : Double.double;
  initialDelay : Double.double;
  maxDelay : Double.double;
  backoffFactor : Double.double
}.


Section CalculateDelay.

Context {engine : Engine}.

(** [Math.pow(base, exponent)] for an exponent that is an integer.
    ECMAScript leaves the value to the implementation. *)
Variable Math_pow : Double.double -> Z -> Double.double.

Variable retryConfig : RetryConfig.

(** [Number(s)] on a string: the double nearest to the value that the
    string denotes. *)
Definition Number (s : jsstring) : Double.double :=
  Double.ofNumber (String_toNumber s).

(** Calculates delay with exponential backoff and jitter; [random] is the
    value [Math.random()] returns. *)
Definition calculateDelay (attempt : Z) (error : LLMError)
    (random : Double.double) : Double.double :=
  if LLMErrorCode_eqb (code error) RATE_LIMIT
     && truthy_opt (details_retryAfter error)
  then
    let retryAfter :=
      Double.mul (Number (orDefault (details_retryAfter error) []))
        (Double.ofZ 1000) in
    Double.Math_min retryAfter (maxDelay retryConfig)
  else
    let exponentialDelay :=
      Double.mul (initialDelay retryConfig)
        (Math_pow (backoffFactor retryConfig) attempt) in
    let jitter :=
      Double.mul (Double.mul exponentialDelay (Double.ofQ (25 # 100))) random in
    let delayWithJitter := Double.add exponentialDelay jitter in
    Double.Math_min delayWithJitter (maxDelay retryConfig).

End CalculateDelay.

End Doubles.

(* ===================================================================== *)
(** * Schema loading: [src/schemas/loader.ts] *)
(* ===================================================================== *)

(** Modelled from the spec: the error codes of [src/schemas/errors.ts] are
    not among the sources, except [INVALID_JSON], which [loader.ts] uses.
    The other codes name the six failure cases of section 4.1; the message
    texts of these cases are not known either and repeat the words of that
    section. *)
Inductive SchemaErrorCode : Type :=
| INVALID_JSON
| FIELDS_MISSING_OR_EMPTY
| FIELD_LACKS_TYPE
| ENUM_EMPTY
| MIN_ABOVE_MAX
| PATTERN_INVALID
| METADATA_MALFORMED.

Record SchemaValidationError : Type := mkSchemaError {
  sch_message : jsstring;
  sch_code : SchemaErrorCode;
  sch_field : option jsstring
}.

(** A member of a raw value; a value that is not an object has none. *)
Definition member (v : JSON) (key : jsstring) : option JSON :=
  match v with
  | JObject members => Json.lookup key members
  | _ => None
  end.

Section Loader.

Context {engine : Engine}.

(** The specification does not say when [metadata] is malformed; the test is
    left open. *)
Variable malformedMetadata : JSON -> bool.

(** The entries of the [fields] mapping of a raw schema, none when the
    mapping is missing. *)
Definition rawFields (raw : JSON) : list (jsstring * JSON) :=
  match member raw (js "fields") with
  | Some (JObject entries) => entries
  | _ => []
  end.

Definition fieldsMissingOrEmpty (raw : JSON) : bool :=
  match rawFields raw with
  | [] => true
  | _ :: _ => false
  end.

Definition lacksType (def : JSON) : bool :=
  negb (isSome (member def (js "type"))).

Definition enumEmpty (def : JSON) : bool :=
  match member def (js "enum") with
  | Some (JArray []) => true
  | _ => false
  end.

Definition minAboveMax (def : JSON) : bool :=
  match member def (js "min"), member def (js "max") with
  | Some (JNumber lo), Some (JNumber hi) => negb (Qle_bool lo hi)
  | _, _ => false
  end.

Definition patternInvalid (def : JSON) : bool :=
  match member def (js "pattern") with
  | Some (JString source) => negb (RegExp_valid source)
  | _ => false
  end.

(** Modelled from the spec: the checks of one field definition, section 4.1:
    "a field lacks [type]; [enum] present but empty; [min > max]; [pattern]
    not a valid regular expression". *)
Definition validateField (entry : jsstring * JSON)
  : Result SchemaValidationError unit :=
  let '(name, def) := entry in
  if lacksType def then
    Throw (mkSchemaError (js "Field lacks a type") FIELD_LACKS_TYPE (Some name))
  else if enumEmpty def then
    Throw (mkSchemaError (js "Enum is empty") ENUM_EMPTY (Some name))
  else if minAboveMax def then
    Throw (mkSchemaError (js "min is above max") MIN_ABOVE_MAX (Some name))
  else if patternInvalid def then
    Throw (mkSchemaError (js "Pattern is not a regular expression")
             PATTERN_INVALID (Some name))
  else Ok tt.

Fixpoint validateFields (entries : list (jsstring * JSON))
  : Result SchemaValidationError unit :=
  match entries with
  | [] => Ok tt
  | entry :: rest => _ <- validateField entry ;; validateFields rest
  end.

(** Modelled from the spec: [validateSchema] of [src/schemas/validator.ts]
    is not among the sources.  Section 4.1: "fails with a SchemaError when:
    [fields] missing/empty; a field lacks [type]; [enum] present but empty;
    [min > max]; [pattern] not a valid regular expression; malformed
    [metadata]. Total, side-effect-free." *)
Definition validateSchema (raw : JSON) : Result SchemaValidationError unit :=
  if fieldsMissingOrEmpty raw then
    Throw (mkSchemaError (js "Schema has no fields") FIELDS_MISSING_OR_EMPTY None)
  else
    _ <- validateFields (rawFields raw) ;;
    if malformedMetadata raw then
      Throw (mkSchemaError (js "Metadata is malformed") METADATA_MALFORMED None)
    else Ok tt.

(** Parses a schema from a JSON string. *)
Definition parseSchema (jsonString : jsstring) : Result SchemaValidationError JSON :=
  schema <- try_catch (JSON_parse jsonString)
              (fun error =>
                 Throw (mkSchemaError (js "Invalid JSON: " ++ err_message error)
                          INVALID_JSON None)) ;;
  _ <- validateSchema schema ;;
  Ok schema.

(** Loads a schema from an object. *)
Definition loadSchemaFromObject (obj : JSON) : Result SchemaValidationError JSON :=
  _ <- validateSchema obj ;;
  Ok obj.

(** The failure cases that section 4.1 lists for a field definition. *)
Definition fieldFails (def : JSON) : bool :=
  lacksType def || enumEmpty def || minAboveMax def || patternInvalid def.

End Loader.

(* ===================================================================== *)
(** * The threshold decision: [src/core/pipeline.ts] *)
(* ===================================================================== *)

(** Modelled from the spec: [extract] of [src/core/pipeline.ts] is not among
    the sources.  Section 4.5: "compute [meetsThreshold = confidence >=
    schema.confidence.threshold] (default threshold 0 when unset)". *)
Definition confidenceThreshold (schema : Schema) : Q :=
  match confidence schema with
  | Some c => threshold c
  | None => 0
  end.

Definition meetsThreshold (schema : Schema) (response : ExtractionResponse) : bool :=
  Qle_bool (confidenceThreshold schema) (ex_confidence response).

(* ===================================================================== *)
(** * A reference engine *)
(* ===================================================================== *)

(** Decimal digits of a natural number, most significant first. *)
Fixpoint decimal_digits (fuel : nat) (n : N) (acc : jsstring) : jsstring :=
  match fuel with
  | O => acc
  | S fuel' =>
      let acc' := (48 + n mod 10)%N :: acc in
      if (n <? 10)%N then acc' else decimal_digits fuel' (n / 10)%N acc'
  end.

Definition Z_toString (z : Z) : jsstring :=
  let digits := decimal_digits (S (N.to_nat (N.log2 (Z.abs_N z)))) (Z.abs_N z) [] in
  if (z <? 0)%Z then js "-" ++ digits else digits.

(** [Number(s)] on the empty string and on unsigned decimal integer
    literals, the form of a Retry-After delay in seconds; every other
    string is taken to NaN, which [Number] gives for the strings that are
    no numeric literal (an HTTP date, for one). *)
Definition decimal_toNumber (s : jsstring) : number :=
  match s with
  | [] => Fin 0
  | _ :: _ =>
      if forallb Json.is_digit s
      then Fin (inject_Z (fst (fst (Json.digits s 0 0))))
      else NaN
  end.

(** An engine in the manner of V8, used to evaluate the model on concrete
    inputs.  Its conversions are exact on integers, and the examples convert
    nothing else; the texts of its error messages are fixed strings; it
    takes every source for a regular expression, and the examples have no
    pattern. *)
Definition referenceEngine : Engine :=
  {| Number_toString := fun q => Z_toString (Qnum q / Z.pos (Qden q));
     String_toNumber := decimal_toNumber;
     JSON_syntax_message := fun _ => js "Unexpected token in JSON";
     null_property_message := fun key =>
       js "Cannot read properties of null (reading '" ++ key ++ js "')";
     RegExp_valid := fun _ => true |}.

(* ===================================================================== *)
(** * Vocabulary of the properties *)
(* ===================================================================== *)

(** A completion whose first choice is an assistant message with the given
    text. *)
Definition assistantReply (text : jsstring) : LLMResponse :=
  mkResponse (Some [mkChoice (Some (mkMessage assistant (Some text)))]).

(** The number of chat requests in a trace. *)
Fixpoint attempts (trace : list Event) : nat :=
  match trace with
  | [] => O
  | EvChat _ :: rest => S (attempts rest)
  | EvSleep _ :: rest => attempts rest
  end.

(** The iterations that remain when the loop of [chatWithRetry] is at
    [attempt]. *)
Definition remainingIterations (this : LLMClient) (attempt : Z) : nat :=
  Z.to_nat (maxRetries (retryConfig this) + 1 - attempt).

(** The schema and the options of the client test-suite. *)
Definition nameSchema : Schema :=
  mkSchema [(js "name", mkField (js "string") false None None None None None)]
    None None.

(** The schema of the prompt-builder test-suite. *)
Definition personSchema : Schema :=
  mkSchema
    [ (js "name", mkField (js "string") false None None None None None);
      (js "age", mkField (js "number") false None None (Some 0) (Some 120) None) ]
    None (Some (mkConfidence 80 true)).

(** Raw schemas of the loader test-suite: one that validates, one whose
    range is empty. *)
Definition rawTitleSchema : JSON :=
  JObject [(js "fields",
            JObject [(js "title", JObject [(js "type", JString (js "string"))])])].

Definition rawAgeSchema : JSON :=
  JObject [(js "fields",
            JObject [(js "age",
                      JObject [(js "type", JString (js "number"));
                               (js "min", JNumber 100);
                               (js "max", JNumber 50)])])].

Definition testOptions : ExtractionOptions :=
  mkOptions nameSchema (js "test") None.

(** What follows the chat request of attempt [n] in a call of
    [chatWithRetry], by the way the request ends: nothing, and the call
    returns; or one wait and the request of attempt [n + 1]; or nothing, and
    the call throws the error of the request. *)
Definition AfterAttempt {engine : Engine} (this : LLMClient) (net : Network)
    (rnd : Z -> Q) (request : LLMRequest) (n : Z) (after : list Event)
    (result : Result (option LLMError) LLMResponse) : Prop :=
  match chat this (net n) request with
  | Ok response => after = [] /\ result = Ok response
  | Throw e =>
      if isRetryableError e && (n <? maxRetries (retryConfig this))%Z
      then exists rest,
          after = EvSleep (calculateDelay this n e (rnd n)) :: EvChat (n + 1) :: rest
      else after = [] /\ result = Throw (Some e)
  end.

(** The text that the loop of [buildSystemPrompt] adds for one entry. *)
Definition fieldText {engine : Engine} (entry : jsstring * FieldDefinition)
  : jsstring :=
  appendField [] entry.

(** The field-enumeration section of the system prompt. *)
Definition fieldSection {engine : Engine} (schema : Schema) : jsstring :=
  List.concat (map fieldText (fields schema)).

(** The number of positions of [text] at which [pattern] occurs. *)
Fixpoint occurrences (pattern text : jsstring) : nat :=
  (if startsWith text pattern then 1 else 0)
  + match text with
    | [] => 0
    | _ :: rest => occurrences pattern rest
    end.

(** The code unit [c] does not occur in [s]. *)
Definition lacks (c : char) (s : jsstring) : bool :=
  forallb (fun x => negb (x =? c)%N) s.

(** A field name without double quote, line feed and colon. *)
Definition plainName (name : jsstring) : bool :=
  lacks 34%N name && lacks 10%N name && lacks 58%N name.

(** What follows the name in the entry of a field. *)
Definition fieldRest {engine : Engine} (fieldDef : FieldDefinition) : jsstring :=
  type fieldDef
  ++ (if optional fieldDef then js " (optional)" else [])
  ++ (if truthy_opt (description fieldDef)
      then js " - " ++ orDefault (description fieldDef) [] else [])
  ++ match enum fieldDef with
     | Some values => js " - allowed values: " ++ join (js ", ") values
     | None => []
     end
  ++ (if isSome (min fieldDef) || isSome (max fieldDef)
      then js " - range: " ++ bound_text (min fieldDef) MINUS_INFINITY
           ++ js " to " ++ bound_text (max fieldDef) INFINITY
      else [])
  ++ (if truthy_opt (pattern fieldDef)
      then js " - pattern: " ++ orDefault (pattern fieldDef) [] else []).

(** A field definition whose texts, as the prompt renders them, have no
    line feed. *)
Definition singleLine {engine : Engine} (fieldDef : FieldDefinition) : bool :=
  lacks 10%N (type fieldDef)
  && lacks 10%N (orDefault (description fieldDef) [])
  && forallb (lacks 10%N) (orDefault (enum fieldDef) [])
  && lacks 10%N (bound_text (min fieldDef) MINUS_INFINITY)
  && lacks 10%N (bound_text (max fieldDef) INFINITY)
  && lacks 10%N (orDefault (pattern fieldDef) []).

(** The beginning of the entry of a field in the field section. *)
Definition fieldLine (name : jsstring) : jsstring :=
  NL ++ js "- " ++ name ++ js ": ".

(** How often [name] is among [names]. *)
Definition count (name : jsstring) (names : list jsstring) : nat :=
  List.length (filter (fun n => str_eqb n name) names).

(** The lines of a block of keys of the response format: four spaces and a
    key on each, a comma after every key but the last. *)
Fixpoint keyLines (key : jsstring -> jsstring) (names : list jsstring)
  : list jsstring :=
  match names with
  | [] => [js "    "]
  | [name] => [js "    " ++ key name]
  | name :: names' => (js "    " ++ key name ++ js ",") :: keyLines key names'
  end.

(** The lines of the response format. *)
Definition formatLines (names : list jsstring) : list jsstring :=
  [ []; []; js "RESPONSE FORMAT:"; js "{";
    js "  " ++ QUOTE ++ js "data" ++ QUOTE ++ js ": {" ]
  ++ keyLines dataKey names
  ++ [ js "  },";
       js "  " ++ QUOTE ++ js "confidence" ++ QUOTE
       ++ js ": <overall_confidence_0_to_100>,";
       js "  " ++ QUOTE ++ js "confidenceByField" ++ QUOTE ++ js ": {" ]
  ++ keyLines confidenceKey names
  ++ [ js "  }"; js "}"; [];
       js "IMPORTANT: Include ALL fields in both data and confidenceByField. Use null for data and 0 for confidence if field not found or uncertain." ].

(** A schema with a field whose name holds the text of the key of another
    field, and whose description has a line of its own; and the same schema
    as a raw value. *)
Definition oddSchema : Schema :=
  mkSchema
    [ (js "a", mkField (js "string") false None None None None None);
      (dataKey (js "a"),
       mkField (js "string") false (Some (js "see" ++ NL ++ js "- a: b"))
         None None None None) ]
    None None.

Definition rawOddSchema : JSON :=
  JObject
    [(js "fields",
      JObject
        [ (js "a", JObject [(js "type", JString (js "string"))]);
          (dataKey (js "a"),
           JObject [ (js "type", JString (js "string"));
                     (js "description",
                      JString (js "see" ++ NL ++ js "- a: b")) ]) ])].


(** The [data] member of a decoded value when it is an object (arrays
    included, as [typeof] has it). *)
Definition dataObject (parsed : JSON) (key : jsstring) : option JSON :=
  match member parsed key with
  | Some (JObject members) => Some (JObject members)
  | Some (JArray items) => Some (JArray items)
  | _ => None
  end.

(** The [confidence] member of a decoded value when it is a number. *)
Definition numericMember (parsed : JSON) (key : jsstring) : option Q :=
  match member parsed key with
  | Some (JNumber q) => Some q
  | _ => None
  end.

(** The error that [parseExtractionResponse] raises for a failure with the
    given reason while decoding [content]. *)
Definition parseFailure (content reason : jsstring) : LLMError :=
  mkLLMError (js "Failed to parse LLM response: " ++ reason)
    INVALID_RESPONSE None
    (Some (mkDetails None None (Some content) (Some reason))).

(** The fence handling as the specification words it, "if fenced as a code
    block (with/without language tag) strip the fence": the opening fence
    goes with its tag, up to the end of its line, and the closing fence
    goes. *)
Fixpoint afterFirstLine (s : jsstring) : jsstring :=
  match s with
  | [] => []
  | c :: s' => if (c =? 10)%N then s' else afterFirstLine s'
  end.

Definition claimed_stripFence (content : jsstring) : jsstring :=
  if startsWith content FENCE
  then trim (replace_fence_tail (afterFirstLine content))
  else content.

(** The reply of the client test-suite, as a JSON text. *)
Definition ALICE : jsstring :=
  js "{" ++ QUOTE ++ js "data" ++ QUOTE ++ js ":{" ++ QUOTE ++ js "name" ++ QUOTE
  ++ js ":" ++ QUOTE ++ js "Alice" ++ QUOTE ++ js "}," ++ QUOTE ++ js "confidence"
  ++ QUOTE ++ js ":90," ++ QUOTE ++ js "confidenceByField" ++ QUOTE ++ js ":{"
  ++ QUOTE ++ js "name" ++ QUOTE ++ js ":90}}".

Definition ALICE_value : ExtractionResponse :=
  {| data := JObject [(js "name", JString (js "Alice"))];
     ex_confidence := 90;
     confidenceByField := JObject [(js "name", JNumber 90)] |}.

(** The client of the test-suite: a local endpoint, default settings. *)
Definition testClient : LLMClient :=
  newLLMClient
    (mkLLMConfig (js "http://localhost:11434/v1") None (js "llama3")
       None None None None).

Definition testRequest : LLMRequest :=
  mkRequest (js "llama3") [] 0 2000.

(** A response with the given status and no readable body. *)
Definition statusResponse (status : Z) (retryAfterHeader : option jsstring)
  : Response :=
  {| ok := ((200 <=? status) && (status <=? 299))%Z;
     status := status;
     statusText := [];
     header_RetryAfter := retryAfterHeader;
     json := Throw (mkJSError (js "SyntaxError") []) |}.

(** A 2xx response carrying the given completion. *)
Definition okResponse (completion : LLMResponse) : Response :=
  {| ok := true;
     status := 200;
     statusText := js "OK";
     header_RetryAfter := None;
     json := Ok (mkBody None completion) |}.



(* ===================================================================== *)
(** * Vocabulary of the further properties *)
(* ===================================================================== *)

(** A trace in which requests and waits alternate: the request of attempt
    [start], then for each delay a wait and the request of the next
    attempt.  It ends with a request. *)
Fixpoint alternation (start : Z) (delays : list number) : list Event :=
  match delays with
  | [] => [EvChat start]
  | d :: delays' => EvChat start :: EvSleep d :: alternation (start + 1) delays'
  end.

(** The delay of the exponential branch of [calculateDelay], as a
    rational. *)
Definition backoffOf (this : LLMClient) (n : nat) (u : Q) : Q :=
  let base :=
    initialDelay (retryConfig this)
    * backoffFactor (retryConfig this) ^ Z.of_nat n in
  Qmin (base + base * (25 # 100) * u) (maxDelay (retryConfig this)).

(** Creates LLM client with common configurations. *)
Definition createLLMClient (config : LLMConfig) : LLMClient :=
  newLLMClient config.

(** Preset configurations for popular providers.  An argument that is
    [None] is an omitted one, for which the default value of the parameter
    stands. *)
Module LLMPresets.

Definition ollama (model : option jsstring) : LLMConfig :=
  mkLLMConfig (js "http://localhost:11434/v1") None
    (orDefault model (js "llama3")) None None None None.

Definition lmStudio (model : option jsstring) : LLMConfig :=
  mkLLMConfig (js "http://localhost:1234/v1") None
    (orDefault model (js "local-model")) None None None None.

Definition openai (apiKey : jsstring) (model : option jsstring) : LLMConfig :=
  mkLLMConfig (js "https://api.openai.com/v1") (Some apiKey)
    (orDefault model (js "gpt-4o-mini")) None None None None.

Definition openrouter (apiKey : jsstring) (model : option jsstring) : LLMConfig :=
  mkLLMConfig (js "https://openrouter.ai/api/v1") (Some apiKey)
    (orDefault model (js "openai/gpt-4o-mini")) None None None None.

End LLMPresets.

(** The request that [chat] hands to [fetch]. *)
Definition httpRequestOf (this : LLMClient) (request : LLMRequest) : HttpRequest :=
  {| url := cfg_baseURL (config this) ++ js "/chat/completions";
     method := js "POST";
     headers := requestHeaders this;
     body := request |}.

(** Is a value an object in the sense of [typeof], [null] apart. *)
Definition isObjectValue (v : JSON) : Prop :=
  match v with
  | JObject _ | JArray _ => True
  | _ => False
  end.

(* ===================================================================== *)
(** * Loading a schema file: [loadSchema] of [src/schemas/loader.ts] *)
(* ===================================================================== *)

(** The file system as [loadSchema] uses it: [fs.access(path, R_OK)] and
    [fs.readFile(path, "utf-8")]. *)
Record FileSystem : Type := mkFileSystem {
  fs_access : jsstring -> Result JSError unit;
  fs_readFile : jsstring -> Result JSError jsstring
}.

(** The [details] object that [loadSchema] gives to its errors. *)
Record LoadDetails : Type := mkLoadDetails {
  det_filePath : option jsstring;
  det_error : option jsstring
}.

(** What [loadSchema] throws: an error of its own making, with details, or
    the error of [validateSchema], passed on. *)
Inductive LoadFailure : Type :=
| LoaderError (e : SchemaValidationError) (details : LoadDetails)
| ValidatorError (e : SchemaValidationError).

Section LoadSchema.

Context {engine : Engine}.
Variable malformedMetadata : JSON -> bool.

(** Loads a schema from a file path. *)
Definition loadSchema (fs : FileSystem) (filePath : jsstring)
  : Result LoadFailure JSON :=
  (* Check if file exists and is readable *)
  _ <- try_catch (fs_access fs filePath)
         (fun error =>
            Throw (LoaderError
                     (mkSchemaError (js "Cannot read schema file: " ++ filePath)
                        INVALID_JSON None)
                     (mkLoadDetails (Some filePath) (Some (err_message error))))) ;;
  (* Read file content *)
  content <- try_catch (fs_readFile fs filePath)
               (fun error =>
                  Throw (LoaderError
                           (mkSchemaError
                              (js "Failed to read schema file: " ++ err_message error)
                              INVALID_JSON None)
                           (mkLoadDetails (Some filePath) None))) ;;
  (* Parse JSON *)
  schema <- try_catch (JSON_parse content)
              (fun error =>
                 Throw (LoaderError
                          (mkSchemaError
                             (js "Invalid JSON in schema file: " ++ err_message error)
                             INVALID_JSON None)
                          (mkLoadDetails (Some filePath) None))) ;;
  (* Validate schema structure *)
  _ <- try_catch (validateSchema malformedMetadata schema)
         (fun e => Throw (ValidatorError e)) ;;
  Ok schema.

End LoadSchema.

(* ===================================================================== *)
(** * The command line: [src/cli.ts] *)
(* ===================================================================== *)

(** The arguments of the command line.  [debug] is either absent or
    [true]; the boolean says which. *)
Record CliArgs : Type := mkCliArgs {
  cli_command : option jsstring;
  cli_schema : option jsstring;
  cli_input : option jsstring;
  cli_base : option jsstring;
  cli_model : option jsstring;
  cli_debug : bool
}.

(** What the program writes: [console.log(text)], [console.log(label,
    object)] with the members of the object, [console.error(text)]. *)
Inductive Output : Type :=
| Log (text : jsstring)
| LogObject (label : jsstring) (members : list (jsstring * option jsstring))
| LogError (text : jsstring).

(** A step of the program goes on with a value or ends the process with an
    exit code ([process.exit]). *)
Inductive Exit (A : Type) : Type :=
| Continue (a : A)
| Exited (exitCode : Z).

Arguments Continue {A} a.
Arguments Exited {A} exitCode.

Definition HELP_TEXT : jsstring :=
  join NL
    [ [];
      js "Ordis CLI - Schema-first LLM extraction tool";
      [];
      js "USAGE:";
      js "  ordis extract [OPTIONS]";
      [];
      js "OPTIONS:";
      js "  --schema <path>   Path to schema definition file (JSON)";
      js "  --input <path>    Path to input text file";
      js "  --base <url>      Base URL for OpenAI-compatible API";
      js "  --model <name>    Model name to use for extraction";
      js "  --debug           Enable verbose debug output";
      js "  --version, -v     Show version number";
      js "  --help, -h        Show this help message";
      [];
      js "EXAMPLES:";
      js "  # Extract invoice data using local Ollama";
      js "  ordis extract \";
      js "    --schema examples/invoice.schema.json \";
      js "    --input examples/invoice.txt \";
      js "    --base http://localhost:11434/v1 \";
      js "    --model llama3.1:8b";
      [];
      js "  # Extract with debug output";
      js "  ordis extract --schema schema.json --input data.txt --debug";
      [];
      js "For more information, visit: https://github.com/ordis-dev/ordis-cli";
      [] ].

Definition USAGE_LINE : jsstring :=
  js "Usage: ordis extract --schema <path> --input <path> --base <url> --model <name>".

Section Cli.

(** The [version] member of [package.json], which is not among the
    sources. *)
Variable packageVersion : jsstring.

Definition showHelp : list Output := [Log HELP_TEXT].

Definition showVersion : list Output :=
  [Log (js "ordis-cli v" ++ packageVersion)].

(** An argument that is neither an option with its value, nor a flag: it is
    the command unless it begins with two dashes. *)
Definition positional (arg : jsstring) (parsed : CliArgs) : CliArgs :=
  if negb (startsWith arg (js "--"))
  then mkCliArgs (Some arg) (cli_schema parsed) (cli_input parsed)
         (cli_base parsed) (cli_model parsed) (cli_debug parsed)
  else parsed.

(** The loop of [parseArgs] from the argument at hand.  An option takes the
    next argument as its value when there is one and it is not empty
    ([args[i + 1]] is truthy); the value is then skipped ([args[++i]]). *)
Fixpoint parseLoop (args : list jsstring) (parsed : CliArgs)
  : list Output * Exit CliArgs :=
  match args with
  | [] => ([], Continue parsed)
  | arg :: rest =>
      if str_eqb arg (js "--help") || str_eqb arg (js "-h") then
        (showHelp, Exited 0)
      else if str_eqb arg (js "--version") || str_eqb arg (js "-v") then
        (showVersion, Exited 0)
      else if str_eqb arg (js "--debug") then
        parseLoop rest
          (mkCliArgs (cli_command parsed) (cli_schema parsed) (cli_input parsed)
             (cli_base parsed) (cli_model parsed) true)
      else
        match rest with
        | value :: rest' =>
            if str_eqb arg (js "--schema") && JS.truthy value then
              parseLoop rest'
                (mkCliArgs (cli_command parsed) (Some value) (cli_input parsed)
                   (cli_base parsed) (cli_model parsed) (cli_debug parsed))
            else if str_eqb arg (js "--input") && JS.truthy value then
              parseLoop rest'
                (mkCliArgs (cli_command parsed) (cli_schema parsed) (Some value)
                   (cli_base parsed) (cli_model parsed) (cli_debug parsed))
            else if str_eqb arg (js "--base") && JS.truthy value then
              parseLoop rest'
                (mkCliArgs (cli_command parsed) (cli_schema parsed)
                   (cli_input parsed) (Some value) (cli_model parsed)
                   (cli_debug parsed))
            else if str_eqb arg (js "--model") && JS.truthy value then
              parseLoop rest'
                (mkCliArgs (cli_command parsed) (cli_schema parsed)
                   (cli_input parsed) (cli_base parsed) (Some value)
                   (cli_debug parsed))
            else parseLoop rest (positional arg parsed)
        | [] => parseLoop rest (positional arg parsed)
        end
  end.

Definition noArgs : CliArgs := mkCliArgs None None None None None false.

(** [parseArgs(args)]: the loop starts at index 2. *)
Definition parseArgs (args : list jsstring) : list Output * Exit CliArgs :=
  parseLoop (skipn 2 args) noArgs.

(** The report of a missing required option. *)
Definition required (option_ : jsstring) : list Output * Exit unit :=
  ([ LogError (js "Error: " ++ option_ ++ js " is required");
     LogError USAGE_LINE ],
   Exited 1).

(** [runExtraction(args)].  [pipeline] stands for its [try]/[catch] block,
    which loads the schema, reads the input and runs [extract] of
    [src/core/pipeline.ts]; that file is not among the sources. *)
Definition runExtraction (pipeline : CliArgs -> list Output * Exit unit)
    (args : CliArgs) : list Output * Exit unit :=
  (* Validate required arguments *)
  if negb (truthy_opt (cli_schema args)) then required (js "--schema")
  else if negb (truthy_opt (cli_input args)) then required (js "--input")
  else if negb (truthy_opt (cli_base args)) then required (js "--base")
  else if negb (truthy_opt (cli_model args)) then required (js "--model")
  else pipeline args.

(** [main()], with [argv] for [process.argv]. *)
Definition main (pipeline : CliArgs -> list Output * Exit unit)
    (argv : list jsstring) : list Output * Exit unit :=
  match parseArgs argv with
  | (out, Exited exitCode) => (out, Exited exitCode)
  | (out, Continue args) =>
      if negb (truthy_opt (cli_command args)) then
        (out ++ [LogError (js "Error: No command specified. Use " ++ QUOTE
                           ++ js "ordis extract" ++ QUOTE ++ js " or " ++ QUOTE
                           ++ js "ordis --help" ++ QUOTE)],
         Exited 1)
      else if str_eqb (orDefault (cli_command args) []) (js "extract") then
        let debugLine :=
          if cli_debug args
          then [LogObject (js "[DEBUG] Starting extraction with args:")
                  [ (js "schema", cli_schema args);
                    (js "input", cli_input args);
                    (js "base", cli_base args);
                    (js "model", cli_model args) ]]
          else [] in
        let '(out', result) := runExtraction pipeline args in
        (out ++ debugLine ++ out', result)
      else
        (out ++ [LogError (js "Error: Unknown command " ++ QUOTE
                           ++ orDefault (cli_command args) [] ++ QUOTE
                           ++ js ". Use " ++ QUOTE ++ js "ordis --help" ++ QUOTE
                           ++ js " for usage.")],
         Exited 1)
  end.

End Cli.

(** An argument as a user writes it, for the properties of [parseArgs]: the
    flag [--debug], one of the four options with a value, or a word. *)
Inductive CliOption : Type := OptSchema | OptInput | OptBase | OptModel.

Inductive Token : Type :=
| TDebug
| TOption (name : CliOption) (value : jsstring)
| TWord (word : jsstring).

Definition optionName (name : CliOption) : jsstring :=
  match name with
  | OptSchema => js "--schema"
  | OptInput => js "--input"
  | OptBase => js "--base"
  | OptModel => js "--model"
  end.

(** The arguments that a token stands for. *)
Definition renderToken (t : Token) : list jsstring :=
  match t with
  | TDebug => [js "--debug"]
  | TOption name value => [optionName name; value]
  | TWord word => [word]
  end.

(** A token is well formed when its value is not empty, respectively when
    its word does not begin with two dashes and is neither [-h] nor [-v]. *)
Definition tokenOk (t : Token) : bool :=
  match t with
  | TDebug => true
  | TOption _ value => JS.truthy value
  | TWord word =>
      negb (startsWith word (js "--"))
      && negb (str_eqb word (js "-h")) && negb (str_eqb word (js "-v"))
  end.

(** What a token means for the parsed arguments. *)
Definition applyToken (parsed : CliArgs) (t : Token) : CliArgs :=
  match t with
  | TDebug =>
      mkCliArgs (cli_command parsed) (cli_schema parsed) (cli_input parsed)
        (cli_base parsed) (cli_model parsed) true
  | TOption OptSchema value =>
      mkCliArgs (cli_command parsed) (Some value) (cli_input parsed)
        (cli_base parsed) (cli_model parsed) (cli_debug parsed)
  | TOption OptInput value =>
      mkCliArgs (cli_command parsed) (cli_schema parsed) (Some value)
        (cli_base parsed) (cli_model parsed) (cli_debug parsed)
  | TOption OptBase value =>
      mkCliArgs (cli_command parsed) (cli_schema parsed) (cli_input parsed)
        (Some value) (cli_model parsed) (cli_debug parsed)
  | TOption OptModel value =>
      mkCliArgs (cli_command parsed) (cli_schema parsed) (cli_input parsed)
        (cli_base parsed) (Some value) (cli_debug parsed)
  | TWord word =>
      mkCliArgs (Some word) (cli_schema parsed) (cli_input parsed)
        (cli_base parsed) (cli_model parsed) (cli_debug parsed)
  end.


(** The arguments with which [main] runs the extraction: the command is
    [extract] and the four options have a value that is not empty. *)
Definition complete (args : CliArgs) : bool :=
  str_eqb (orDefault (cli_command args) []) (js "extract")
  && truthy_opt (cli_schema args) && truthy_opt (cli_input args)
  && truthy_opt (cli_base args) && truthy_opt (cli_model args).

(** The line that [main] writes before the extraction when [--debug] was
    given. *)
Definition startingLine (args : CliArgs) : list Output :=
  if cli_debug args
  then [LogObject (js "[DEBUG] Starting extraction with args:")
          [ (js "schema", cli_schema args);
            (js "input", cli_input args);
            (js "base", cli_base args);
            (js "model", cli_model args) ]]
  else [].


(* ===================================================================== *)
(** * The benchmark: [benchmarks/model-comparison.bench.ts] *)
(* ===================================================================== *)

Module Benchmark.

(** What [object[key]] gives on a plain object: nothing, a member of the
    object itself, or a member that the object inherits from
    [Object.prototype] (known by the text that [String] gives for it). *)
Inductive Value : Type :=
| Undefined
| Plain (v : JSON)
| Inherited (text : jsstring).

(** The counters and the list of the loop of [calculateAccuracy].  The
    counters are natural numbers: a double holds them exactly as long as
    they are below 2^53. *)
Record Tally : Type := mkTally {
  correct : nat;
  total : nat;
  tally_issues : list jsstring
}.

Record Accuracy : Type := mkAccuracy {
  accuracy : Double.double;
  issues : list jsstring
}.

Section CalculateAccuracy.

Context {engine : Engine}.

(** The members of [Object.prototype], each with the text that [String]
    gives for it. *)
Variable Object_prototype : jsstring -> option jsstring.

(** [Number.prototype.toFixed(0)]. *)
Variable Number_toFixed0 : Q -> jsstring.

(** The message of the TypeError thrown on calling a member that is not a
    function. *)
Variable not_a_function_message : jsstring -> jsstring.

(** [object[key]]. *)
Definition getMember (object : list (jsstring * JSON)) (key : jsstring) : Value :=
  match Json.lookup key object with
  | Some v => Plain v
  | None =>
      match Object_prototype key with
      | Some text => Inherited text
      | None => Undefined
      end
  end.

(** [String(v)], as a template literal applies it. *)
Fixpoint String_of (v : JSON) : jsstring :=
  match v with
  | JNull => js "null"
  | JBool true => js "true"
  | JBool false => js "false"
  | JNumber q => Number_toString q
  | JString s => s
  | JArray items =>
      join (js ",")
        (map (fun item => match item with
                          | JNull => []
                          | _ => String_of item
                          end) items)
  | JObject _ => js "[object Object]"
  end.

Definition Value_toString (v : Value) : jsstring :=
  match v with
  | Undefined => js "undefined"
  | Plain v => String_of v
  | Inherited text => text
  end.

(** [extractedValue === expectedValue].  The two objects come from two
    calls of [JSON.parse], so that an array or an object of the one is never
    the same object as one of the other; two numbers are compared as the
    doubles that [JSON.parse] made of them. *)
Definition strictEquals (extractedValue : Value) (expectedValue : JSON) : bool :=
  match extractedValue, expectedValue with
  | Plain JNull, JNull => true
  | Plain (JBool a), JBool b => Bool.eqb a b
  | Plain (JNumber a), JNumber b => Double.eqb (Double.ofQ a) (Double.ofQ b)
  | Plain (JString a), JString b => str_eqb a b
  | _, _ => false
  end.

(** [fieldConf !== undefined ? ` (conf: ${fieldConf.toFixed(0)}%)` : ""]
    with [fieldConf = confidenceByField?.[key]]. *)
Definition confStr (confidenceByField : option (list (jsstring * JSON)))
    (key : jsstring) : Result JSError jsstring :=
  match confidenceByField with
  | None => Ok []
  | Some object =>
      match getMember object key with
      | Undefined => Ok []
      | Plain (JNumber fieldConf) =>
          Ok (js " (conf: " ++ Number_toFixed0 fieldConf ++ js "%)")
      | Plain JNull =>
          Throw (mkJSError (js "TypeError") (null_property_message (js "toFixed")))
      | _ =>
          Throw (mkJSError (js "TypeError")
                   (not_a_function_message (js "fieldConf.toFixed")))
      end
  end.

(** One iteration of the loop over [Object.entries(expected)]. *)
Definition compareField (extracted : list (jsstring * JSON))
    (confidenceByField : option (list (jsstring * JSON)))
    (tally : Tally) (entry : jsstring * JSON) : Result JSError Tally :=
  let '(key, expectedValue) := entry in
  let total := S (total tally) in
  let extractedValue := getMember extracted key in
  confStr <- confStr confidenceByField key ;;
  if strictEquals extractedValue expectedValue then
    Ok (mkTally (S (correct tally)) total (tally_issues tally))
  else
    match expectedValue, extractedValue with
    | JNumber expectedNumber, Plain (JNumber extractedNumber) =>
        (* Allow small numerical differences *)
        if Double.ltb
             (Double.abs (Double.sub (Double.ofQ expectedNumber)
                            (Double.ofQ extractedNumber)))
             (Double.ofQ (1 # 100))
        then Ok (mkTally (S (correct tally)) total (tally_issues tally))
        else
          Ok (mkTally (correct tally) total
                (tally_issues tally
                 ++ [key ++ js ": expected " ++ Number_toString expectedNumber
                     ++ js ", got " ++ Number_toString extractedNumber
                     ++ confStr]))
    | _, _ =>
        Ok (mkTally (correct tally) total
              (tally_issues tally
               ++ [key ++ js ": expected " ++ QUOTE ++ String_of expectedValue
                   ++ QUOTE ++ js ", got " ++ QUOTE
                   ++ Value_toString extractedValue ++ QUOTE ++ confStr]))
    end.

Fixpoint compareFields (extracted : list (jsstring * JSON))
    (confidenceByField : option (list (jsstring * JSON)))
    (entries : list (jsstring * JSON)) (tally : Tally) : Result JSError Tally :=
  match entries with
  | [] => Ok tally
  | entry :: entries' =>
      tally' <- compareField extracted confidenceByField tally entry ;;
      compareFields extracted confidenceByField entries' tally'
  end.

(** Calculate accuracy by comparing extracted data to expected data. *)
Definition calculateAccuracy (extracted expected : list (jsstring * JSON))
    (confidenceByField : option (list (jsstring * JSON)))
  : Result JSError Accuracy :=
  tally <- compareFields extracted confidenceByField expected (mkTally 0 0 []) ;;
  Ok (mkAccuracy
        (if (0 <? total tally)%nat
         then Double.mul
                (Double.div (Double.ofZ (Z.of_nat (correct tally)))
                   (Double.ofZ (Z.of_nat (total tally))))
                (Double.ofZ 100)
         else Double.ofZ 0)
        (tally_issues tally)).

End CalculateAccuracy.

(** [array.includes(model)] on an array of strings. *)
Definition includes (array : list jsstring) (model : jsstring) : bool :=
  existsb (fun element => str_eqb element model) array.

(** [array.filter((_, idx) => keep(idx))], the index of the first element
    being [idx]. *)
Fixpoint filterIndex {A} (keep : nat -> bool) (idx : nat) (array : list A)
  : list A :=
  match array with
  | [] => []
  | x :: array' =>
      if keep idx then x :: filterIndex keep (S idx) array'
      else filterIndex keep (S idx) array'
  end.

(** [array.map((model, idx) => f(idx, model))]. *)
Fixpoint mapIndex {A B} (f : nat -> A -> B) (idx : nat) (array : list A)
  : list B :=
  match array with
  | [] => []
  | x :: array' => f idx x :: mapIndex f (S idx) array'
  end.

Section EnsureModelsAvailable.

(** What [getAvailableModels()] returns: the first column of the lines of
    [ollama list]. *)
Variable availableModels : list jsstring.

(** The answer of the user to the question of [promptUser]. *)
Variable shouldPull : bool.

(** The result of the call of [pullModel] for the element [idx] of the
    missing models. *)
Variable pullModel : nat -> jsstring -> bool.

(** Is the model among the available ones, under its name or under its name
    followed by a tag. *)
Definition isAvailable (model : jsstring) : bool :=
  existsb (fun available =>
             str_eqb available model || startsWith available (model ++ js ":"))
    availableModels.

(** The required models that are not available. *)
Definition missingModels (requiredModels : list jsstring) : list jsstring :=
  filter (fun model => negb (isAvailable model)) requiredModels.

(** Check and pull missing models: the models that the function returns.
    The lines that it writes to the console have no part in the result and
    are left out. *)
Definition ensureModelsAvailable (requiredModels : list jsstring)
  : list jsstring :=
  let missingModels := missingModels requiredModels in
  if (List.length missingModels =? 0)%nat then requiredModels
  else if negb shouldPull then
    filter (fun model => negb (includes missingModels model)) requiredModels
  else
    let pullResults := mapIndex pullModel 0 missingModels in
    let failedToPull :=
      filterIndex (fun idx => negb (nth idx pullResults false)) 0 missingModels in
    (* Return only models that are now available *)
    filter (fun model => negb (includes failedToPull model)) requiredModels.

End EnsureModelsAvailable.

End Benchmark.

(** A value that is neither an array nor an object. *)
Definition primitive (v : JSON) : bool :=
  match v with
  | JArray _ | JObject _ => false
  | _ => true
  end.

(** Can [calculateAccuracy] read the confidence of a field: there is none,
    or it is a number. *)
Definition confidenceReadable (Object_prototype : jsstring -> option jsstring)
    (confidenceByField : option (list (jsstring * JSON))) (key : jsstring) : bool :=
  match confidenceByField with
  | None => true
  | Some object =>
      match Benchmark.getMember Object_prototype object key with
      | Benchmark.Undefined | Benchmark.Plain (JNumber _) => true
      | _ => false
      end
  end.


(** A schema file with the one field [name], and two extractions of a
    person, for the closed instances of the properties. *)
Definition NAME_SCHEMA_TEXT : jsstring :=
  js "{" ++ QUOTE ++ js "fields" ++ QUOTE ++ js ":{" ++ QUOTE ++ js "name"
  ++ QUOTE ++ js ":{" ++ QUOTE ++ js "type" ++ QUOTE ++ js ":" ++ QUOTE
  ++ js "string" ++ QUOTE ++ js "}}}".

Definition oneFile (content : jsstring) : FileSystem :=
  mkFileSystem (fun _ => Ok tt) (fun _ => Ok content).

Definition expectedPerson : list (jsstring * JSON) :=
  [(js "age", JNumber 30); (js "name", JString (js "Alice"))].

Definition extractedPerson : list (jsstring * JSON) :=
  [(js "name", JString (js "Alice")); (js "age", JNumber 30);
   (js "city", JNull)].

(** The confidences of a reply for the person. *)
Definition confidencesOfPerson : list (jsstring * JSON) :=
  [(js "name", JNumber 95); (js "age", JNumber 90)].

(** Three expected fields, and an extraction with another name, an age off
    by one and a score off by a hundredth. *)
Definition expectedScores : list (jsstring * JSON) :=
  [(js "name", JString (js "Alice")); (js "age", JNumber 30);
   (js "score", JNumber (5 # 100))].

Definition extractedScores : list (jsstring * JSON) :=
  [(js "name", JString (js "Bob")); (js "age", JNumber 31);
   (js "score", JNumber (6 # 100))].

Definition noPrototype : jsstring -> option jsstring := fun _ => None.

(** [Number.prototype.toFixed(0)] on a number below 10^21: the nearest
    integer, the one further from zero when two are as near. *)
Definition toFixed0 (q : Q) : jsstring :=
  let nearest (x : Q) : Z := ((2 * Qnum x + Z.pos (Qden x)) / (2 * Z.pos (Qden x)))%Z in
  if Qle_bool 0 q then Z_toString (nearest q)
  else js "-" ++ Z_toString (nearest (- q)).

Definition notAFunction (name : jsstring) : jsstring :=
  name ++ js " is not a function".

(* ===================================================================== *)
(** * The parser on a body of any shape *)
(* ===================================================================== *)

(** [response.json()] settles to whatever JSON value the server sent, and
    the cast [data as LLMResponse] of [chat] checks nothing.  Here
    [parseExtractionResponse] runs on such a value: every property read is
    the read of JavaScript, on [undefined] (here [None]), on [null], on a
    primitive, an array or an object. *)
Module Untyped.

Section ParseExtractionResponse.

Context {engine : Engine}.

(** The message of the TypeError thrown on reading a property of
    [undefined], and of the one thrown on calling what is no function. *)
Variable undefined_property_message : jsstring -> jsstring.
Variable not_a_function_message : jsstring -> jsstring.

Definition TypeError (message : jsstring) : Thrown :=
  ThrownError (mkJSError (js "TypeError") message).

Definition isZero (x : Double.double) : bool :=
  match x with SpecFloat.S754_zero _ => true | _ => false end.

(** [!v]: true of [undefined], [null], [false], a number that is a zero
    and the empty string. *)
Definition falsy (v : option JSON) : bool :=
  match v with
  | None | Some JNull => true
  | Some (JBool b) => negb b
  | Some (JNumber q) => isZero (Double.ofQ q)
  | Some (JString s) => negb (JS.truthy s)
  | Some (JArray _) | Some (JObject _) => false
  end.

(** [v.key] for one of the keys [choices], [message] and [content], which
    no prototype has: a TypeError on [undefined] and [null], the member of
    an object, [undefined] on anything else. *)
Definition get (v : option JSON) (key : jsstring) : Result Thrown (option JSON) :=
  match v with
  | None => Throw (TypeError (undefined_property_message key))
  | Some JNull => Throw (TypeError (null_property_message key))
  | Some (JObject members) => Ok (Json.lookup key members)
  | Some _ => Ok None
  end.

(** [v.length === 0] for a truthy [v]: the length of an array or a string,
    the member [length] of an object. *)
Definition lengthIsZero (v : option JSON) : bool :=
  match v with
  | Some (JArray items) => (List.length items =? 0)%nat
  | Some (JString s) => (List.length s =? 0)%nat
  | Some (JObject members) =>
      match Json.lookup (js "length") members with
      | Some (JNumber q) => isZero (Double.ofQ q)
      | _ => false
      end
  | _ => false
  end.

(** [v[0]] for a truthy [v]: the first item of an array, the first code
    unit of a string, the member [0] of an object. *)
Definition first (v : option JSON) : option JSON :=
  match v with
  | Some (JArray (item :: _)) => Some item
  | Some (JString (c :: _)) => Some (JString [c])
  | Some (JObject members) => Json.lookup (js "0") members
  | _ => None
  end.

(** [message.content.trim()] for a truthy content: only a string has the
    method. *)
Definition content_trim (content : option JSON) : Result Thrown jsstring :=
  match content with
  | Some (JString s) => Ok (trim s)
  | _ => Throw (TypeError (not_a_function_message (js "message.content.trim")))
  end.

(** Parses extraction response from LLM. *)
Definition parseExtractionResponse (response : JSON)
  : Result Thrown ExtractionResponse :=
  choices <- get (Some response) (js "choices") ;;
  if falsy choices || lengthIsZero choices then
    Throw (ThrownLLMError
             (mkLLMError (js "No choices in LLM response") INVALID_RESPONSE
                None None))
  else
    message <- get (first choices) (js "message") ;;
    if falsy message then
      Throw (ThrownLLMError
               (mkLLMError (js "No content in LLM response") INVALID_RESPONSE
                  None None))
    else
      message_content <- get message (js "content") ;;
      if falsy message_content then
        Throw (ThrownLLMError
                 (mkLLMError (js "No content in LLM response") INVALID_RESPONSE
                    None None))
      else
        content <- content_trim message_content ;;
        let content := stripCodeBlock content in
        try_catch (decodeExtraction content)
          (fun error =>
             Throw (ThrownLLMError
                      (mkLLMError
                         (js "Failed to parse LLM response: " ++ err_message error)
                         INVALID_RESPONSE None
                         (Some (mkDetails None None
                                  (Some content) (Some (err_message error))))))).

End ParseExtractionResponse.

End Untyped.

(** The JSON value of a completion of the typed model. *)
Definition Role_toJSON (r : Role) : JSON :=
  JString match r with
          | system => js "system"
          | user => js "user"
          | assistant => js "assistant"
          end.

Definition ChatMessage_toJSON (m : ChatMessage) : JSON :=
  JObject ((js "role", Role_toJSON (role m))
           :: match msg_content m with
              | Some text => [(js "content", JString text)]
              | None => []
              end).

Definition Choice_toJSON (c : Choice) : JSON :=
  JObject match choice_message c with
          | Some m => [(js "message", ChatMessage_toJSON m)]
          | None => []
          end.

Definition LLMResponse_toJSON (r : LLMResponse) : JSON :=
  JObject match choices r with
          | Some l => [(js "choices", JArray (map Choice_toJSON l))]
          | None => []
          end.

(** A body of the declared type [LLMResponse], as far as the parser reads
    it: an object whose [choices] is an array of objects, each with an
    object as [message] whose [content] is a string. *)
Definition declaredMessage (v : JSON) : bool :=
  match v with
  | JObject members =>
      match Json.lookup (js "content") members with
      | Some (JString _) => true
      | _ => false
      end
  | _ => false
  end.

Definition declaredChoice (v : JSON) : bool :=
  match v with
  | JObject members =>
      match Json.lookup (js "message") members with
      | Some m => declaredMessage m
      | None => false
      end
  | _ => false
  end.

Definition declaredResponse (v : JSON) : bool :=
  match v with
  | JObject members =>
      match Json.lookup (js "choices") members with
      | Some (JArray items) => forallb declaredChoice items
      | _ => false
      end
  | _ => false
  end.


(* ===================================================================== *)
(** * Properties of the string operations *)
(* ===================================================================== *)

Lemma str_eqb_refl (a : jsstring) : str_eqb a a = true.
Proof.
  induction a as [|c a IH]; simpl; [reflexivity|].
  now rewrite N.eqb_refl, IH.
Qed.

Lemma str_eqb_eq (a b : jsstring) : str_eqb a b = true <-> a = b.
Proof.
  split.
  - revert b. induction a as [|c a IH]; intros [|d b]; simpl; try discriminate.
    + reflexivity.
    + intros H. apply andb_true_iff in H as [Hc Hr].
      apply N.eqb_eq in Hc. apply IH in Hr. now subst.
  - intros ->. apply str_eqb_refl.
Qed.

Lemma str_eqb_length (a b : jsstring) :
  str_eqb a b = true -> List.length a = List.length b.
Proof. intros H. apply str_eqb_eq in H. now subst. Qed.

Lemma dropWhile_app_all (p : char -> bool) (s t : jsstring) :
  forallb p s = true -> dropWhile p (s ++ t) = dropWhile p t.
Proof.
  induction s as [|c s IH]; simpl; [reflexivity|].
  intros H. apply andb_true_iff in H as [Hc Hs]. rewrite Hc. now apply IH.
Qed.

Lemma dropWhile_app_stop (p : char -> bool) (s t : jsstring) :
  forallb p s = false -> dropWhile p (s ++ t) = dropWhile p s ++ t.
Proof.
  induction s as [|c s IH]; simpl; [discriminate|].
  destruct (p c) eqn:Hc; simpl; [exact IH | reflexivity].
Qed.

Lemma dropWhile_all (p : char -> bool) (s : jsstring) :
  forallb p s = true -> dropWhile p s = [].
Proof.
  induction s as [|c s IH]; simpl; [reflexivity|].
  intros H. apply andb_true_iff in H as [Hc Hs]. rewrite Hc. now apply IH.
Qed.

Lemma dropWhile_stop_nonempty (p : char -> bool) (s : jsstring) :
  forallb p s = false -> dropWhile p s <> [].
Proof.
  induction s as [|c s IH]; simpl; [discriminate|].
  destruct (p c) eqn:Hc; simpl; [exact IH | discriminate].
Qed.

Lemma stripPrefix_app (p r : jsstring) : stripPrefix p (p ++ r) = Some r.
Proof.
  induction p as [|c p IH]; simpl; [now destruct r|].
  now rewrite N.eqb_refl.
Qed.

Lemma startsWith_app (p r : jsstring) : startsWith (p ++ r) p = true.
Proof.
  induction p as [|c p IH]; simpl; [now destruct r|].
  now rewrite N.eqb_refl.
Qed.

(** A string that does not start with [p] does not start with an extension
    of [p] either. *)
Lemma startsWith_extend (s p q : jsstring) :
  startsWith s p = false -> startsWith s (p ++ q) = false.
Proof.
  revert s. induction p as [|c p IH]; intros [|d s]; simpl; try discriminate.
  - reflexivity.
  - destruct (d =? c)%N; simpl; [apply IH | reflexivity].
Qed.

(** The closing fence, with the line feed before it, is cut off together
    with the white space that ends the text. *)
Lemma replace_fence_tail_closing (x : jsstring) :
  replace_fence_tail (x ++ NL ++ FENCE) = trimEnd x.
Proof.
  induction x as [|c x IH]; [reflexivity|].
  destruct (forallb is_ws (c :: x)) eqn:Hall.
  - change (replace_fence_tail ((c :: x) ++ NL ++ FENCE)) with
      (if fence_tail_here ((c :: x) ++ NL ++ FENCE) then []
       else c :: replace_fence_tail (x ++ NL ++ FENCE)).
    unfold fence_tail_here. rewrite (dropWhile_app_all _ _ _ Hall).
    change (trimEnd (c :: x)) with
      (if forallb is_ws (c :: x) then [] else c :: trimEnd x).
    rewrite Hall. reflexivity.
  - change (replace_fence_tail ((c :: x) ++ NL ++ FENCE)) with
      (if fence_tail_here ((c :: x) ++ NL ++ FENCE) then []
       else c :: replace_fence_tail (x ++ NL ++ FENCE)).
    change (trimEnd (c :: x)) with
      (if forallb is_ws (c :: x) then [] else c :: trimEnd x).
    rewrite Hall, IH.
    destruct (fence_tail_here ((c :: x) ++ NL ++ FENCE)) eqn:Hhere; [|reflexivity].
    exfalso. unfold fence_tail_here in Hhere.
    rewrite (dropWhile_app_stop _ _ _ Hall) in Hhere.
    apply str_eqb_length in Hhere.
    pose proof (dropWhile_stop_nonempty _ _ Hall) as Hne.
    rewrite !length_app in Hhere. simpl in Hhere.
    destruct (dropWhile is_ws (c :: x)); [contradiction | simpl in Hhere; lia].
Qed.

Lemma forallb_ws_app (a b : jsstring) :
  forallb is_ws (a ++ b) = forallb is_ws a && forallb is_ws b.
Proof. apply forallb_app. Qed.

(** A text that ends with a unit that is not white space is its own
    [trimEnd]. *)
Lemma trimEnd_solid (x : jsstring) (c : char) :
  is_ws c = false -> trimEnd (x ++ [c]) = x ++ [c].
Proof.
  intros Hc. induction x as [|d x IH].
  - simpl. now rewrite Hc.
  - change (trimEnd ((d :: x) ++ [c])) with
      (if forallb is_ws (d :: (x ++ [c])) then [] else d :: trimEnd (x ++ [c])).
    assert (forallb is_ws (d :: (x ++ [c])) = false) as ->.
    { simpl. rewrite forallb_ws_app. simpl. rewrite Hc.
      now rewrite andb_false_r, andb_false_r. }
    now rewrite IH.
Qed.

(** A fenced text is not changed by [trim]. *)
Lemma trim_fenced (opening s : jsstring) :
  trim (FENCE ++ opening ++ s ++ NL ++ FENCE) = FENCE ++ opening ++ s ++ NL ++ FENCE.
Proof.
  assert (FENCE ++ opening ++ s ++ NL ++ FENCE
          = (FENCE ++ opening ++ s ++ NL ++ [BACKTICK; BACKTICK]) ++ [BACKTICK])
    as Hsplit by (rewrite <- !app_assoc; reflexivity).
  unfold trim, trimStart.
  change (dropWhile is_ws (FENCE ++ opening ++ s ++ NL ++ FENCE))
    with (FENCE ++ opening ++ s ++ NL ++ FENCE).
  rewrite Hsplit at 1. rewrite trimEnd_solid by reflexivity.
  symmetry. exact Hsplit.
Qed.

Lemma trim_fenced_json (s : jsstring) :
  trim (FENCE ++ js "json" ++ NL ++ s ++ NL ++ FENCE)
  = FENCE ++ js "json" ++ NL ++ s ++ NL ++ FENCE.
Proof. exact (trim_fenced (js "json" ++ NL) s). Qed.

Lemma trim_fenced_bare (s : jsstring) :
  trim (FENCE ++ NL ++ s ++ NL ++ FENCE) = FENCE ++ NL ++ s ++ NL ++ FENCE.
Proof. exact (trim_fenced NL s). Qed.

(** What is left of [s], followed by the closing fence, once the opening
    fence and the white space after it are gone, is [trim s] after the
    closing fence is cut. *)
Lemma closing_after_opening (s : jsstring) :
  replace_fence_tail (dropWhile is_ws (s ++ NL ++ FENCE)) = trim s.
Proof.
  destruct (forallb is_ws s) eqn:Hall.
  - rewrite (dropWhile_app_all _ _ _ Hall).
    unfold trim, trimStart. rewrite (dropWhile_all _ _ Hall). reflexivity.
  - rewrite (dropWhile_app_stop _ _ _ Hall).
    rewrite replace_fence_tail_closing. reflexivity.
Qed.

(* ===================================================================== *)
(** * The response parser *)
(* ===================================================================== *)

Lemma stripCodeBlock_json (s : jsstring) :
  stripCodeBlock (FENCE ++ js "json" ++ NL ++ s ++ NL ++ FENCE) = trim s.
Proof.
  unfold stripCodeBlock.
  change (FENCE ++ js "json" ++ NL ++ s ++ NL ++ FENCE)
    with ((FENCE ++ js "json") ++ NL ++ s ++ NL ++ FENCE).
  rewrite startsWith_app. unfold replace_start. rewrite stripPrefix_app.
  change (dropWhile is_ws (NL ++ s ++ NL ++ FENCE))
    with (dropWhile is_ws (s ++ NL ++ FENCE)).
  apply closing_after_opening.
Qed.

Lemma stripCodeBlock_bare (s : jsstring) :
  stripCodeBlock (FENCE ++ NL ++ s ++ NL ++ FENCE) = trim s.
Proof.
  unfold stripCodeBlock.
  assert (startsWith (FENCE ++ NL ++ s ++ NL ++ FENCE) (FENCE ++ js "json") = false)
    as -> by reflexivity.
  rewrite startsWith_app. unfold replace_start. rewrite stripPrefix_app.
  change (dropWhile is_ws (NL ++ s ++ NL ++ FENCE))
    with (dropWhile is_ws (s ++ NL ++ FENCE)).
  apply closing_after_opening.
Qed.

Lemma stripCodeBlock_unfenced (content : jsstring) :
  startsWith content FENCE = false -> stripCodeBlock content = content.
Proof.
  intros H. unfold stripCodeBlock.
  rewrite (startsWith_extend _ _ (js "json") H), H. reflexivity.
Qed.

Section Parser.

Context {engine : Engine}.

(** On a message with text, the parser decodes the trimmed text without its
    code block and wraps whatever the decoding throws. *)
Lemma parse_reply (text : jsstring) :
  text <> [] ->
  parseExtractionResponse (assistantReply text)
  = try_catch (decodeExtraction (stripCodeBlock (trim text)))
      (fun error =>
         Throw (parseFailure (stripCodeBlock (trim text)) (err_message error))).
Proof.
  intros Hne. destruct text as [|c text]; [contradiction|]. reflexivity.
Qed.

(** The decoding stage, case by case on the decoded value. *)
Lemma decodeExtraction_cases (content : jsstring) :
  decodeExtraction content =
  match Json.parse content with
  | None => Throw (mkJSError (js "SyntaxError") (JSON_syntax_message content))
  | Some JNull =>
      Throw (mkJSError (js "TypeError") (null_property_message (js "data")))
  | Some parsed =>
      match dataObject parsed (js "data"),
            numericMember parsed (js "confidence"),
            dataObject parsed (js "confidenceByField") with
      | None, _, _ => Throw (Error (js "Response missing data object"))
      | Some _, None, _ => Throw (Error (js "Response missing confidence score"))
      | Some _, Some _, None =>
          Throw (Error (js "Response missing confidenceByField object"))
      | Some d, Some c, Some f => Ok (mkExtraction d c f)
      end
  end.
Proof.
  unfold decodeExtraction, JSON_parse, dataObject, numericMember, member.
  destruct (Json.parse content) as [parsed|]; [|reflexivity].
  destruct parsed as [|b|q|s|items|members]; try reflexivity.
  cbn [bind getProperty].
  destruct (Json.lookup (js "data") members) as [d|]; [|reflexivity].
  destruct (Json.lookup (js "confidence") members) as [c|];
    destruct (Json.lookup (js "confidenceByField") members) as [f|];
    destruct d as [|[]|qd|[|? ?]|?|?]; try reflexivity;
    try (cbn; destruct (Qeq_bool qd 0); reflexivity);
    try (destruct c as [|?|?|?|?|?]; reflexivity);
    destruct c as [|?|?|?|?|?]; try reflexivity;
    destruct f as [|[]|qf|[|? ?]|?|?]; try reflexivity;
    cbn; destruct (Qeq_bool qf 0); reflexivity.
Qed.

End Parser.

Section ParserContract.

Context {engine : Engine}.

(** C4 (as amended).  For every non-empty assistant message text the parser
    trims it and removes a code block that is tagged [json] or untagged;
    it then decodes the text as JSON.  A decode failure raises
    INVALID_RESPONSE whose details carry the text that was handed to the
    decoder; a decoded [null] raises INVALID_RESPONSE with the engine's
    message for the failed property access; a decoded value without a [data]
    object, without a numeric [confidence] or without a [confidenceByField]
    object raises INVALID_RESPONSE with the reason that names the missing
    part, checked in this order; otherwise the parser returns exactly
    [{data, confidence, confidenceByField}] of the decoded value. *)
Theorem parse_contract (text : jsstring) :
  text <> [] ->
  let content := stripCodeBlock (trim text) in
  (forall s, text = FENCE ++ js "json" ++ NL ++ s ++ NL ++ FENCE -> content = trim s)
  /\ (forall s, text = FENCE ++ NL ++ s ++ NL ++ FENCE -> content = trim s)
  /\ (startsWith (trim text) FENCE = false -> content = trim text)
  /\ parseExtractionResponse (assistantReply text) =
     match Json.parse content with
     | None => Throw (parseFailure content (JSON_syntax_message content))
     | Some JNull =>
         Throw (parseFailure content (null_property_message (js "data")))
     | Some parsed =>
         match dataObject parsed (js "data"),
               numericMember parsed (js "confidence"),
               dataObject parsed (js "confidenceByField") with
         | None, _, _ =>
             Throw (parseFailure content (js "Response missing data object"))
         | Some _, None, _ =>
             Throw (parseFailure content (js "Response missing confidence score"))
         | Some _, Some _, None =>
             Throw (parseFailure content
                      (js "Response missing confidenceByField object"))
         | Some d, Some c, Some f =>
             Ok {| data := d; ex_confidence := c; confidenceByField := f |}
         end
     end.
Proof.
  intros Hne content. repeat split.
  - intros s ->. unfold content. rewrite trim_fenced_json. apply stripCodeBlock_json.
  - intros s ->. unfold content. rewrite trim_fenced_bare. apply stripCodeBlock_bare.
  - intros H. unfold content. now apply stripCodeBlock_unfenced.
  - rewrite (parse_reply Hne). fold content. rewrite decodeExtraction_cases.
    destruct (Json.parse content) as [parsed|]; [|reflexivity].
    destruct parsed; try reflexivity;
      destruct (dataObject _ (js "data")); try reflexivity;
      destruct (numericMember _ (js "confidence")); try reflexivity;
      destruct (dataObject _ (js "confidenceByField")); reflexivity.
Qed.

(** C5 (as amended).  For every non-empty body text [s] that does not itself
    begin with a fence after trimming, the message that wraps [s] in a code
    block tagged [json], or in an untagged code block, parses to the same
    ExtractionResponse, or fails with the same error, as the message [s]. *)
Theorem fenced_parses_as_unfenced (s : jsstring) :
  s <> [] ->
  startsWith (trim s) FENCE = false ->
  parseExtractionResponse (assistantReply (FENCE ++ js "json" ++ NL ++ s ++ NL ++ FENCE))
  = parseExtractionResponse (assistantReply s)
  /\ parseExtractionResponse (assistantReply (FENCE ++ NL ++ s ++ NL ++ FENCE))
     = parseExtractionResponse (assistantReply s).
Proof.
  intros Hne Hplain.
  rewrite (parse_reply Hne), (stripCodeBlock_unfenced _ Hplain).
  split.
  - rewrite parse_reply by discriminate.
    rewrite trim_fenced_json, stripCodeBlock_json. reflexivity.
  - rewrite parse_reply by discriminate.
    rewrite trim_fenced_bare, stripCodeBlock_bare. reflexivity.
Qed.

(** C10.  A response whose first choice carries a message with the empty
    string as content is rejected by the guards with INVALID_RESPONSE, "No
    content in LLM response", exactly as a choice without a message or a
    message without content; the guards throw before the text is trimmed or
    decoded, so the error is never the one of a failed decoding. *)
Theorem empty_content_is_no_content (r : Role) (rest : list Choice) :
  let noContent :=
    mkLLMError (js "No content in LLM response") INVALID_RESPONSE None None in
  let reply content := mkResponse (Some (mkChoice content :: rest)) in
  responseContent (reply (Some (mkMessage r (Some [])))) = Throw noContent
  /\ parseExtractionResponse (reply (Some (mkMessage r (Some [])))) = Throw noContent
  /\ parseExtractionResponse (reply (Some (mkMessage r None))) = Throw noContent
  /\ parseExtractionResponse (reply None) = Throw noContent
  /\ (forall response text, responseContent response = Ok text ->
        exists c text', text = c :: text')
  /\ (forall content reason,
        parseExtractionResponse (reply (Some (mkMessage r (Some []))))
        <> Throw (parseFailure content reason)).
Proof.
  intros noContent reply. repeat split.
  - intros response text. unfold responseContent.
    destruct (choices response) as [[|choice others]|]; try discriminate.
    destruct (firstContent choice) as [[|c text']|]; try discriminate.
    intros H. injection H as <-. now exists c, text'.
  - intros content reason. discriminate.
Qed.

End ParserContract.

(** C4, witness: the reply of the test-suite parses to its three parts. *)
Lemma parse_contract_witness :
  ALICE <> []
  /\ parseExtractionResponse (engine := referenceEngine) (assistantReply ALICE)
     = Ok ALICE_value.
Proof.
  assert (ALICE <> []) as Hne by discriminate.
  split; [exact Hne|].
  destruct (@parse_contract referenceEngine ALICE Hne) as (_ & _ & _ & H).
  rewrite H. vm_compute. reflexivity.
Defined.

(** C4, counterexample to the claim as stated: a reply fenced with the
    language tag [js].  With the fence and its tag stripped the text is the
    JSON of the test-suite, which has all three parts; the parser, however,
    leaves the tag in the text and raises INVALID_RESPONSE. *)
Lemma parse_contract_counterexample :
  let text := FENCE ++ js "js" ++ NL ++ ALICE ++ NL ++ FENCE in
  claimed_stripFence (trim text) = ALICE
  /\ parseExtractionResponse (engine := referenceEngine) (assistantReply ALICE)
     = Ok ALICE_value
  /\ parseExtractionResponse (engine := referenceEngine) (assistantReply text)
     = Throw (parseFailure (js "js" ++ NL ++ ALICE)
                (js "Unexpected token in JSON")).
Proof. vm_compute. repeat split. Qed.

(** C5, witness: the fenced reply of the test-suite. *)
Lemma fenced_parses_as_unfenced_witness :
  ALICE <> []
  /\ startsWith (trim ALICE) FENCE = false
  /\ parseExtractionResponse (engine := referenceEngine)
       (assistantReply (FENCE ++ js "json" ++ NL ++ ALICE ++ NL ++ FENCE))
     = Ok ALICE_value.
Proof.
  assert (ALICE <> []) as Hne by discriminate.
  assert (startsWith (trim ALICE) FENCE = false) as Hplain by reflexivity.
  split; [exact Hne|]. split; [exact Hplain|].
  destruct (@fenced_parses_as_unfenced referenceEngine ALICE Hne Hplain) as [H _].
  rewrite H. vm_compute. reflexivity.
Defined.

(** C5, counterexample to the claim as stated: with the language tag
    [javascript] the fenced text fails to parse while the unfenced text
    parses; and the empty body fails in two different ways. *)
Lemma fenced_tag_counterexample :
  parseExtractionResponse (engine := referenceEngine)
    (assistantReply (FENCE ++ js "javascript" ++ NL ++ ALICE ++ NL ++ FENCE))
  = Throw (parseFailure (js "javascript" ++ NL ++ ALICE)
             (js "Unexpected token in JSON"))
  /\ parseExtractionResponse (engine := referenceEngine) (assistantReply ALICE)
     = Ok ALICE_value
  /\ parseExtractionResponse (engine := referenceEngine)
       (assistantReply (FENCE ++ js "json" ++ NL ++ [] ++ NL ++ FENCE))
     = Throw (parseFailure [] (js "Unexpected token in JSON"))
  /\ parseExtractionResponse (engine := referenceEngine) (assistantReply [])
     = Throw (mkLLMError (js "No content in LLM response") INVALID_RESPONSE None None).
Proof. vm_compute. repeat split. Qed.

(* ===================================================================== *)
(** * Classification of failures *)
(* ===================================================================== *)

Section Classification.

Context {engine : Engine}.
Variable this : LLMClient.

(** A rejected fetch is a TIMEOUT when the rejection is the abort of the
    controller and a NETWORK_ERROR otherwise. *)
Lemma chat_rejected (request : LLMRequest) (reason : JSError) :
  exists e,
    chat this (fun _ => Rejected reason) request = Throw e
    /\ code e = if str_eqb (err_name reason) (js "AbortError")
                then TIMEOUT else NETWORK_ERROR.
Proof.
  unfold chat. cbn [await_fetch bind try_catch].
  destruct (str_eqb (err_name reason) (js "AbortError"));
    eexists; split; reflexivity.
Qed.

(** A response that is not [ok] is turned into the error that
    [handleErrorResponse] builds from its status. *)
Lemma chat_not_ok (request : LLMRequest) (r : Response) :
  ok r = false ->
  exists e,
    chat this (fun _ => Resolved r) request = Throw e
    /\ statusCode e = Some (status r)
    /\ code e = if ((status r =? 401) || (status r =? 403))%Z
                then AUTHENTICATION_ERROR
                else if (status r =? 429)%Z then RATE_LIMIT else API_ERROR.
Proof.
  intros Hok. unfold chat. cbn [await_fetch bind]. rewrite Hok.
  cbn [negb]. unfold handleErrorResponse.
  destruct ((status r =? 401) || (status r =? 403))%Z;
    [|destruct (status r =? 429)%Z];
    cbn [never bind try_catch]; eexists; repeat split; reflexivity.
Qed.


(** An [ok] response whose body cannot be decoded ends in the catch-all
    of [chat]: the rejection of [response.json()] is no LLMError and no
    abort, so it is reported as NETWORK_ERROR. *)
Lemma chat_undecodable_body (request : LLMRequest) (r : Response) (err : JSError) :
  ok r = true -> json r = Throw err ->
  str_eqb (err_name err) (js "AbortError") = false ->
  exists e,
    chat this (fun _ => Resolved r) request = Throw e /\ code e = NETWORK_ERROR.
Proof.
  intros Hok Hjson Hname. unfold chat. cbn [await_fetch bind]. rewrite Hok.
  cbn [negb bind]. rewrite Hjson. cbn [lift bind try_catch]. rewrite Hname.
  eexists. split; reflexivity.
Qed.

(** The codes that are retried. *)
Lemma isRetryableError_codes (e : LLMError) :
  isRetryableError e = true
  <-> In (code e) [NETWORK_ERROR; TIMEOUT; RATE_LIMIT; API_ERROR].
Proof.
  unfold isRetryableError. destruct (code e); simpl; split; intros H;
    try reflexivity; try discriminate; intuition discriminate.
Qed.

(** C1.  The code of the error raised by a chat-completion attempt: a fetch
    that fails to connect gives NETWORK_ERROR; the abort by the timeout
    timer gives TIMEOUT; status 401 or 403 gives AUTHENTICATION_ERROR;
    status 429 gives RATE_LIMIT; any other status outside 200..299 gives
    API_ERROR; message content that is not JSON, a missing or empty
    [choices] array and a missing message content give INVALID_RESPONSE.
    The retried codes are exactly NETWORK_ERROR, TIMEOUT, RATE_LIMIT and
    API_ERROR. *)
Theorem error_classification (request : LLMRequest) :
  (forall reason,
      str_eqb (err_name reason) (js "AbortError") = false ->
      exists e, chat this (fun _ => Rejected reason) request = Throw e
                /\ code e = NETWORK_ERROR)
  /\ (exists e, chat this (fun _ => Rejected AbortError) request = Throw e
                /\ code e = TIMEOUT)
  /\ (forall r,
        Response_wf r -> ~ (200 <= status r <= 299)%Z ->
        exists e,
          chat this (fun _ => Resolved r) request = Throw e
          /\ (status r = 401%Z \/ status r = 403%Z -> code e = AUTHENTICATION_ERROR)
          /\ (status r = 429%Z -> code e = RATE_LIMIT)
          /\ (status r <> 401%Z -> status r <> 403%Z -> status r <> 429%Z ->
              code e = API_ERROR))
  /\ (forall text,
        text <> [] -> Json.parse (stripCodeBlock (trim text)) = None ->
        exists e, parseExtractionResponse (assistantReply text) = Throw e
                  /\ code e = INVALID_RESPONSE)
  /\ (forall response,
        choices response = None \/ choices response = Some [] ->
        exists e, parseExtractionResponse response = Throw e
                  /\ code e = INVALID_RESPONSE)
  /\ (forall choice rest,
        firstContent choice = None ->
        exists e, parseExtractionResponse (mkResponse (Some (choice :: rest))) = Throw e
                  /\ code e = INVALID_RESPONSE)
  /\ (forall e,
        isRetryableError e = true
        <-> In (code e) [NETWORK_ERROR; TIMEOUT; RATE_LIMIT; API_ERROR])
  /\ (forall e,
        code e = AUTHENTICATION_ERROR \/ code e = INVALID_RESPONSE ->
        isRetryableError e = false).
Proof.
  repeat apply conj.
  - intros reason Hname.
    destruct (chat_rejected request reason) as (e & He & Hcode).
    rewrite Hname in Hcode. now exists e.
  - destruct (chat_rejected request AbortError) as (e & He & Hcode). now exists e.
  - intros r Hwf Hstatus.
    assert (ok r = false) as Hok.
    { rewrite Hwf. apply not_true_is_false. intros H.
      apply andb_true_iff in H as [H1 H2]. apply Hstatus. lia. }
    destruct (chat_not_ok request r Hok) as (e & He & _ & Hcode).
    exists e. split; [exact He|]. repeat split.
    + intros [H|H]; rewrite H in Hcode; exact Hcode.
    + intros H. rewrite H in Hcode. exact Hcode.
    + intros H1 H2 H3. rewrite Hcode.
      apply Z.eqb_neq in H1, H2, H3. now rewrite H1, H2, H3.
  - intros text Hne Hparse. rewrite (parse_reply Hne), decodeExtraction_cases, Hparse.
    eexists. split; reflexivity.
  - intros response [H|H]; unfold parseExtractionResponse, responseContent;
      rewrite H; eexists; split; reflexivity.
  - intros choice rest H. unfold parseExtractionResponse, responseContent.
    cbn [choices]. rewrite H. eexists. split; reflexivity.
  - apply isRetryableError_codes.
  - intros e [H|H]; unfold isRetryableError; rewrite H; reflexivity.
Qed.

End Classification.

(** C1, witness: the statuses of the client test-suite, and a 503. *)
Lemma error_classification_witness :
  (exists e,
      chat (engine := referenceEngine) testClient
        (fun _ => Resolved (statusResponse 503 None)) testRequest = Throw e
      /\ code e = API_ERROR)
  /\ (exists e,
        chat (engine := referenceEngine) testClient
          (fun _ => Resolved (statusResponse 401 None)) testRequest = Throw e
        /\ code e = AUTHENTICATION_ERROR)
  /\ (exists e,
        chat (engine := referenceEngine) testClient
          (fun _ => Resolved (statusResponse 429 None)) testRequest = Throw e
        /\ code e = RATE_LIMIT).
Proof.
  destruct (@error_classification referenceEngine testClient testRequest)
    as (_ & _ & Hstatus & _).
  repeat split.
  - destruct (Hstatus (statusResponse 503 None)) as (e & He & _ & _ & Hcode);
      [reflexivity | simpl; lia |].
    exists e. split; [exact He|]. apply Hcode; discriminate.
  - destruct (Hstatus (statusResponse 401 None)) as (e & He & Hcode & _);
      [reflexivity | simpl; lia |].
    exists e. split; [exact He|]. apply Hcode. now left.
  - destruct (Hstatus (statusResponse 429 None)) as (e & He & _ & Hcode & _);
      [reflexivity | simpl; lia |].
    exists e. split; [exact He|]. now apply Hcode.
Defined.

(* ===================================================================== *)
(** * Doubles *)
(* ===================================================================== *)

Module DoubleFacts.

Import SpecFloat.


Lemma SFcompare_refl (x : Double.double) :
  Double.isNaN x = false -> SFcompare x x = Some Eq.
Proof.
  destruct x as [s|s| |s m e]; cbn; try discriminate; try reflexivity.
  - now destruct s.
  - intros _. rewrite Z.compare_refl, Pos.compare_cont_refl. now destruct s.
Qed.




(** Shifting a mantissa that is not negative gives one that is not
    negative. *)
Lemma shr_1_nonneg (mrs : shr_record) :
  (0 <= shr_m mrs)%Z -> (0 <= shr_m (shr_1 mrs))%Z.
Proof.
  destruct mrs as [[|[p|p|]|[p|p|]] r s]; cbn; intros H; try lia.
Qed.

Lemma iter_pos_nonneg (p : positive) :
  forall mrs, (0 <= shr_m mrs)%Z -> (0 <= shr_m (iter_pos shr_1 p mrs))%Z.
Proof.
  induction p as [p IH|p IH|]; intros mrs H; cbn.
  - apply IH, IH, shr_1_nonneg, H.
  - apply IH, IH, H.
  - apply shr_1_nonneg, H.
Qed.

Lemma shr_fexp_nonneg (m e : Z) (l : location) :
  (0 <= m)%Z ->
  (0 <= shr_m (fst (shr_fexp Double.prec Double.emax m e l)))%Z.
Proof.
  intros H. unfold shr_fexp, shr.
  assert (0 <= shr_m (shr_record_of_loc m l))%Z as H0
    by (destruct l as [|[| |]]; exact H).
  destruct (fexp Double.prec Double.emax (Zdigits2 m + e) - e)%Z; cbn [fst];
    try exact H0.
  now apply iter_pos_nonneg.
Qed.

Lemma round_nearest_even_nonneg (m : Z) (l : location) :
  (0 <= m)%Z -> (0 <= round_nearest_even m l)%Z.
Proof.
  intros H. destruct l as [|[| |]]; cbn; try lia.
  destruct (Z.even m); lia.
Qed.

(** Rounding a mantissa that is not negative never gives NaN. *)
Lemma binary_round_aux_isNaN (s : bool) (m e : Z) (l : location) :
  (0 <= m)%Z ->
  Double.isNaN (binary_round_aux Double.prec Double.emax s m e l) = false.
Proof.
  intros H. unfold binary_round_aux.
  pose proof (@shr_fexp_nonneg m e l H) as H1.
  destruct (shr_fexp Double.prec Double.emax m e l) as [mrs' e'].
  cbn [fst] in H1.
  pose proof (@shr_fexp_nonneg
                (round_nearest_even (shr_m mrs') (loc_of_shr_record mrs')) e'
                loc_Exact (@round_nearest_even_nonneg _ _ H1)) as H2.
  destruct (shr_fexp Double.prec Double.emax
              (round_nearest_even (shr_m mrs') (loc_of_shr_record mrs')) e'
              loc_Exact) as [mrs'' e''].
  cbn [fst] in H2.
  destruct (shr_m mrs'') as [|p|p]; try reflexivity.
  - now destruct (e'' <=? Double.emax - Double.prec)%Z.
  - lia.
Qed.






(** A canonical mantissa and exponent round to themselves. *)
Lemma binary_round_aux_canonical (s : bool) (m : positive) (e : Z) :
  digits2_pos m = 53%positive -> (-1074 <= e <= 971)%Z ->
  binary_round_aux Double.prec Double.emax s (Zpos m) e loc_Exact
  = S754_finite s m e.
Proof.
  intros Hdigits [Hmin Hmax].
  assert (Hshift : shr_fexp Double.prec Double.emax (Zpos m) e loc_Exact
                   = (shr_record_of_loc (Zpos m) loc_Exact, e)).
  { unfold shr_fexp, fexp, emin, Zdigits2, Double.prec, Double.emax.
    rewrite Hdigits.
    replace (Z.max (53 + e - 53) (3 - 1024 - 53) - e)%Z with 0%Z by lia.
    reflexivity. }
  unfold binary_round_aux. rewrite Hshift.
  cbn [shr_record_of_loc shr_m loc_of_shr_record round_nearest_even].
  rewrite Hshift. cbn [shr_record_of_loc shr_m].
  assert ((e <=? Double.emax - Double.prec)%Z = true) as ->
    by (apply Z.leb_le; unfold Double.emax, Double.prec; lia).
  reflexivity.
Qed.

Lemma digits2_pos_size (p : positive) : digits2_pos p = Pos.size p.
Proof. induction p as [p IH|p IH|]; cbn; now rewrite ?IH. Qed.

Lemma size_shift (d p : positive) :
  Pos.size (Pos.iter xO p d) = (Pos.size p + d)%positive.
Proof.
  induction d as [|d IH] using Pos.peano_ind.
  - cbn. lia.
  - rewrite Pos.iter_succ. cbn [Pos.size]. rewrite IH. lia.
Qed.

Lemma size_bound (p : positive) :
  (Zpos p < 2 ^ 53)%Z -> (Zpos (Pos.size p) <= 53)%Z.
Proof.
  intros Hp. pose proof (Pos.size_le p) as Hsize.
  assert ((2 ^ Zpos (Pos.size p)) <= 2 * Zpos p)%Z as Hle.
  { rewrite <- Pos2Z.inj_pow. change (2 * Zpos p)%Z with (Zpos p~0).
    now apply Pos2Z.pos_le_pos. }
  assert (2 ^ Zpos (Pos.size p) < 2 ^ 54)%Z as Hlt.
  { change (2 ^ 54)%Z with (2 * 2 ^ 53)%Z. lia. }
  apply Z.pow_lt_mono_r_iff in Hlt; lia.
Qed.

(** The double of a positive integer below 2^53 is finite and not zero. *)
Lemma ofZ_finite (p : positive) :
  (Zpos p < 2 ^ 53)%Z ->
  exists m e, Double.ofZ (Zpos p) = S754_finite false m e.
Proof.
  intros Hp. apply size_bound in Hp.
  unfold Double.ofZ, binary_normalize, binary_round, shl_align,
    fexp, emin, Double.prec, Double.emax.
  rewrite digits2_pos_size.
  replace (Z.max (Zpos (Pos.size p) + 0 - 53) (3 - 1024 - 53))%Z
    with (Zpos (Pos.size p) - 53)%Z by lia.
  destruct (Zpos (Pos.size p) - 53 - 0)%Z as [|d|d] eqn:Hd; try lia.
  - exists p, 0%Z.
    apply binary_round_aux_canonical; [|lia].
    rewrite digits2_pos_size. lia.
  - exists (Pos.iter xO p d), (Zpos (Pos.size p) - 53)%Z.
    apply binary_round_aux_canonical; [|lia].
    rewrite digits2_pos_size, size_shift. lia.
Qed.

(** A finite double that is not zero, divided by itself, is one. *)
Lemma div_same (s : bool) (m : positive) (e : Z) :
  Double.div (S754_finite s m e) (S754_finite s m e) = Double.ofZ 1.
Proof.
  unfold Double.div, SFdiv, SFdiv_core_binary.
  replace (Zdigits2 (Zpos m) + e - (Zdigits2 (Zpos m) + e))%Z with 0%Z by lia.
  replace (e - e)%Z with 0%Z by lia.
  change (Z.min (fexp Double.prec Double.emax 0) 0) with (-53)%Z.
  change (0 - -53)%Z with 53%Z. cbn [Z.ltb Z.compare Z.gtb Z.leb].
  assert (Z.div_eucl (Z.shiftl (Zpos m) 53) (Zpos m) = (2 ^ 53, 0)%Z) as ->.
  { rewrite Z.shiftl_mul_pow2 by lia. rewrite Z.mul_comm.
    pose proof (Z.div_mul (2 ^ 53) (Zpos m)) as Hq.
    pose proof (Z.mod_mul (2 ^ 53) (Zpos m)) as Hr.
    unfold Z.div, Z.modulo in Hq, Hr.
    destruct (Z.div_eucl (2 ^ 53 * Zpos m) (Zpos m)) as [quo r].
    rewrite Hq, Hr by lia. reflexivity. }
  assert (new_location (Zpos m) 0 = loc_Exact) as ->.
  { unfold new_location, new_location_even, new_location_odd.
    destruct (Z.even (Zpos m)); reflexivity. }
  rewrite xorb_nilpotent. vm_compute. reflexivity.
Qed.

(** Zero divided by a finite double that is not zero is zero. *)
Lemma div_zero (s : bool) (m : positive) (e : Z) :
  Double.div (Double.ofZ 0) (S754_finite s m e) = S754_zero s.
Proof. reflexivity. Qed.

(** The quotient of two positive mantissas is not negative. *)
Lemma SFdiv_core_nonneg (a b : positive) :
  (0 <= fst (fst (SFdiv_core_binary Double.prec Double.emax
                    (Zpos a) 0 (Zpos b) 0)))%Z.
Proof.
  unfold SFdiv_core_binary.
  set (s := (0 - 0 - Z.min _ _)%Z).
  set (m' := match s with
             | 0%Z => Zpos a
             | Zpos _ => Z.shiftl (Zpos a) s
             | Zneg _ => 0%Z
             end).
  assert (0 <= m')%Z as Hm'.
  { unfold m'. destruct s as [|p|p] eqn:Hs; try lia.
    apply Z.shiftl_nonneg. lia. }
  pose proof (Z.div_pos m' (Zpos b) Hm' eq_refl) as Hq.
  unfold Z.div in Hq.
  destruct (Z.div_eucl m' (Zpos b)) as [quo r]. exact Hq.
Qed.

(** What [JSON.parse] makes of a number is a number, equal to itself. *)
Lemma ofQ_isNaN (q : Q) : Double.isNaN (Double.ofQ q) = false.
Proof.
  unfold Double.ofQ.
  destruct (Qnum q) as [|a|a]; [reflexivity| |]; cbv beta zeta;
    pose proof (SFdiv_core_nonneg a (Qden q)) as Hm;
    destruct (SFdiv_core_binary Double.prec Double.emax (Zpos a) 0
                (Zpos (Qden q)) 0) as [[mz ez] lz];
    now apply binary_round_aux_isNaN.
Qed.

Lemma eqb_ofQ_refl (q : Q) : Double.eqb (Double.ofQ q) (Double.ofQ q) = true.
Proof.
  unfold Double.eqb, SFeqb. now rewrite (SFcompare_refl _ (ofQ_isNaN q)).
Qed.

End DoubleFacts.

(* ===================================================================== *)
(** * Backoff *)
(* ===================================================================== *)

(** Whatever [Math.min] returns does not exceed its finite argument. *)
Lemma Math_min_bounded (x : number) (m : Q) : ~ exceeds (Math_min x m) m.
Proof.
  destruct x as [q| | |]; simpl; try tauto.
  - apply Qle_not_lt, Q.le_min_r.
  - apply Qlt_irrefl.
Qed.

Section Backoff.

Context {engine : Engine}.
Variable Math_pow : Double.double -> Z -> Double.double.
Variable retryConfig : Doubles.RetryConfig.

Local Abbreviation calculateDelay :=
  (Doubles.calculateDelay Math_pow retryConfig).
Local Abbreviation maxDelay := (Doubles.maxDelay retryConfig).


End Backoff.




(* ===================================================================== *)
(** * The retry loop *)
(* ===================================================================== *)

Section Retry.

Context {engine : Engine}.
Variable this : LLMClient.
Variable net : Network.
Variable rnd : Z -> Q.
Variable request : LLMRequest.

Abbreviation remaining := (remainingIterations this).

(** With fuel for the remaining iterations the loop ends; it issues at most
    that many requests, begins with a request when an iteration remains, and
    every request in its trace is followed as [AfterAttempt] says. *)
Lemma retryLoop_run (fuel : nat) :
  forall attempt lastError,
    (remaining attempt <= fuel)%nat ->
    exists result trace,
      retryLoop this net rnd request fuel attempt lastError = Some (result, trace)
      /\ (attempts trace <= remaining attempt)%nat
      /\ ((attempt <= maxRetries (retryConfig this))%Z ->
          exists rest, trace = EvChat attempt :: rest)
      /\ (forall n before after,
            trace = before ++ EvChat n :: after ->
            AfterAttempt this net rnd request n after result).
Proof.
  induction fuel as [|fuel IH]; intros attempt lastError Hfuel.
  - (* no fuel: no iteration remains *)
    assert ((attempt <=? maxRetries (retryConfig this))%Z = false) as Hdone.
    { apply Z.leb_gt. unfold remainingIterations in Hfuel. lia. }
    exists (Throw lastError), []. simpl. rewrite Hdone.
    repeat split.
    + lia.
    + intros H. apply Z.leb_gt in Hdone. lia.
    + intros n [|? ?] after H; discriminate.
  - cbn [retryLoop].
    destruct (attempt <=? maxRetries (retryConfig this))%Z eqn:Hle.
    2:{ exists (Throw lastError), []. repeat split.
        - simpl. lia.
        - intros H. apply Z.leb_gt in Hle. lia.
        - intros n [|? ?] after H; discriminate. }
    apply Z.leb_le in Hle.
    assert (forall result,
               (match chat this (net attempt) request with
                | Ok response => result = Ok response
                | Throw e =>
                    isRetryableError e
                    && (attempt <? maxRetries (retryConfig this))%Z = false
                    /\ result = Throw (Some e)
                end) ->
               exists result' trace,
                 Some (result, [EvChat attempt]) = Some (result', trace)
                 /\ (attempts trace <= remaining attempt)%nat
                 /\ ((attempt <= maxRetries (retryConfig this))%Z ->
                     exists rest, trace = EvChat attempt :: rest)
                 /\ (forall n before after,
                       trace = before ++ EvChat n :: after ->
                       AfterAttempt this net rnd request n after result'))
      as Hstop.
    { intros result Hresult. exists result, [EvChat attempt]. repeat split.
      - unfold remainingIterations. simpl. lia.
      - intros _. now exists [].
      - intros n before after Hsplit.
        destruct before as [|b before].
        + injection Hsplit as -> <-. unfold AfterAttempt.
          destruct (chat this (net n) request) as [response|e].
          * now split.
          * destruct Hresult as [-> ->]. now split.
        + destruct before; discriminate. }
    destruct (chat this (net attempt) request) as [response|e] eqn:Hchat.
    { apply Hstop. reflexivity. }
    destruct (isRetryableError e) eqn:Hretry; cbn [negb].
    2:{ apply Hstop. now split. }
    destruct (attempt =? maxRetries (retryConfig this))%Z eqn:Hlast.
    { apply Hstop. split; [|reflexivity].
      apply Z.eqb_eq in Hlast. rewrite Hlast, Z.ltb_irrefl. reflexivity. }
    apply Z.eqb_neq in Hlast.
    destruct (IH (attempt + 1)%Z (Some e)) as (result & trace & Hrun & Hcount & Hhead & Hafter).
    { unfold remainingIterations in *. lia. }
    rewrite Hrun. cbn [option_map emit fst snd app].
    exists result, (EvChat attempt :: EvSleep (calculateDelay this attempt e (rnd attempt)) :: trace).
    repeat split.
    + unfold remainingIterations in *. simpl. lia.
    + intros _. eexists. reflexivity.
    + intros n before after Hsplit.
      destruct before as [|b before].
      * injection Hsplit as -> <-. unfold AfterAttempt. rewrite Hchat, Hretry.
        assert ((n <? maxRetries (retryConfig this))%Z = true) as ->
          by (apply Z.ltb_lt; lia).
        destruct Hhead as [rest ->]; [lia|]. now exists rest.
      * injection Hsplit as _ Hsplit.
        destruct before as [|b' before]; [discriminate|].
        injection Hsplit as _ Hsplit.
        now apply (Hafter n before after).
Qed.

End Retry.

Section RetryStateMachine.

Context {engine : Engine}.
Variable this : LLMClient.





End RetryStateMachine.



(* ===================================================================== *)
(** * The prompt builder *)
(* ===================================================================== *)

(* ===================================================================== *)
(** * Occurrences of a text *)
(* ===================================================================== *)

Lemma lacks_app (c : char) (a b : jsstring) :
  lacks c (a ++ b) = lacks c a && lacks c b.
Proof. apply forallb_app. Qed.

(** A pattern without [c] that begins in [a ++ c :: b] before the [c] lies
    within [a]. *)
Lemma startsWith_barrier (c : char) (pattern : jsstring) :
  lacks c pattern = true ->
  forall a b, startsWith (a ++ c :: b) pattern = startsWith a pattern.
Proof.
  induction pattern as [|p pattern IH]; intros Hlacks a b.
  - now destruct a.
  - cbn in Hlacks. apply andb_true_iff in Hlacks as [Hp Hrest].
    apply negb_true_iff in Hp.
    destruct a as [|x a]; cbn.
    + now rewrite N.eqb_sym, Hp.
    + now rewrite (IH Hrest).
Qed.

Lemma occurrences_nil (p : char) (pattern : jsstring) :
  occurrences (p :: pattern) [] = 0%nat.
Proof. reflexivity. Qed.

(** The occurrences of a pattern without [c] are those before and those
    after a [c]. *)
Lemma occurrences_barrier (c p : char) (pattern : jsstring) :
  lacks c (p :: pattern) = true ->
  forall a b,
    occurrences (p :: pattern) (a ++ c :: b)
    = (occurrences (p :: pattern) a + occurrences (p :: pattern) b)%nat.
Proof.
  intros Hlacks a b. induction a as [|x a IH].
  - change ([] ++ c :: b) with (c :: b).
    cbn [occurrences]. change (c :: b) with ([] ++ c :: b) at 1.
    rewrite (@startsWith_barrier c (p :: pattern) Hlacks). reflexivity.
  - change ((x :: a) ++ c :: b) with (x :: (a ++ c :: b)).
    cbn [occurrences]. rewrite IH.
    change (x :: a ++ c :: b) with ((x :: a) ++ c :: b).
    rewrite (@startsWith_barrier c (p :: pattern) Hlacks). lia.
Qed.

(** A pattern does not begin in a stretch without its first code unit. *)
Lemma occurrences_skip (p : char) (pattern skipped : jsstring) :
  lacks p skipped = true ->
  forall text,
    occurrences (p :: pattern) (skipped ++ text) = occurrences (p :: pattern) text.
Proof.
  induction skipped as [|x skipped IH]; intros Hlacks text; [reflexivity|].
  cbn in Hlacks. apply andb_true_iff in Hlacks as [Hx Hrest].
  apply negb_true_iff in Hx.
  change ((x :: skipped) ++ text) with (x :: (skipped ++ text)).
  cbn [occurrences startsWith]. rewrite Hx. cbn [andb]. now apply IH.
Qed.

Lemma occurrences_absent (p : char) (pattern text : jsstring) :
  lacks p text = true -> occurrences (p :: pattern) text = 0%nat.
Proof.
  intros Hlacks.
  rewrite <- (app_nil_r text), (@occurrences_skip p pattern text Hlacks).
  reflexivity.
Qed.

(** Two texts that end with the delimiter [d] and have none before. *)
Lemma startsWith_delimited (d : char) (key : jsstring) :
  forall name post suffix,
    lacks d key = true -> lacks d name = true ->
    startsWith (key ++ d :: post) (name ++ d :: suffix)
    = str_eqb key name && startsWith post suffix.
Proof.
  induction key as [|k key IH]; intros [|n name] post suffix Hkey Hname.
  - cbn. now rewrite N.eqb_refl.
  - cbn in Hname. apply andb_true_iff in Hname as [Hn _].
    apply negb_true_iff in Hn. cbn. now rewrite N.eqb_sym, Hn.
  - cbn in Hkey. apply andb_true_iff in Hkey as [Hk _].
    apply negb_true_iff in Hk. cbn. now rewrite Hk.
  - cbn in Hkey, Hname.
    apply andb_true_iff in Hkey as [_ Hkey].
    apply andb_true_iff in Hname as [_ Hname].
    cbn. rewrite (IH name post suffix Hkey Hname). apply andb_assoc.
Qed.

Lemma startsWith_lacking (d : char) (text : jsstring) :
  forall name suffix,
    lacks d text = true -> startsWith text (name ++ d :: suffix) = false.
Proof.
  induction text as [|x text IH]; intros [|n name] suffix Hlacks;
    try reflexivity.
  - cbn in Hlacks. apply andb_true_iff in Hlacks as [Hx _].
    apply negb_true_iff in Hx. cbn. now rewrite Hx.
  - cbn in Hlacks. apply andb_true_iff in Hlacks as [_ Hlacks].
    cbn. rewrite (IH name suffix Hlacks). apply andb_false_r.
Qed.

(** A text with one key between two delimiters [q]: the pattern of a
    delimited name occurs in it once or not at all. *)
Lemma occurrences_quoted (q : char) (before key post name suffix : jsstring) :
  lacks q before = true -> lacks q key = true -> lacks q post = true ->
  lacks q name = true ->
  occurrences (q :: name ++ q :: suffix) (before ++ q :: key ++ q :: post)
  = if str_eqb key name && startsWith post suffix then 1%nat else 0%nat.
Proof.
  intros Hbefore Hkey Hpost Hname.
  rewrite (@occurrences_skip q _ before Hbefore).
  cbn [occurrences]. cbn [startsWith]. rewrite N.eqb_refl. cbn [andb].
  rewrite (@startsWith_delimited q key name post suffix Hkey Hname).
  rewrite (@occurrences_skip q _ key Hkey).
  cbn [occurrences]. cbn [startsWith]. rewrite N.eqb_refl. cbn [andb].
  rewrite (@startsWith_lacking q post name suffix Hpost).
  rewrite (@occurrences_absent q _ post Hpost).
  destruct (str_eqb key name && startsWith post suffix); reflexivity.
Qed.

(** The occurrences of a pattern without line feed in a text are those in
    its lines. *)
Lemma occurrences_lines (p : char) (pattern : jsstring) (lines : list jsstring) :
  lacks 10%N (p :: pattern) = true -> lines <> [] ->
  occurrences (p :: pattern) (join NL lines)
  = list_sum (map (occurrences (p :: pattern)) lines).
Proof.
  intros Hlacks. induction lines as [|line lines IH]; [congruence|].
  intros _. destruct lines as [|line' lines].
  - cbn. lia.
  - change (join NL (line :: line' :: lines))
      with (line ++ 10%N :: join NL (line' :: lines)).
    rewrite (@occurrences_barrier 10%N p pattern Hlacks), IH by discriminate.
    reflexivity.
Qed.

(** The same for the pattern of a quoted name. *)
Lemma occurrences_unquoted (pattern text : jsstring) :
  lacks 34%N text = true -> occurrences (QUOTE ++ pattern) text = 0%nat.
Proof. exact (@occurrences_absent 34%N pattern text). Qed.

Lemma occurrences_of_quoted (before key post name suffix : jsstring) :
  lacks 34%N before = true -> lacks 34%N key = true -> lacks 34%N post = true ->
  lacks 34%N name = true ->
  occurrences (QUOTE ++ name ++ QUOTE ++ suffix)
    (before ++ QUOTE ++ key ++ QUOTE ++ post)
  = if str_eqb key name && startsWith post suffix then 1%nat else 0%nat.
Proof. exact (@occurrences_quoted 34%N before key post name suffix). Qed.

Lemma occurrences_quoted_lines (pattern : jsstring) (lines : list jsstring) :
  lacks 10%N pattern = true -> lines <> [] ->
  occurrences (QUOTE ++ pattern) (join NL lines)
  = list_sum (map (occurrences (QUOTE ++ pattern)) lines).
Proof.
  intros Hlacks. apply (@occurrences_lines 34%N pattern lines).
  cbn. exact Hlacks.
Qed.

Lemma join_app (sep : jsstring) (a b : list jsstring) :
  a <> [] -> b <> [] -> join sep (a ++ b) = join sep a ++ sep ++ join sep b.
Proof.
  intros Ha Hb. induction a as [|x a IH]; [congruence|].
  destruct a as [|y a].
  - cbn [app]. destruct b as [|z b]; [congruence|]. reflexivity.
  - change (join sep ((x :: y :: a) ++ b))
      with (x ++ sep ++ join sep ((y :: a) ++ b)).
    rewrite IH by discriminate.
    change (join sep (x :: y :: a)) with (x ++ sep ++ join sep (y :: a)).
    now rewrite <- !app_assoc.
Qed.

Lemma keyLines_nonempty (key : jsstring -> jsstring) (names : list jsstring) :
  keyLines key names <> [].
Proof. destruct names as [|n [|n' names]]; discriminate. Qed.

Lemma join_cons (sep x : jsstring) (l : list jsstring) :
  l <> [] -> join sep (x :: l) = x ++ sep ++ join sep l.
Proof. destruct l; [congruence | reflexivity]. Qed.

(** A block of keys, line by line. *)
Lemma keyLines_join (key : jsstring -> jsstring) (names : list jsstring) :
  js "    " ++ join KEY_SEP (map key names) = join NL (keyLines key names).
Proof.
  induction names as [|n names IH]; [reflexivity|].
  destruct names as [|n' names].
  - reflexivity.
  - change (keyLines key (n :: n' :: names))
      with ((js "    " ++ key n ++ js ",") :: keyLines key (n' :: names)).
    rewrite join_cons by apply keyLines_nonempty.
    rewrite <- IH.
    change (join KEY_SEP (map key (n :: n' :: names)))
      with (key n ++ KEY_SEP ++ join KEY_SEP (map key (n' :: names))).
    unfold KEY_SEP. now rewrite <- !app_assoc.
Qed.

(** The response format, line by line. *)
Lemma responseFormat_lines (names : list jsstring) :
  responseFormat names = join NL (formatLines names).
Proof.
  unfold formatLines.
  rewrite join_app by (try discriminate; intros H; apply app_eq_nil in H;
                       destruct H as [H _]; now apply keyLines_nonempty in H).
  rewrite join_app by (try apply keyLines_nonempty; discriminate).
  rewrite join_app by (try discriminate; intros H; apply app_eq_nil in H;
                       destruct H as [H _]; now apply keyLines_nonempty in H).
  rewrite join_app by (try apply keyLines_nonempty; discriminate).
  rewrite <- !keyLines_join.
  unfold responseFormat, FORMAT_OPEN, FORMAT_MIDDLE, FORMAT_CLOSE.
  cbn [join]. rewrite <- !app_assoc. reflexivity.
Qed.

Lemma list_sum_cons (x : nat) (l : list nat) :
  list_sum (x :: l) = (x + list_sum l)%nat.
Proof. reflexivity. Qed.

Lemma count_cons (name n : jsstring) (names : list jsstring) :
  count name (n :: names)
  = ((if str_eqb n name then 1 else 0) + count name names)%nat.
Proof. unfold count. cbn [filter]. now destruct (str_eqb n name). Qed.

Lemma count_absent (name : jsstring) (names : list jsstring) :
  ~ In name names -> count name names = 0%nat.
Proof.
  induction names as [|n names IH]; intros Hnotin; [reflexivity|].
  rewrite count_cons. destruct (str_eqb n name) eqn:Heq.
  - apply str_eqb_eq in Heq. elim Hnotin. now left.
  - apply IH. intros Hin. apply Hnotin. now right.
Qed.

(** A name occurs once among names without repetition. *)
Lemma count_NoDup (name : jsstring) (names : list jsstring) :
  NoDup names -> In name names -> count name names = 1%nat.
Proof.
  induction 1 as [|n names Hnotin Hnodup IH]; intros Hin; [destruct Hin|].
  rewrite count_cons. destruct (str_eqb n name) eqn:Heq.
  - apply str_eqb_eq in Heq. subst n. now rewrite count_absent.
  - destruct Hin as [->|Hin]; [now rewrite str_eqb_refl in Heq|].
    now rewrite IH.
Qed.

(** The occurrences of the pattern of a quoted name in a block of keys whose
    suffix is [keySuffix]; [same] says whether the suffix is that of the
    pattern. *)
Lemma keyLines_occurrences (keySuffix suffix name : jsstring) (same : bool)
    (names : list jsstring) :
  lacks 34%N keySuffix = true ->
  startsWith keySuffix suffix = same ->
  startsWith (keySuffix ++ js ",") suffix = same ->
  lacks 34%N name = true ->
  forallb (lacks 34%N) names = true ->
  list_sum
    (map (occurrences (QUOTE ++ name ++ QUOTE ++ suffix))
       (keyLines (fun n => QUOTE ++ n ++ QUOTE ++ keySuffix) names))
  = if same then count name names else 0%nat.
Proof.
  intros Hsuffix Hsame Hcomma Hname.
  assert (forall n post,
             lacks 34%N n = true -> lacks 34%N post = true ->
             startsWith post suffix = same ->
             occurrences (QUOTE ++ name ++ QUOTE ++ suffix)
               (js "    " ++ QUOTE ++ n ++ QUOTE ++ post)
             = if same then (if str_eqb n name then 1 else 0)%nat else 0%nat)
    as Hline.
  { intros n post Hn Hpost Hstarts.
    rewrite (@occurrences_of_quoted (js "    ") n post name suffix
               eq_refl Hn Hpost Hname).
    rewrite Hstarts. destruct (str_eqb n name), same; reflexivity. }
  induction names as [|n names IH]; intros Hnames.
  - cbn [keyLines map]. rewrite list_sum_cons.
    rewrite (@occurrences_unquoted (name ++ QUOTE ++ suffix) (js "    ") eq_refl).
    now destruct same.
  - cbn [forallb] in Hnames. apply andb_true_iff in Hnames as [Hn Hnames].
    destruct names as [|n' names].
    + cbn [keyLines map]. rewrite list_sum_cons.
      rewrite (Hline n keySuffix Hn Hsuffix Hsame), count_cons.
      unfold count. cbn. destruct same, (str_eqb n name); reflexivity.
    + change (keyLines (fun n0 => QUOTE ++ n0 ++ QUOTE ++ keySuffix)
                (n :: n' :: names))
        with ((js "    " ++ (QUOTE ++ n ++ QUOTE ++ keySuffix) ++ js ",")
              :: keyLines (fun n0 => QUOTE ++ n0 ++ QUOTE ++ keySuffix)
                   (n' :: names)).
      cbn [map]. rewrite list_sum_cons, (IH Hnames).
      rewrite (@count_cons name n (n' :: names)).
      replace (js "    " ++ (QUOTE ++ n ++ QUOTE ++ keySuffix) ++ js ",")
        with (js "    " ++ QUOTE ++ n ++ QUOTE ++ (keySuffix ++ js ","))
        by (now rewrite <- !app_assoc).
      rewrite (Hline n (keySuffix ++ js ",") Hn).
      * destruct same, (str_eqb n name); reflexivity.
      * rewrite lacks_app, Hsuffix. reflexivity.
      * exact Hcomma.
Qed.

(** The occurrences of the pattern of a quoted name in the response
    format: those in the block of keys that has the suffix of the
    pattern. *)
Lemma responseFormat_occurrences (suffix name : jsstring)
    (underData underConfidence : bool) (names : list jsstring) :
  lacks 10%N suffix = true ->
  startsWith (js ": <extracted_value_or_null>") suffix = underData ->
  startsWith (js ": <extracted_value_or_null>,") suffix = underData ->
  startsWith (js ": <confidence_0_to_100_or_0_if_not_found>") suffix
  = underConfidence ->
  startsWith (js ": <confidence_0_to_100_or_0_if_not_found>,") suffix
  = underConfidence ->
  startsWith (js ": {") suffix = false ->
  startsWith (js ": <overall_confidence_0_to_100>,") suffix = false ->
  lacks 34%N name = true -> lacks 10%N name = true ->
  forallb (lacks 34%N) names = true ->
  occurrences (QUOTE ++ name ++ QUOTE ++ suffix) (responseFormat names)
  = ((if underData then count name names else 0)
     + (if underConfidence then count name names else 0))%nat.
Proof.
  intros Hsuffix Hdata Hdata' Hconfidence Hconfidence' Hbrace Hoverall
    Hquote HlineFeed Hnames.
  assert (forall before key post,
             lacks 34%N before = true -> lacks 34%N key = true ->
             lacks 34%N post = true -> startsWith post suffix = false ->
             occurrences (QUOTE ++ name ++ QUOTE ++ suffix)
               (before ++ QUOTE ++ key ++ QUOTE ++ post) = 0%nat) as Hfixed.
  { intros before key post Hbefore Hkey Hpost Hstarts.
    rewrite (@occurrences_of_quoted before key post name suffix
               Hbefore Hkey Hpost Hquote).
    rewrite Hstarts, andb_false_r. reflexivity. }
  assert (forall text,
             lacks 34%N text = true ->
             occurrences (QUOTE ++ name ++ QUOTE ++ suffix) text = 0%nat)
    as Hplain
    by (intros text; apply occurrences_unquoted).
  rewrite responseFormat_lines.
  rewrite occurrences_quoted_lines.
  - unfold formatLines. rewrite !map_app, !list_sum_app.
    change (keyLines dataKey names)
      with (keyLines (fun n => QUOTE ++ n ++ QUOTE
                               ++ js ": <extracted_value_or_null>") names).
    change (keyLines confidenceKey names)
      with (keyLines (fun n => QUOTE ++ n ++ QUOTE
                               ++ js ": <confidence_0_to_100_or_0_if_not_found>")
              names).
    rewrite (@keyLines_occurrences (js ": <extracted_value_or_null>") suffix
               name underData names eq_refl Hdata Hdata' Hquote Hnames).
    rewrite (@keyLines_occurrences
               (js ": <confidence_0_to_100_or_0_if_not_found>") suffix
               name underConfidence names eq_refl Hconfidence Hconfidence'
               Hquote Hnames).
    cbn [map list_sum].
    rewrite !(Hplain [] eq_refl).
    rewrite (Hplain (js "RESPONSE FORMAT:") eq_refl).
    rewrite (Hplain (js "{") eq_refl).
    rewrite (Hplain (js "  },") eq_refl).
    rewrite (Hplain (js "  }") eq_refl).
    rewrite (Hplain (js "}") eq_refl).
    rewrite (Hplain
               (js "IMPORTANT: Include ALL fields in both data and confidenceByField. Use null for data and 0 for confidence if field not found or uncertain.")
               eq_refl).
    rewrite (Hfixed (js "  ") (js "data") (js ": {") eq_refl eq_refl eq_refl Hbrace).
    rewrite (Hfixed (js "  ") (js "confidence")
               (js ": <overall_confidence_0_to_100>,") eq_refl eq_refl eq_refl
               Hoverall).
    rewrite (Hfixed (js "  ") (js "confidenceByField") (js ": {")
               eq_refl eq_refl eq_refl Hbrace).
    cbn [list_sum fold_right Nat.add]. destruct underData, underConfidence; lia.
  - rewrite !lacks_app, HlineFeed, Hsuffix. reflexivity.
  - unfold formatLines. discriminate.
Qed.

Section Prompts.

Context {engine : Engine}.

(** One iteration of the loop only adds text at the end of the prompt. *)
Lemma appendField_app (prompt : jsstring) (entry : jsstring * FieldDefinition) :
  appendField prompt entry = prompt ++ fieldText entry.
Proof.
  unfold fieldText, appendField. destruct entry as [fieldName fieldDef].
  destruct (optional fieldDef), (truthy_opt (description fieldDef)),
    (enum fieldDef), (isSome (min fieldDef) || isSome (max fieldDef)),
    (truthy_opt (pattern fieldDef));
    cbn [app]; rewrite <- ?app_assoc; reflexivity.
Qed.

Lemma fold_appendField (entries : list (jsstring * FieldDefinition)) :
  forall prompt,
    fold_left appendField entries prompt
    = prompt ++ List.concat (map fieldText entries).
Proof.
  induction entries as [|entry entries IH]; intros prompt; simpl.
  - now rewrite app_nil_r.
  - rewrite IH, appendField_app, <- app_assoc. reflexivity.
Qed.

Lemma startsWith_same_prefix (prefix a b : jsstring) :
  startsWith (prefix ++ a) (prefix ++ b) = startsWith a b.
Proof.
  induction prefix as [|c prefix IH]; [reflexivity|].
  cbn. now rewrite N.eqb_refl.
Qed.

Lemma lacks_join (c : char) (sep : jsstring) (l : list jsstring) :
  lacks c sep = true -> forallb (lacks c) l = true -> lacks c (join sep l) = true.
Proof.
  intros Hsep. induction l as [|x l IH]; intros Hall; [reflexivity|].
  cbn [forallb] in Hall. apply andb_true_iff in Hall as [Hx Hall].
  destruct l as [|y l]; [exact Hx|].
  change (join sep (x :: y :: l)) with (x ++ sep ++ join sep (y :: l)).
  now rewrite !lacks_app, Hx, Hsep, IH.
Qed.

(** The entry of a field: a line feed, the name, and what the definition
    adds. *)
Lemma fieldText_rest (fieldName : jsstring) (fieldDef : FieldDefinition) :
  fieldText (fieldName, fieldDef)
  = NL ++ (js "- " ++ fieldName ++ js ": " ++ fieldRest fieldDef).
Proof.
  unfold fieldText, appendField, fieldRest.
  destruct (optional fieldDef), (truthy_opt (description fieldDef)),
    (description fieldDef), (enum fieldDef),
    (isSome (min fieldDef) || isSome (max fieldDef)),
    (truthy_opt (pattern fieldDef)), (pattern fieldDef);
    cbn [app orDefault]; rewrite <- ?app_assoc, ?app_nil_r; reflexivity.
Qed.

(** The entry of a field whose texts have no line feed is one line. *)
Lemma fieldRest_lacks (fieldDef : FieldDefinition) :
  singleLine fieldDef = true -> lacks 10%N (fieldRest fieldDef) = true.
Proof.
  unfold singleLine, fieldRest. intros Hsingle.
  apply andb_true_iff in Hsingle as [Hsingle Hpattern].
  apply andb_true_iff in Hsingle as [Hsingle Hmax].
  apply andb_true_iff in Hsingle as [Hsingle Hmin].
  apply andb_true_iff in Hsingle as [Hsingle Henum].
  apply andb_true_iff in Hsingle as [Htype Hdescription].
  destruct (optional fieldDef), (truthy_opt (description fieldDef)),
    (enum fieldDef) as [values|],
    (isSome (min fieldDef) || isSome (max fieldDef)),
    (truthy_opt (pattern fieldDef));
    cbn [orDefault] in Henum;
    rewrite ?lacks_app, ?Htype, ?Hdescription, ?Hmin, ?Hmax, ?Hpattern,
      ?(@lacks_join 10%N (js ", ") _ eq_refl Henum);
    reflexivity.
Qed.

(** In a text made of lines, each after a line feed, a pattern that begins
    with a line feed occurs once for each line that begins with the rest of
    the pattern. *)
Lemma entries_occurrences (pattern : jsstring) (lines : list jsstring) :
  lacks 10%N pattern = true -> forallb (lacks 10%N) lines = true ->
  occurrences (NL ++ pattern) (List.concat (map (fun line => NL ++ line) lines))
  = List.length (filter (fun line => startsWith line pattern) lines).
Proof.
  intros Hpattern. induction lines as [|line lines IH]; intros Hlines;
    [reflexivity|].
  cbn [forallb] in Hlines. apply andb_true_iff in Hlines as [Hline Hlines].
  cbn [map List.concat]. rewrite <- app_assoc.
  change (NL ++ line ++ List.concat (map (fun l => NL ++ l) lines))
    with (10%N :: (line ++ List.concat (map (fun l => NL ++ l) lines))).
  change (NL ++ pattern) with (10%N :: pattern).
  cbn [occurrences startsWith]. rewrite N.eqb_refl. cbn [andb].
  rewrite (@occurrences_skip 10%N pattern line Hline).
  change (10%N :: pattern) with (NL ++ pattern). rewrite (IH Hlines).
  assert (startsWith (line ++ List.concat (map (fun l => NL ++ l) lines)) pattern
          = startsWith line pattern) as ->.
  { destruct lines as [|line' lines].
    - cbn [map List.concat]. now rewrite app_nil_r.
    - cbn [map List.concat]. rewrite <- app_assoc.
      exact (@startsWith_barrier 10%N pattern Hpattern line _). }
  cbn [filter]. now destruct (startsWith line pattern).
Qed.

(** The entry of a field begins with the pattern of a name exactly when it
    is the entry of that name. *)
Lemma entry_of_name (fieldName name rest : jsstring) :
  lacks 58%N fieldName = true -> lacks 58%N name = true ->
  startsWith (js "- " ++ fieldName ++ js ": " ++ rest) (js "- " ++ name ++ js ": ")
  = str_eqb fieldName name.
Proof.
  intros HfieldName Hname. rewrite startsWith_same_prefix.
  transitivity (str_eqb fieldName name && startsWith (js " " ++ rest) (js " ")).
  - exact (@startsWith_delimited 58%N fieldName name (js " " ++ rest) (js " ")
             HfieldName Hname).
  - cbn. destruct rest; apply andb_true_r.
Qed.

Lemma fieldSection_occurrences (schema : Schema) (name : jsstring) :
  forallb plainName (keys (fields schema)) = true ->
  forallb (fun entry => singleLine (snd entry)) (fields schema) = true ->
  plainName name = true ->
  occurrences (fieldLine name) (fieldSection schema)
  = count name (keys (fields schema)).
Proof.
  intros Hnames Hlines Hname. unfold fieldSection, fieldLine.
  assert (map fieldText (fields schema)
          = map (fun line => NL ++ line)
              (map (fun entry => js "- " ++ fst entry ++ js ": "
                                 ++ fieldRest (snd entry)) (fields schema)))
    as ->.
  { rewrite map_map. apply map_ext. intros [fieldName fieldDef].
    apply fieldText_rest. }
  unfold plainName in Hname.
  apply andb_true_iff in Hname as [Hname Hcolon].
  apply andb_true_iff in Hname as [_ HlineFeed].
  rewrite entries_occurrences.
  - unfold count, keys.
    induction (fields schema) as [|[fieldName fieldDef] entries IH];
      [reflexivity|].
    cbn [forallb keys map fst] in Hnames.
    apply andb_true_iff in Hnames as [HfieldName Hnames].
    cbn [forallb] in Hlines. apply andb_true_iff in Hlines as [_ Hlines].
    unfold plainName in HfieldName.
    apply andb_true_iff in HfieldName as [_ HfieldColon].
    cbn [map filter fst snd].
    rewrite (@entry_of_name fieldName name (fieldRest fieldDef)
               HfieldColon Hcolon).
    destruct (str_eqb fieldName name); cbn [List.length];
      now rewrite (IH Hnames Hlines).
  - rewrite !lacks_app, HlineFeed. reflexivity.
  - induction (fields schema) as [|[fieldName fieldDef] entries IH];
      [reflexivity|].
    cbn [forallb keys map fst] in Hnames.
    apply andb_true_iff in Hnames as [HfieldName Hnames].
    cbn [forallb snd] in Hlines. apply andb_true_iff in Hlines as [Hline Hlines].
    unfold plainName in HfieldName.
    apply andb_true_iff in HfieldName as [HfieldName _].
    apply andb_true_iff in HfieldName as [_ HfieldLineFeed].
    cbn [map forallb fst snd].
    rewrite !lacks_app, HfieldLineFeed, (fieldRest_lacks fieldDef Hline).
    cbn [andb]. now apply IH.
Qed.

Lemma forallb_In {A} (p : A -> bool) (l : list A) (x : A) :
  forallb p l = true -> In x l -> p x = true.
Proof. intros Hall Hin. now apply (proj1 (forallb_forall p l) Hall). Qed.

(** C7.  For a schema whose field names are distinct and have no double
    quote, line feed or colon, and whose field definitions have no line
    feed in their texts: the system prompt is the fixed head, the field
    section, the confidence block and the response format; the entry of
    each field begins exactly once in the text of the field section; and in
    the text of the response format the key of each field under [data] and
    its key under [confidenceByField] occur exactly once each. *)
Theorem prompt_lists_each_field (schema : Schema)
    (Hwf : object_wf (fields schema))
    (Hnames : forallb plainName (keys (fields schema)) = true)
    (Hlines : forallb (fun entry => singleLine (snd entry)) (fields schema)
              = true) :
  let names := keys (fields schema) in
  buildSystemPrompt schema
  = PROMPT_HEAD ++ fieldSection schema
    ++ appendConfidence [] (confidence schema) ++ responseFormat names
  /\ (forall name,
        In name names ->
        occurrences (fieldLine name) (fieldSection schema) = 1%nat
        /\ occurrences (dataKey name) (responseFormat names) = 1%nat
        /\ occurrences (confidenceKey name) (responseFormat names) = 1%nat).
Proof.
  intros names. split.
  - unfold buildSystemPrompt, fieldSection. rewrite fold_appendField.
    fold names. destruct (confidence schema); cbn [appendConfidence app];
      rewrite <- ?app_assoc; reflexivity.
  - intros name Hin.
    assert (count name names = 1%nat) as Hone by now apply count_NoDup.
    assert (plainName name = true) as Hname
      by exact (forallb_In plainName names name Hnames Hin).
    assert (forallb (lacks 34%N) names = true) as Hquotes.
    { apply forallb_forall. intros n Hn.
      pose proof (forallb_In plainName names n Hnames Hn) as Hplain.
      unfold plainName in Hplain.
      apply andb_true_iff in Hplain as [Hplain _].
      now apply andb_true_iff in Hplain as [Hplain _]. }
    pose proof Hname as Hparts. unfold plainName in Hparts.
    apply andb_true_iff in Hparts as [Hparts _].
    apply andb_true_iff in Hparts as [Hquote HlineFeed].
    repeat split.
    + now rewrite fieldSection_occurrences.
    + unfold dataKey.
      rewrite (@responseFormat_occurrences (js ": <extracted_value_or_null>")
                 name true false names eq_refl eq_refl eq_refl eq_refl eq_refl
                 eq_refl eq_refl Hquote HlineFeed Hquotes).
      rewrite Hone. reflexivity.
    + unfold confidenceKey.
      rewrite (@responseFormat_occurrences
                 (js ": <confidence_0_to_100_or_0_if_not_found>")
                 name false true names eq_refl eq_refl eq_refl eq_refl eq_refl
                 eq_refl eq_refl Hquote HlineFeed Hquotes).
      rewrite Hone. reflexivity.
Qed.

(** C8.  [buildSystemPrompt] and [buildUserPrompt] are functions of their
    argument alone: on equal schemas, respectively equal inputs, they return
    the same sequence of code units; [buildUserPrompt] is the fixed prefix
    followed by the input. *)
Theorem prompts_deterministic :
  (forall schema1 schema2,
      schema1 = schema2 -> buildSystemPrompt schema1 = buildSystemPrompt schema2)
  /\ (forall input1 input2,
        input1 = input2 -> buildUserPrompt input1 = buildUserPrompt input2)
  /\ (forall input,
        buildUserPrompt input
        = js "Extract data from the following text:" ++ NL ++ NL ++ input).
Proof.
  repeat split.
  - intros schema1 schema2 Heq. rewrite Heq. reflexivity.
  - intros input1 input2 Heq. rewrite Heq. reflexivity.
Qed.

End Prompts.

(** C7, witness: the two-field schema of the test-suite. *)
Lemma prompt_lists_each_field_witness :
  object_wf (fields personSchema)
  /\ forallb plainName (keys (fields personSchema)) = true
  /\ forallb (fun entry => singleLine (engine := referenceEngine) (snd entry))
       (fields personSchema) = true
  /\ occurrences (fieldLine (js "age"))
       (fieldSection (engine := referenceEngine) personSchema) = 1%nat
  /\ occurrences (dataKey (js "age"))
       (responseFormat (keys (fields personSchema))) = 1%nat
  /\ occurrences (confidenceKey (js "age"))
       (responseFormat (keys (fields personSchema))) = 1%nat.
Proof.
  assert (object_wf (fields personSchema)) as Hwf.
  { unfold object_wf. simpl. repeat constructor; simpl; intuition discriminate. }
  split; [exact Hwf|]. split; [reflexivity|]. split; [reflexivity|].
  destruct (@prompt_lists_each_field referenceEngine personSchema Hwf
              eq_refl eq_refl) as [_ Hcount].
  apply (Hcount (js "age")). simpl. right. left. reflexivity.
Defined.

(** C7, counterexample: a schema that validates, with the fields [a] and
    ["a": <extracted_value_or_null>], the second with a description of two
    lines.  The entry of [a] begins twice in the field section, and the key
    of [a] under [data] occurs three times in the response format, which
    is the end of the prompt. *)
Lemma prompt_lists_field_counterexample :
  validateSchema (engine := referenceEngine) (fun _ => false) rawOddSchema = Ok tt
  /\ object_wf (fields oddSchema)
  /\ In (js "a") (keys (fields oddSchema))
  /\ occurrences (fieldLine (js "a"))
       (fieldSection (engine := referenceEngine) oddSchema) = 2%nat
  /\ occurrences (dataKey (js "a")) (responseFormat (keys (fields oddSchema)))
     = 3%nat
  /\ buildSystemPrompt (engine := referenceEngine) oddSchema
     = PROMPT_HEAD ++ fieldSection (engine := referenceEngine) oddSchema
       ++ responseFormat (keys (fields oddSchema)).
Proof.
  split; [vm_compute; reflexivity|]. split.
  { unfold object_wf. simpl. repeat constructor; simpl; intuition discriminate. }
  split; [now left|].
  split; [vm_compute; reflexivity|]. split; vm_compute; reflexivity.
Qed.

(* ===================================================================== *)
(** * The threshold decision *)
(* ===================================================================== *)

(** C6.  [meetsThreshold] is true exactly when the parsed confidence is
    greater than or equal to the threshold of the schema; the comparison is
    inclusive (threshold 80, confidence 80: true); the threshold of a schema
    that declares none is 0, so that [meetsThreshold] holds for every
    confidence of the data model's range, which begins at 0. *)
Theorem meets_threshold (schema : Schema) (response : ExtractionResponse) :
  (meetsThreshold schema response = true
   <-> confidenceThreshold schema <= ex_confidence response)
  /\ (forall c, confidence schema = Some c -> confidenceThreshold schema = threshold c)
  /\ (confidenceThreshold schema == 80 -> ex_confidence response == 80 ->
      meetsThreshold schema response = true)
  /\ (confidence schema = None ->
      confidenceThreshold schema = 0
      /\ (0 <= ex_confidence response -> meetsThreshold schema response = true)).
Proof.
  unfold meetsThreshold. repeat apply conj.
  - apply Qle_bool_iff.
  - apply Qle_bool_iff.
  - intros c Hc. unfold confidenceThreshold. now rewrite Hc.
  - intros Ht Hc. apply Qle_bool_iff. rewrite Ht, Hc. apply Qle_refl.
  - intros Hnone. unfold confidenceThreshold. rewrite Hnone.
    split; [reflexivity|]. intros H0. now apply Qle_bool_iff.
Qed.

(** C6, witness: threshold 80 and confidence 80. *)
Lemma meets_threshold_witness :
  meetsThreshold personSchema
    (mkExtraction (JObject []) 80 (JObject [])) = true.
Proof.
  destruct (meets_threshold personSchema (mkExtraction (JObject []) 80 (JObject [])))
    as (_ & _ & H & _).
  apply H; reflexivity.
Defined.

(* ===================================================================== *)
(** * Schema validation *)
(* ===================================================================== *)

Section Validation.

Context {engine : Engine}.
Variable malformedMetadata : JSON -> bool.

(** The four failure cases of a field definition, as propositions. *)
Lemma fieldFails_cases (def : JSON) :
  fieldFails def = true
  <-> member def (js "type") = None
      \/ member def (js "enum") = Some (JArray [])
      \/ (exists lo hi,
             member def (js "min") = Some (JNumber lo)
             /\ member def (js "max") = Some (JNumber hi) /\ hi < lo)
      \/ (exists source,
             member def (js "pattern") = Some (JString source)
             /\ RegExp_valid source = false).
Proof.
  unfold fieldFails, lacksType, enumEmpty, minAboveMax, patternInvalid.
  rewrite !orb_true_iff. split.
  - intros [[[H|H]|H]|H].
    + left. now destruct (member def (js "type")).
    + right. left.
      destruct (member def (js "enum")) as [[| | | |[|? ?]|]|]; try discriminate.
      reflexivity.
    + right. right. left.
      destruct (member def (js "min")) as [[|?|lo|?|?|?]|]; try discriminate.
      destruct (member def (js "max")) as [[|?|hi|?|?|?]|]; try discriminate.
      exists lo, hi. repeat split.
      apply negb_true_iff in H. apply Qnot_le_lt. intros Hle.
      apply Qle_bool_iff in Hle. congruence.
    + right. right. right.
      destruct (member def (js "pattern")) as [[|?|?|source|?|?]|]; try discriminate.
      exists source. split; [reflexivity|]. now apply negb_true_iff.
  - intros [H|[H|[(lo & hi & Hlo & Hhi & Hlt)|(source & Hsrc & Hbad)]]].
    + left. left. left. now rewrite H.
    + left. left. right. now rewrite H.
    + left. right. rewrite Hlo, Hhi. apply negb_true_iff.
      apply not_true_is_false. intros Hle. apply Qle_bool_iff in Hle.
      now apply (Qlt_not_le _ _ Hlt).
    + right. rewrite Hsrc, Hbad. reflexivity.
Qed.

Lemma validateField_fails (entry : jsstring * JSON) :
  (exists e, validateField entry = Throw e) <-> fieldFails (snd entry) = true.
Proof.
  destruct entry as [name def]. unfold validateField, fieldFails. simpl.
  destruct (lacksType def), (enumEmpty def), (minAboveMax def),
    (patternInvalid def); simpl; split; intros H;
    try reflexivity; try (eexists; reflexivity);
    try discriminate; destruct H; discriminate.
Qed.

Lemma validateFields_fails (entries : list (jsstring * JSON)) :
  (exists e, validateFields entries = Throw e)
  <-> exists name def, In (name, def) entries /\ fieldFails def = true.
Proof.
  induction entries as [|entry entries IH]; simpl.
  - split; [intros [e H]; discriminate | intros (? & ? & [] & _)].
  - destruct (validateField entry) as [[]|e] eqn:Hentry; simpl.
    + rewrite IH. split.
      * intros (name & def & Hin & Hfail). exists name, def. now split; [right|].
      * intros (name & def & [Heq|Hin] & Hfail).
        -- subst entry.
           assert (exists e, validateField (name, def) = Throw e) as [e He]
             by now apply validateField_fails.
           congruence.
        -- now exists name, def.
    + split; [|intros _; now exists e].
      intros _. destruct entry as [name def]. exists name, def.
      split; [now left|].
      apply (validateField_fails (name, def)). now exists e.
Qed.

(** C9.  The validation step fails exactly when the [fields] mapping is
    missing or empty, or some field definition lacks a [type], has an empty
    [enum], has [min] above [max], or has a [pattern] that is not a regular
    expression, or the metadata is malformed; it always ends, with a
    SchemaError or with success; and on success [loadSchemaFromObject]
    returns the object it was given, as does [parseSchema] for a text that
    decodes to it. *)
Theorem schema_validation (raw : JSON) :
  ((exists e, validateSchema malformedMetadata raw = Throw e)
   <-> rawFields raw = []
       \/ (exists name def,
              In (name, def) (rawFields raw)
              /\ (member def (js "type") = None
                  \/ member def (js "enum") = Some (JArray [])
                  \/ (exists lo hi,
                         member def (js "min") = Some (JNumber lo)
                         /\ member def (js "max") = Some (JNumber hi) /\ hi < lo)
                  \/ (exists source,
                         member def (js "pattern") = Some (JString source)
                         /\ RegExp_valid source = false)))
       \/ malformedMetadata raw = true)
  /\ (validateSchema malformedMetadata raw = Ok tt
      \/ exists e, validateSchema malformedMetadata raw = Throw e)
  /\ (validateSchema malformedMetadata raw = Ok tt ->
      loadSchemaFromObject malformedMetadata raw = Ok raw
      /\ forall jsonString,
          Json.parse jsonString = Some raw ->
          parseSchema malformedMetadata jsonString = Ok raw)
  /\ (forall e,
        validateSchema malformedMetadata raw = Throw e ->
        loadSchemaFromObject malformedMetadata raw = Throw e
        /\ forall jsonString,
            Json.parse jsonString = Some raw ->
            parseSchema malformedMetadata jsonString = Throw e).
Proof.
  repeat apply conj.
  - unfold validateSchema, fieldsMissingOrEmpty.
    destruct (rawFields raw) as [|entry entries] eqn:Hfields.
    + intros _. now left.
    + destruct (validateFields (entry :: entries)) as [[]|e] eqn:Hval; cbn [bind].
      * destruct (malformedMetadata raw); intros [e He]; [now right; right | discriminate].
      * intros _. right. left.
        destruct (proj1 (validateFields_fails (entry :: entries)))
          as (name & def & Hin & Hfail); [now exists e|].
        exists name, def. split; [exact Hin | now apply fieldFails_cases].
  - unfold validateSchema, fieldsMissingOrEmpty.
    destruct (rawFields raw) as [|entry entries] eqn:Hfields.
    + intros _. eexists. reflexivity.
    + intros [Hempty|[(name & def & Hin & Hcase)|Hmeta]]; [discriminate| |].
      * destruct (proj2 (validateFields_fails (entry :: entries))) as [e He].
        { exists name, def. split; [exact Hin | now apply fieldFails_cases]. }
        rewrite He. exists e. reflexivity.
      * destruct (validateFields (entry :: entries)) as [[]|e]; cbn [bind].
        -- rewrite Hmeta. eexists. reflexivity.
        -- now exists e.
  - destruct (validateSchema malformedMetadata raw) as [[]|e];
      [now left | right; now exists e].
  - intros Hok. unfold loadSchemaFromObject. rewrite Hok. split; [reflexivity|].
    intros jsonString Hparse. unfold parseSchema, JSON_parse.
    rewrite Hparse. cbn [try_catch bind]. rewrite Hok. reflexivity.
  - intros e He. unfold loadSchemaFromObject. rewrite He. split; [reflexivity|].
    intros jsonString Hparse. unfold parseSchema, JSON_parse.
    rewrite Hparse. cbn [try_catch bind]. rewrite He. reflexivity.
Qed.

End Validation.

(** C9, witness: of the two raw schemas of the loader test-suite the first
    is returned as it is and the second, whose [min] is above its [max], is
    refused. *)
Lemma schema_validation_witness :
  loadSchemaFromObject (engine := referenceEngine) (fun _ => false) rawTitleSchema
  = Ok rawTitleSchema
  /\ exists e,
       validateSchema (engine := referenceEngine) (fun _ => false) rawAgeSchema
       = Throw e.
Proof.
  split.
  - destruct (@schema_validation referenceEngine (fun _ => false) rawTitleSchema)
      as (_ & _ & Hok & _).
    apply Hok. reflexivity.
  - destruct (@schema_validation referenceEngine (fun _ => false) rawAgeSchema)
      as (Hiff & _).
    apply Hiff. right. left.
    exists (js "age"),
      (JObject [(js "type", JString (js "number"));
                (js "min", JNumber 100); (js "max", JNumber 50)]).
    split; [left; reflexivity|].
    right. right. left. exists 100, 50. repeat split.
Defined.

(* ===================================================================== *)
(** * The scenarios of section 8 *)
(* ===================================================================== *)

(** A 429 with [Retry-After: 2] and then a 200: the call waits 2000 ms,
    asks again and succeeds. *)
Example rate_limited_then_served :
  extract (engine := referenceEngine) testClient
    (fun attempt _ =>
       if (attempt =? 0)%Z
       then Resolved (statusResponse 429 (Some (js "2")))
       else Resolved (okResponse (assistantReply ALICE)))
    (fun _ => 0) testOptions
  = Some (Ok ALICE_value, [EvChat 0; EvSleep (Fin 2000); EvChat 1]).
Proof. vm_compute. reflexivity. Qed.

(** A server that answers 503 to every request: four requests, three waits
    of 1000, 2000 and 4000 ms (no jitter drawn), and the API_ERROR of the
    last request. *)
Example retries_exhausted :
  exists e d1 d2 d3,
    extract (engine := referenceEngine) testClient
      (fun _ _ => Resolved (statusResponse 503 None)) (fun _ => 0) testOptions
    = Some (Throw (Some e),
            [EvChat 0; EvSleep (Fin d1); EvChat 1; EvSleep (Fin d2);
             EvChat 2; EvSleep (Fin d3); EvChat 3])
    /\ d1 == 1000 /\ d2 == 2000 /\ d3 == 4000
    /\ code e = API_ERROR /\ statusCode e = Some 503%Z.
Proof.
  do 4 eexists. split; [vm_compute; reflexivity|]. repeat split.
Qed.

(** The connection fails once and a fenced reply follows. *)
Example network_failure_then_fenced_reply :
  exists d,
    extract (engine := referenceEngine) testClient
      (fun attempt _ =>
         if (attempt =? 0)%Z
         then Rejected (mkJSError (js "TypeError") (js "fetch failed"))
         else Resolved (okResponse
                          (assistantReply
                             (FENCE ++ js "json" ++ NL ++ ALICE ++ NL ++ FENCE))))
      (fun _ => 1 # 2) testOptions
    = Some (Ok ALICE_value, [EvChat 0; EvSleep (Fin d); EvChat 1])
    /\ d == 1125.
Proof.
  eexists. split; [vm_compute; reflexivity|]. reflexivity.
Qed.

(* ===================================================================== *)
(** * Further properties of the client *)
(* ===================================================================== *)

Section ClientErrors.

Context {engine : Engine}.
Variable this : LLMClient.

(** The error of [handleErrorResponse], member by member. *)
Lemma handleErrorResponse_throws (r : Response) :
  exists e,
    handleErrorResponse r = Throw (ThrownLLMError e)
    /\ statusCode e = Some (status r)
    /\ message e
       = (if truthy_opt (match json r with
                         | Ok errorData => errorData_message errorData
                         | Throw _ => None
                         end)
          then orDefault (match json r with
                          | Ok errorData => errorData_message errorData
                          | Throw _ => None
                          end) []
          else js "API error: " ++ Number_toString (inject_Z (status r))
               ++ js " " ++ statusText r)
    /\ code e = (if ((status r =? 401) || (status r =? 403))%Z
                 then AUTHENTICATION_ERROR
                 else if (status r =? 429)%Z then RATE_LIMIT else API_ERROR)
    /\ details e
       = Some (if (status r =? 429)%Z && truthy_opt (header_RetryAfter r)
               then mkDetails None (header_RetryAfter r) None None
               else noDetails).
Proof.
  unfold handleErrorResponse.
  destruct (json r) as [errorData|err];
    [destruct (truthy_opt (errorData_message errorData))|];
    (destruct (status r =? 401)%Z eqn:H401;
     [apply Z.eqb_eq in H401; rewrite H401; eexists; repeat split; reflexivity|]);
    (destruct (status r =? 403)%Z eqn:H403;
     [apply Z.eqb_eq in H403; rewrite H403; eexists; repeat split; reflexivity|]);
    destruct (status r =? 429)%Z;
    destruct (truthy_opt (header_RetryAfter r));
    eexists; repeat split; reflexivity.
Qed.

Lemma chat_on_status (request : LLMRequest) (r : Response) :
  ok r = false ->
  exists e,
    handleErrorResponse r = Throw (ThrownLLMError e)
    /\ chat this (fun _ => Resolved r) request = Throw e.
Proof.
  intros Hok. destruct (handleErrorResponse_throws r) as (e & He & _).
  exists e. split; [exact He|].
  unfold chat. cbn [await_fetch bind]. rewrite Hok. cbn [negb].
  rewrite He. reflexivity.
Qed.

(** X1.  Where an error of [chat] comes from can be read off the error: it
    never has the code INVALID_RESPONSE; it carries a status code exactly
    when the server answered with a response that is not [ok], and then the
    code is AUTHENTICATION_ERROR exactly for 401 and 403, RATE_LIMIT
    exactly for 429, and API_ERROR otherwise; without a status code it is a
    TIMEOUT without details or a NETWORK_ERROR whose details hold the
    message of the underlying error. *)
Theorem chat_error_origin (request : LLMRequest) (outcome : FetchOutcome)
    (e : LLMError) :
  chat this (fun _ => outcome) request = Throw e ->
  code e <> INVALID_RESPONSE
  /\ ((exists r,
          outcome = Resolved r /\ ok r = false
          /\ statusCode e = Some (status r)
          /\ (code e = AUTHENTICATION_ERROR
              <-> status r = 401%Z \/ status r = 403%Z)
          /\ (code e = RATE_LIMIT <-> status r = 429%Z)
          /\ (code e = API_ERROR
              <-> status r <> 401%Z /\ status r <> 403%Z /\ status r <> 429%Z))
      \/ (statusCode e = None
          /\ (code e = TIMEOUT /\ details e = None
              \/ exists text,
                  code e = NETWORK_ERROR
                  /\ message e = js "Network error: " ++ text
                  /\ details e = Some (mkDetails (Some text) None None None)))).
Proof.
  intros Hchat.
  assert (forall err : JSError,
             (if str_eqb (err_name err) (js "AbortError")
              then Throw (mkLLMError
                            (js "Request timeout after "
                             ++ Number_toString (cfg_timeout (config this))
                             ++ js "ms") TIMEOUT None None)
              else Throw (mkLLMError (js "Network error: " ++ err_message err)
                            NETWORK_ERROR None
                            (Some (mkDetails (Some (err_message err))
                                     None None None))))
             = (Throw e : Result LLMError LLMResponse) ->
             code e <> INVALID_RESPONSE
             /\ statusCode e = None
             /\ (code e = TIMEOUT /\ details e = None
                 \/ exists text,
                     code e = NETWORK_ERROR
                     /\ message e = js "Network error: " ++ text
                     /\ details e = Some (mkDetails (Some text) None None None)))
    as Hcatch.
  { intros err H. destruct (str_eqb (err_name err) (js "AbortError"));
      injection H as <-; cbn; repeat split; try discriminate.
    - now left.
    - right. now exists (err_message err). }
  destruct outcome as [r|reason].
  - destruct (ok r) eqn:Hok.
    + unfold chat in Hchat. cbn [await_fetch bind] in Hchat.
      rewrite Hok in Hchat. cbn [negb bind] in Hchat.
      destruct (json r) as [payload|err]; [discriminate|].
      cbn [lift bind try_catch] in Hchat.
      destruct (Hcatch err Hchat) as (Hcode & Hstatus & Hkind).
      split; [exact Hcode|]. right. now split.
    + destruct (chat_on_status request r Hok) as (e' & Hthrow & Hchat').
      rewrite Hchat' in Hchat. injection Hchat as ->.
      destruct (handleErrorResponse_throws r) as (e'' & Hthrow' & Hs & _ & Hcode & _).
      rewrite Hthrow in Hthrow'. injection Hthrow' as <-.
      assert (code e <> INVALID_RESPONSE) as Hno.
      { rewrite Hcode. destruct ((status r =? 401) || (status r =? 403))%Z;
          [|destruct (status r =? 429)%Z]; discriminate. }
      split; [exact Hno|]. left. exists r. repeat split; try assumption.
      * intros H. rewrite Hcode in H.
        destruct (status r =? 401)%Z eqn:H1; [apply Z.eqb_eq in H1; now left|].
        destruct (status r =? 403)%Z eqn:H3; [apply Z.eqb_eq in H3; now right|].
        cbn in H. destruct (status r =? 429)%Z; discriminate.
      * intros [H|H]; rewrite Hcode, H; reflexivity.
      * intros H. rewrite Hcode in H.
        destruct ((status r =? 401) || (status r =? 403))%Z; [discriminate|].
        destruct (status r =? 429)%Z eqn:H9; [now apply Z.eqb_eq in H9 | discriminate].
      * intros H. rewrite Hcode, H. reflexivity.
      * rewrite Hcode in H.
        destruct (status r =? 401)%Z eqn:H1; [discriminate|].
        now apply Z.eqb_neq in H1.
      * rewrite Hcode in H.
        destruct (status r =? 401)%Z eqn:H1; [discriminate|].
        destruct (status r =? 403)%Z eqn:H3; [discriminate|].
        now apply Z.eqb_neq in H3.
      * rewrite Hcode in H.
        destruct ((status r =? 401) || (status r =? 403))%Z; [discriminate|].
        destruct (status r =? 429)%Z eqn:H9; [discriminate|].
        now apply Z.eqb_neq in H9.
      * intros (H1 & H3 & H9). rewrite Hcode.
        apply Z.eqb_neq in H1, H3, H9. now rewrite H1, H3, H9.
  - unfold chat in Hchat. cbn [await_fetch bind try_catch] in Hchat.
    destruct (Hcatch reason Hchat) as (Hcode & Hstatus & Hkind).
    split; [exact Hcode|]. right. now split.
Qed.

End ClientErrors.

Section RetryAfter.

Context {engine : Engine}.
Variable this : LLMClient.

(** Without a Retry-After value the delay is the exponential one. *)
Lemma calculateDelay_exponential (n : nat) (error : LLMError) (u : Q) :
  LLMErrorCode_eqb (code error) RATE_LIMIT
  && truthy_opt (details_retryAfter error) = false ->
  calculateDelay this (Z.of_nat n) error u = Fin (backoffOf this n u).
Proof.
  intros H. unfold calculateDelay, backoffOf. rewrite H. reflexivity.
Qed.

(** X2.  The wait that follows a response that is not [ok] honours the
    Retry-After header only together with status 429 and only when the
    header is not empty: then it is [min(Number(header) * 1000, maxDelay)];
    on every other status, a 503 with a Retry-After header included, it is
    the exponential delay.  The message of the error is the [error.message]
    of the body when the body has a non-empty one, and otherwise
    "API error: <status> <statusText>". *)
Theorem retry_after_only_with_429 (request : LLMRequest) (r : Response)
    (e : LLMError) (n : nat) (u : Q) :
  ok r = false ->
  chat this (fun _ => Resolved r) request = Throw e ->
  calculateDelay this (Z.of_nat n) e u
  = (if (status r =? 429)%Z && truthy_opt (header_RetryAfter r)
     then Math_min (times1000 (String_toNumber (orDefault (header_RetryAfter r) [])))
            (maxDelay (retryConfig this))
     else Fin (backoffOf this n u))
  /\ message e
     = match json r with
       | Ok errorData =>
           if truthy_opt (errorData_message errorData)
           then orDefault (errorData_message errorData) []
           else js "API error: " ++ Number_toString (inject_Z (status r))
                ++ js " " ++ statusText r
       | Throw _ =>
           js "API error: " ++ Number_toString (inject_Z (status r))
           ++ js " " ++ statusText r
       end.
Proof.
  intros Hok Hchat.
  destruct (chat_on_status this request r Hok) as (e' & Hthrow & Hchat').
  rewrite Hchat' in Hchat. injection Hchat as ->.
  destruct (handleErrorResponse_throws r)
    as (e'' & Hthrow' & _ & Hmsg & Hcode & Hdetails).
  rewrite Hthrow in Hthrow'. injection Hthrow' as <-.
  split.
  - destruct (status r =? 429)%Z eqn:H429.
    + assert (code e = RATE_LIMIT) as Hrate.
      { rewrite Hcode. apply Z.eqb_eq in H429. rewrite H429. reflexivity. }
      destruct (truthy_opt (header_RetryAfter r)) eqn:Hheader; cbn [andb].
      * unfold calculateDelay, details_retryAfter.
        rewrite Hrate, Hdetails. cbn [retryAfter LLMErrorCode_eqb andb].
        rewrite Hheader. reflexivity.
      * apply calculateDelay_exponential. unfold details_retryAfter.
        rewrite Hdetails. cbn. apply andb_false_r.
    + cbn [andb]. apply calculateDelay_exponential.
      unfold details_retryAfter. rewrite Hdetails. cbn. apply andb_false_r.
  - rewrite Hmsg. destruct (json r); reflexivity.
Qed.

End RetryAfter.

(** X2, witness: a 503 that carries a Retry-After header is waited for as
    any other server error. *)
Lemma retry_after_only_with_429_witness :
  exists e,
    chat (engine := referenceEngine) testClient
      (fun _ => Resolved (statusResponse 503 (Some (js "7")))) testRequest
    = Throw e
    /\ calculateDelay (engine := referenceEngine) testClient 0 e 0
       = Fin (backoffOf testClient 0 0).
Proof.
  destruct (@chat_on_status referenceEngine testClient testRequest
              (statusResponse 503 (Some (js "7"))) eq_refl) as (e & _ & Hchat).
  exists e. split; [exact Hchat|].
  destruct (@retry_after_only_with_429 referenceEngine testClient testRequest
              (statusResponse 503 (Some (js "7"))) e 0 0 eq_refl Hchat)
    as [Hdelay _].
  exact Hdelay.
Defined.

Section RetryShape.

Context {engine : Engine}.
Variable this : LLMClient.
Variable net : Network.
Variable rnd : Z -> Q.

Lemma calculateDelay_bounded (attempt : Z) (error : LLMError) (u : Q) :
  ~ exceeds (calculateDelay this attempt error u) (maxDelay (retryConfig this)).
Proof.
  unfold calculateDelay.
  destruct (LLMErrorCode_eqb (code error) RATE_LIMIT
            && truthy_opt (details_retryAfter error));
    apply Math_min_bounded.
Qed.

Lemma attempts_alternation (start : Z) (delays : list number) :
  attempts (alternation start delays) = S (List.length delays).
Proof.
  revert start. induction delays as [|d delays IH]; intros start; simpl.
  - reflexivity.
  - now rewrite IH.
Qed.

Lemma alternation_last (start : Z) (delays : list number) :
  exists before,
    alternation start delays
    = before ++ [EvChat (start + Z.of_nat (List.length delays))].
Proof.
  revert start. induction delays as [|d delays IH]; intros start.
  - exists []. simpl. now rewrite Z.add_0_r.
  - destruct (IH (start + 1)%Z) as [before Hbefore].
    exists (EvChat start :: EvSleep d :: before).
    cbn [alternation List.length app]. rewrite Hbefore.
    replace (start + Z.of_nat (S (List.length delays)))%Z
      with (start + 1 + Z.of_nat (List.length delays))%Z by lia.
    reflexivity.
Qed.

(** From an attempt that is still allowed the loop produces an alternation
    of requests and waits; the result is the outcome of its last request. *)
Lemma retryLoop_shape (request : LLMRequest) (fuel : nat) :
  forall attempt lastError,
    (remainingIterations this attempt <= fuel)%nat ->
    (attempt <= maxRetries (retryConfig this))%Z ->
    exists result delays,
      retryLoop this net rnd request fuel attempt lastError
      = Some (result, alternation attempt delays)
      /\ (Z.of_nat (List.length delays) <= maxRetries (retryConfig this) - attempt)%Z
      /\ Forall (fun d => ~ exceeds d (maxDelay (retryConfig this))) delays
      /\ (forall e,
            result = Throw (Some e) -> isRetryableError e = true ->
            (Z.of_nat (List.length delays) = maxRetries (retryConfig this) - attempt)%Z)
      /\ match chat this (net (attempt + Z.of_nat (List.length delays))%Z) request with
         | Ok response => result = Ok response
         | Throw e => result = Throw (Some e)
         end.
Proof.
  induction fuel as [|fuel IH]; intros attempt lastError Hfuel Hle.
  - unfold remainingIterations in Hfuel. lia.
  - cbn [retryLoop]. rewrite (proj2 (Z.leb_le _ _) Hle).
    destruct (chat this (net attempt) request) as [response|e] eqn:Hchat.
    + exists (Ok response), []. cbn [alternation List.length].
      rewrite Z.add_0_r, Hchat. repeat split; try (simpl; lia).
      * constructor.
      * intros e H. discriminate.
    + destruct (isRetryableError e) eqn:Hretry; cbn [negb].
      2:{ exists (Throw (Some e)), []. cbn [alternation List.length].
          rewrite Z.add_0_r, Hchat. repeat split; try (simpl; lia).
          - constructor.
          - intros e' H He'. injection H as <-. congruence. }
      destruct (attempt =? maxRetries (retryConfig this))%Z eqn:Hlast.
      { exists (Throw (Some e)), []. cbn [alternation List.length].
        rewrite Z.add_0_r, Hchat. apply Z.eqb_eq in Hlast.
        repeat split; try (simpl; lia). constructor. }
      apply Z.eqb_neq in Hlast.
      destruct (IH (attempt + 1)%Z (Some e))
        as (result & delays & Hrun & Hlen & Hbound & Hexhaust & Hlastreq).
      { unfold remainingIterations in *. lia. }
      { lia. }
      rewrite Hrun. cbn [option_map emit fst snd app].
      exists result, (calculateDelay this attempt e (rnd attempt) :: delays).
      cbn [alternation List.length]. repeat split.
      * lia.
      * constructor; [apply calculateDelay_bounded | exact Hbound].
      * intros e' H He'. specialize (Hexhaust e' H He'). lia.
      * replace (attempt + Z.of_nat (S (List.length delays)))%Z
          with (attempt + 1 + Z.of_nat (List.length delays))%Z by lia.
        exact Hlastreq.
Qed.

(** [chat] never raises INVALID_RESPONSE: only the parser does. *)
Lemma chat_never_invalid_response (request : LLMRequest)
    (fetch : HttpRequest -> FetchOutcome) (e : LLMError) :
  chat this fetch request = Throw e -> code e <> INVALID_RESPONSE.
Proof.
  unfold chat. destruct (fetch _) as [r|reason]; cbn [await_fetch bind try_catch].
  - destruct (ok r); cbn [negb bind].
    + destruct (json r) as [payload|err]; cbn [lift bind try_catch];
        [discriminate|].
      destruct (str_eqb (err_name err) (js "AbortError"));
        intros H; injection H as <-; discriminate.
    + unfold handleErrorResponse.
      destruct ((status r =? 401) || (status r =? 403))%Z;
        [|destruct (status r =? 429)%Z];
        cbn [never bind try_catch]; intros H; injection H as <-; discriminate.
  - destruct (str_eqb (err_name reason) (js "AbortError"));
      intros H; injection H as <-; discriminate.
Qed.

(** Without an allowed attempt the loop is left at once. *)
Lemma extract_without_attempts (options : ExtractionOptions) :
  (maxRetries (retryConfig this) < 0)%Z ->
  extract this net rnd options = Some (Throw None, []).
Proof.
  intros Hneg. unfold extract, chatWithRetry.
  assert (forall fuel,
             retryLoop this net rnd (extractionRequest this options) fuel 0 None
             = Some (Throw None, [])) as Hloop.
  { intros fuel. destruct fuel; cbn [retryLoop];
      rewrite (proj2 (Z.leb_gt _ _) Hneg); reflexivity. }
  rewrite Hloop. reflexivity.
Qed.

(** What [extract] returns, in terms of [chatWithRetry]. *)
Lemma extract_runs (options : ExtractionOptions) :
  exists result trace,
    chatWithRetry this net rnd (extractionRequest this options)
    = Some (result, trace)
    /\ extract this net rnd options
       = Some (match result with
               | Ok response => parsed response
               | Throw e => Throw e
               end, trace).
Proof.
  destruct (@retryLoop_run engine this net rnd (extractionRequest this options)
              (Z.to_nat (maxRetries (retryConfig this) + 1)) 0%Z None)
    as (result & trace & Hrun & _).
  { unfold remainingIterations. lia. }
  exists result, trace. unfold extract, chatWithRetry. rewrite Hrun.
  split; [reflexivity|]. destruct result; reflexivity.
Qed.

Lemma chatWithRetry_shape (request : LLMRequest) :
  (0 <= maxRetries (retryConfig this))%Z ->
  exists result delays,
    chatWithRetry this net rnd request = Some (result, alternation 0 delays)
    /\ (Z.of_nat (List.length delays) <= maxRetries (retryConfig this))%Z
    /\ Forall (fun d => ~ exceeds d (maxDelay (retryConfig this))) delays
    /\ (forall e,
          result = Throw (Some e) -> isRetryableError e = true ->
          (Z.of_nat (List.length delays) = maxRetries (retryConfig this))%Z)
    /\ match chat this (net (Z.of_nat (List.length delays))) request with
       | Ok response => result = Ok response
       | Throw e => result = Throw (Some e)
       end.
Proof.
  intros Hmax.
  destruct (@retryLoop_shape request
              (Z.to_nat (maxRetries (retryConfig this) + 1)) 0%Z None)
    as (result & delays & Hrun & Hlen & Hbound & Hexhaust & Hlast).
  { unfold remainingIterations. lia. }
  { exact Hmax. }
  rewrite Z.add_0_l in Hlast.
  exists result, delays. unfold chatWithRetry. rewrite Hrun.
  repeat split; try assumption; try lia.
  intros e H He. specialize (Hexhaust e H He). lia.
Qed.

(** X3.  With a retry count that is not negative, the trace of one call of
    [extract] is an alternation that begins with the request of attempt 0:
    each wait stands between two requests, the attempts are numbered
    without gaps, the trace ends with a request, there are at most
    [maxRetries] waits, and no wait exceeds [maxDelay]. *)
Theorem extract_trace_alternates (options : ExtractionOptions) :
  (0 <= maxRetries (retryConfig this))%Z ->
  exists result delays,
    extract this net rnd options = Some (result, alternation 0 delays)
    /\ (Z.of_nat (List.length delays) <= maxRetries (retryConfig this))%Z
    /\ attempts (alternation 0 delays) = S (List.length delays)
    /\ Forall (fun d => ~ exceeds d (maxDelay (retryConfig this))) delays.
Proof.
  intros Hmax.
  destruct (@chatWithRetry_shape (extractionRequest this options) Hmax)
    as (result & delays & Hrun & Hlen & Hbound & _).
  destruct (@extract_runs options) as (result' & trace & Hrun' & Hextract).
  rewrite Hrun in Hrun'. injection Hrun' as <- <-.
  eexists. exists delays. split; [exact Hextract|].
  split; [exact Hlen|]. split; [apply attempts_alternation | exact Hbound].
Qed.

(** X4.  A retryable error reaches the caller of [extract] only when the
    attempts are used up: the call has then made [maxRetries + 1] requests,
    and the error is the one of the last request. *)
Theorem retryable_error_means_exhausted (options : ExtractionOptions)
    (e : LLMError) (trace : list Event) :
  (0 <= maxRetries (retryConfig this))%Z ->
  extract this net rnd options = Some (Throw (Some e), trace) ->
  isRetryableError e = true ->
  Z.of_nat (attempts trace) = (maxRetries (retryConfig this) + 1)%Z
  /\ chat this (net (maxRetries (retryConfig this)))
       (extractionRequest this options) = Throw e.
Proof.
  intros Hmax Hextract Hretry.
  destruct (@chatWithRetry_shape (extractionRequest this options) Hmax)
    as (result & delays & Hrun & Hlen & _ & Hexhaust & Hlast).
  destruct (@extract_runs options) as (result' & trace' & Hrun' & Hextract').
  rewrite Hrun in Hrun'. injection Hrun' as <- <-.
  rewrite Hextract' in Hextract. injection Hextract as Hresult <-.
  destruct result as [response|thrown].
  - (* the error is the parser's, which is not retryable *)
    unfold parsed in Hresult.
    destruct (parseExtractionResponse response) as [r|e'] eqn:Hparse;
      [discriminate|].
    injection Hresult as ->.
    exfalso. unfold parseExtractionResponse in Hparse.
    destruct (responseContent response) as [text|e'] eqn:Hcontent.
    + cbn [bind] in Hparse.
      destruct (decodeExtraction (stripCodeBlock (trim text)));
        [discriminate|].
      cbn [try_catch] in Hparse. injection Hparse as <-. discriminate.
    + cbn [bind] in Hparse. injection Hparse as ->.
      unfold responseContent in Hcontent.
      destruct (choices response) as [[|choice rest]|];
        try (injection Hcontent as <-; discriminate).
      destruct (negb (truthy_opt (firstContent choice)));
        [injection Hcontent as <-; discriminate | discriminate].
  - injection Hresult as ->. specialize (Hexhaust e eq_refl Hretry).
    rewrite attempts_alternation. split; [lia|].
    rewrite Hexhaust in Hlast.
    destruct (chat this (net (maxRetries (retryConfig this)))
                (extractionRequest this options)) as [response|e'];
      [discriminate|].
    injection Hlast as <-. reflexivity.
Qed.

(** X5.  With a negative retry count [extract] makes no request and throws
    [null], which is no LLMError; with a retry count that is not negative
    it makes at least one request and never throws [null]. *)
Theorem negative_retry_count_throws_null (options : ExtractionOptions) :
  ((maxRetries (retryConfig this) < 0)%Z ->
   extract this net rnd options = Some (Throw None, []))
  /\ ((0 <= maxRetries (retryConfig this))%Z ->
      exists result rest,
        extract this net rnd options = Some (result, EvChat 0 :: rest)
        /\ result <> Throw None).
Proof.
  split.
  - apply extract_without_attempts.
  - intros Hmax.
    destruct (@chatWithRetry_shape (extractionRequest this options) Hmax)
      as (result & delays & Hrun & _ & _ & _ & Hlast).
    destruct (@extract_runs options) as (result' & trace' & Hrun' & Hextract').
    rewrite Hrun in Hrun'. injection Hrun' as <- <-.
    eexists. exists (match delays with
                     | [] => []
                     | d :: delays' => EvSleep d :: alternation (0 + 1) delays'
                     end).
    split.
    + rewrite Hextract'. destruct delays; reflexivity.
    + destruct (chat this (net (Z.of_nat (List.length delays)))
                  (extractionRequest this options)) as [response|e'];
        rewrite Hlast; [|discriminate].
      unfold parsed. destruct (parseExtractionResponse response); discriminate.
Qed.

(** X7.  An INVALID_RESPONSE of [extract] costs no further request: it is
    raised by the parser on the completion that the last request of the
    trace returned, and no request or wait follows that request. *)
Theorem invalid_response_is_not_retried (options : ExtractionOptions)
    (e : LLMError) (trace : list Event) :
  extract this net rnd options = Some (Throw (Some e), trace) ->
  code e = INVALID_RESPONSE ->
  exists n before response,
    trace = before ++ [EvChat n]
    /\ chat this (net n) (extractionRequest this options) = Ok response
    /\ parseExtractionResponse response = Throw e.
Proof.
  intros Hextract Hcode.
  destruct (Z.lt_ge_cases (maxRetries (retryConfig this)) 0) as [Hneg|Hmax].
  { rewrite (@extract_without_attempts options Hneg) in Hextract. discriminate. }
  destruct (@chatWithRetry_shape (extractionRequest this options) Hmax)
    as (result & delays & Hrun & _ & _ & _ & Hlast).
  destruct (@extract_runs options) as (result' & trace' & Hrun' & Hextract').
  rewrite Hrun in Hrun'. injection Hrun' as <- <-.
  rewrite Hextract' in Hextract. injection Hextract as Hresult <-.
  destruct (alternation_last 0 delays) as [before Hbefore].
  rewrite Z.add_0_l in Hbefore.
  exists (Z.of_nat (List.length delays)), before.
  destruct (chat this (net (Z.of_nat (List.length delays)))
              (extractionRequest this options)) as [response|e'] eqn:Hchat.
  - exists response. subst result. split; [exact Hbefore|]. split; [reflexivity|].
    unfold parsed in Hresult.
    destruct (parseExtractionResponse response); [discriminate|].
    now injection Hresult as ->.
  - exfalso. subst result. injection Hresult as ->.
    exact (@chat_never_invalid_response _ _ _ Hchat Hcode).
Qed.

End RetryShape.

(** X1, witness: a 401. *)
Lemma chat_error_origin_witness :
  exists e,
    chat (engine := referenceEngine) testClient
      (fun _ => Resolved (statusResponse 401 None)) testRequest = Throw e
    /\ code e <> INVALID_RESPONSE.
Proof.
  destruct (@chat_on_status referenceEngine testClient testRequest
              (statusResponse 401 None) eq_refl) as (e & _ & Hchat).
  exists e. split; [exact Hchat|].
  exact (proj1 (@chat_error_origin referenceEngine testClient testRequest
                  (Resolved (statusResponse 401 None)) e Hchat)).
Defined.

(** X3, witness: the default client against a server that always answers
    503. *)
Lemma extract_trace_alternates_witness :
  (0 <= maxRetries (retryConfig testClient))%Z
  /\ exists result delays,
       extract (engine := referenceEngine) testClient
         (fun _ _ => Resolved (statusResponse 503 None)) (fun _ => 0) testOptions
       = Some (result, alternation 0 delays)
       /\ (Z.of_nat (List.length delays) <= 3)%Z.
Proof.
  assert (0 <= maxRetries (retryConfig testClient))%Z as Hmax by (simpl; lia).
  split; [exact Hmax|].
  destruct (@extract_trace_alternates referenceEngine testClient
              (fun _ _ => Resolved (statusResponse 503 None)) (fun _ => 0)
              testOptions Hmax) as (result & delays & Hrun & Hlen & _).
  exists result, delays. split; [exact Hrun | exact Hlen].
Defined.

(** X4, witness: the same server; the API_ERROR arrives after four
    requests. *)
Lemma retryable_error_means_exhausted_witness :
  exists e trace,
    extract (engine := referenceEngine) testClient
      (fun _ _ => Resolved (statusResponse 503 None)) (fun _ => 0) testOptions
    = Some (Throw (Some e), trace)
    /\ Z.of_nat (attempts trace) = 4%Z.
Proof.
  assert (exists e trace,
             extract (engine := referenceEngine) testClient
               (fun _ _ => Resolved (statusResponse 503 None)) (fun _ => 0)
               testOptions
             = Some (Throw (Some e), trace)
             /\ isRetryableError e = true) as (e & trace & Hrun & Hretry)
    by (do 2 eexists; split; vm_compute; reflexivity).
  exists e, trace. split; [exact Hrun|].
  assert (0 <= maxRetries (retryConfig testClient))%Z as Hmax by (simpl; lia).
  exact (proj1 (@retryable_error_means_exhausted referenceEngine testClient
                  _ _ testOptions e trace Hmax Hrun Hretry)).
Defined.

(** X7, witness: a reply that is no JSON. *)
Lemma invalid_response_is_not_retried_witness :
  exists e n before response,
    extract (engine := referenceEngine) testClient
      (fun _ _ => Resolved (okResponse (assistantReply (js "This is not JSON"))))
      (fun _ => 0) testOptions
    = Some (Throw (Some e), before ++ [EvChat n])
    /\ parseExtractionResponse (engine := referenceEngine) response = Throw e.
Proof.
  assert (exists e trace,
             extract (engine := referenceEngine) testClient
               (fun _ _ => Resolved (okResponse
                                       (assistantReply (js "This is not JSON"))))
               (fun _ => 0) testOptions
             = Some (Throw (Some e), trace)
             /\ code e = INVALID_RESPONSE) as (e & trace & Hrun & Hcode)
    by (do 2 eexists; split; vm_compute; reflexivity).
  destruct (@invalid_response_is_not_retried referenceEngine testClient
              _ _ testOptions e trace Hrun Hcode)
    as (n & before & response & Htrace & _ & Hparse).
  exists e, n, before, response. rewrite <- Htrace. split; [exact Hrun | exact Hparse].
Defined.

(* ===================================================================== *)
(** * Further properties of the parser and of the request *)
(* ===================================================================== *)

Lemma trimEnd_all_ws (s : jsstring) : forallb is_ws s = true -> trimEnd s = [].
Proof.
  intros H. destruct s as [|c s]; [reflexivity|].
  change (trimEnd (c :: s)) with
    (if forallb is_ws (c :: s) then [] else c :: trimEnd s).
  now rewrite H.
Qed.

Lemma trimEnd_app_ws (s tail : jsstring) :
  forallb is_ws tail = true -> trimEnd (s ++ tail) = trimEnd s.
Proof.
  intros Htail. induction s as [|c s IH].
  - now apply trimEnd_all_ws.
  - cbn [app trimEnd forallb].
    rewrite forallb_ws_app, Htail, andb_true_r, IH. reflexivity.
Qed.

(** White space around a text does not change its [trim]. *)
Lemma trim_padding (lead text tail : jsstring) :
  forallb is_ws lead = true -> forallb is_ws tail = true ->
  trim (lead ++ text ++ tail) = trim text.
Proof.
  intros Hlead Htail. unfold trim, trimStart.
  rewrite (dropWhile_app_all _ _ _ Hlead).
  destruct (forallb is_ws text) eqn:Htext.
  - rewrite (dropWhile_app_all _ _ _ Htext), (dropWhile_all _ _ Htail),
      (dropWhile_all _ _ Htext). reflexivity.
  - rewrite (dropWhile_app_stop _ _ _ Htext). now apply trimEnd_app_ws.
Qed.

Section ParserMore.

Context {engine : Engine}.

(** X8.  White space before and after the text of a reply is ignored: a
    non-empty reply parses to the same response, or fails with the same
    error, whatever white space surrounds it. *)
Theorem reply_padding_is_ignored (lead text tail : jsstring) :
  forallb is_ws lead = true -> forallb is_ws tail = true ->
  text <> [] ->
  parseExtractionResponse (assistantReply (lead ++ text ++ tail))
  = parseExtractionResponse (assistantReply text).
Proof.
  intros Hlead Htail Hne.
  assert (lead ++ text ++ tail <> []) as Hne'.
  { destruct text as [|c text]; [contradiction|].
    destruct lead; discriminate. }
  rewrite (parse_reply Hne), (parse_reply Hne'), (trim_padding _ _ _ Hlead Htail).
  reflexivity.
Qed.

Variable this : LLMClient.

(** X10.  The request of [extract] has two messages, the system prompt and
    the user prompt built from the input.  A system prompt given in the
    options replaces the generated one, and then the schema has no
    influence on the request; an empty one is ignored and the prompt is
    generated from the schema.  Model, temperature and token limit are
    those of the client. *)
Theorem system_prompt_override (options : ExtractionOptions) :
  extractionRequest this options
  = {| req_model := cfg_model (config this);
       messages :=
         [ mkMessage system
             (Some (match systemPrompt options with
                    | Some (c :: custom) => c :: custom
                    | Some [] | None => buildSystemPrompt (opt_schema options)
                    end));
           mkMessage user
             (Some (js "Extract data from the following text:" ++ NL ++ NL
                    ++ input options)) ];
       req_temperature := cfg_temperature (config this);
       max_tokens := cfg_maxTokens (config this) |}
  /\ (forall schema1 schema2 text c custom,
        extractionRequest this (mkOptions schema1 text (Some (c :: custom)))
        = extractionRequest this (mkOptions schema2 text (Some (c :: custom))))
  /\ (forall schema text,
        extractionRequest this (mkOptions schema text (Some []))
        = extractionRequest this (mkOptions schema text None)).
Proof.
  repeat split.
  unfold extractionRequest. destruct (systemPrompt options) as [[|c custom]|];
    reflexivity.
Qed.

(** X11.  A client made from the [ollama] or the [lmStudio] preset posts to
    the local endpoint with the Content-Type header only; a client made
    from the [openai] or the [openrouter] preset adds the Authorization
    header "Bearer <key>" when the key is not empty and no Authorization
    header when it is empty.  All four get the default timeout and retry
    policy. *)
Theorem preset_requests (model : option jsstring) (key : jsstring)
    (request : LLMRequest) :
  httpRequestOf (createLLMClient (LLMPresets.ollama model)) request
  = mkHttpRequest (js "http://localhost:11434/v1/chat/completions") (js "POST")
      [(js "Content-Type", js "application/json")] request
  /\ httpRequestOf (createLLMClient (LLMPresets.lmStudio model)) request
     = mkHttpRequest (js "http://localhost:1234/v1/chat/completions") (js "POST")
         [(js "Content-Type", js "application/json")] request
  /\ httpRequestOf (createLLMClient (LLMPresets.openai key model)) request
     = mkHttpRequest (js "https://api.openai.com/v1/chat/completions") (js "POST")
         ((js "Content-Type", js "application/json")
          :: match key with
             | [] => []
             | _ :: _ => [(js "Authorization", js "Bearer " ++ key)]
             end) request
  /\ httpRequestOf (createLLMClient (LLMPresets.openrouter key model)) request
     = mkHttpRequest (js "https://openrouter.ai/api/v1/chat/completions") (js "POST")
         ((js "Content-Type", js "application/json")
          :: match key with
             | [] => []
             | _ :: _ => [(js "Authorization", js "Bearer " ++ key)]
             end) request
  /\ (forall preset,
        In preset [LLMPresets.ollama model; LLMPresets.lmStudio model;
                   LLMPresets.openai key model; LLMPresets.openrouter key model] ->
        retryConfig (createLLMClient preset) = mkRetryConfig 3 1000 10000 2
        /\ cfg_timeout (config (createLLMClient preset)) = 120000)
  /\ (forall fetch,
        chat this fetch request = chat this (fun _ => fetch (httpRequestOf this request)) request).
Proof.
  repeat split; try (destruct key; reflexivity);
    try (destruct H as [<-|[<-|[<-|[<-|[]]]]]; reflexivity).
Qed.

End ParserMore.

(** X8, witness: the reply of the test-suite between a space and a line
    feed. *)
Lemma reply_padding_is_ignored_witness :
  parseExtractionResponse (engine := referenceEngine)
    (assistantReply (js " " ++ ALICE ++ NL))
  = Ok ALICE_value.
Proof.
  rewrite (@reply_padding_is_ignored referenceEngine (js " ") ALICE NL
             eq_refl eq_refl);
    [vm_compute; reflexivity | discriminate].
Defined.

(* ===================================================================== *)
(** * Properties of the parser on a body of any shape *)
(* ===================================================================== *)

Section UntypedParser.

Context {engine : Engine}.
Variable undefined_property_message : jsstring -> jsstring.
Variable not_a_function_message : jsstring -> jsstring.

Local Abbreviation parseBody :=
  (Untyped.parseExtractionResponse undefined_property_message
     not_a_function_message).

(** A response that the [try] block returns has objects as [data] and as
    [confidenceByField]. *)
Lemma decodeExtraction_postcondition (content : jsstring) :
  match decodeExtraction content with
  | Ok r => isObjectValue (data r) /\ isObjectValue (confidenceByField r)
  | Throw _ => True
  end.
Proof.
  rewrite decodeExtraction_cases.
  destruct (Json.parse content) as [parsed|]; [|exact I].
  unfold dataObject.
  destruct parsed; try exact I;
    destruct (member _ (js "data")) as [[| | | | |]|]; try exact I;
    destruct (numericMember _ (js "confidence")); try exact I;
    destruct (member _ (js "confidenceByField")) as [[| | | | |]|];
    try exact I; now split.
Qed.

(** On the value of a completion of the typed model the parser does what
    the typed parser does. *)
Lemma parseExtractionResponse_typed (response : LLMResponse) :
  parseBody (LLMResponse_toJSON response)
  = match parseExtractionResponse response with
    | Ok extraction => Ok extraction
    | Throw e => Throw (ThrownLLMError e)
    end.
Proof.
  unfold Untyped.parseExtractionResponse, parseExtractionResponse,
    responseContent, LLMResponse_toJSON.
  destruct response as [[[|[[[r [text|]]|]] rest]|]]; cbn; try reflexivity.
  destruct text as [|c text]; cbn; [reflexivity|].
  destruct (decodeExtraction _); reflexivity.
Qed.

Local Ltac decode_cases :=
  match goal with
  | |- context [try_catch (decodeExtraction ?c) _] =>
      let H := fresh "Hdecode" in
      pose proof (decodeExtraction_postcondition c) as H;
      destruct (decodeExtraction c); cbn [try_catch];
      [exact H | split; reflexivity]
  end.

Local Ltac parser_step :=
  cbn -[decodeExtraction stripCodeBlock trim Double.ofQ Json.lookup js];
  match goal with
  | |- context [try_catch (decodeExtraction ?c) ?h] => decode_cases
  | |- context [Json.lookup ?k ?m] =>
      is_var m;
      destruct (Json.lookup k m) as [[| [|] | ? | [|? ?] | [|[| | | | |] ?] | ?]|]
  | |- context [Untyped.isZero ?x] => destruct (Untyped.isZero x)
  | |- _ /\ _ => split; reflexivity
  end.

(** X9.  Whatever JSON value the body of the completion is, the parser
    ends in one of three ways.  A response that it returns has an object or
    an array as [data] and as [confidenceByField], never [null] or a
    primitive.  An [LLMError] that it raises has the code INVALID_RESPONSE
    and no status code.  Anything else it raises is a TypeError of the
    engine, and then the body is not of the declared type; a body whose
    first choice is [null], and one whose content is a number, are of this
    kind.  On a completion of the typed model the parser does what the
    typed parser does. *)
Theorem parser_postcondition :
  (forall body : JSON,
      match parseBody body with
      | Ok r => isObjectValue (data r) /\ isObjectValue (confidenceByField r)
      | Throw (ThrownLLMError e) =>
          code e = INVALID_RESPONSE /\ statusCode e = None
      | Throw (ThrownError e) =>
          err_name e = js "TypeError" /\ declaredResponse body = false
      end)
  /\ parseBody (JObject [(js "choices", JArray [JNull])])
     = Throw (Untyped.TypeError (null_property_message (js "message")))
  /\ parseBody
       (JObject [(js "choices",
                  JArray [JObject [(js "message",
                                    JObject [(js "content", JNumber 123)])]])])
     = Throw (Untyped.TypeError
                (not_a_function_message (js "message.content.trim")))
  /\ (forall response : LLMResponse,
        parseBody (LLMResponse_toJSON response)
        = match parseExtractionResponse response with
          | Ok extraction => Ok extraction
          | Throw e => Throw (ThrownLLMError e)
          end).
Proof.
  split; [|split; [reflexivity | split; [reflexivity|]]].
  - intros body. unfold Untyped.parseExtractionResponse, declaredResponse.
    destruct body as [| b | q | s | items | members];
      try (split; reflexivity).
    repeat parser_step.
  - exact parseExtractionResponse_typed.
Qed.

End UntypedParser.

(* ===================================================================== *)
(** * Properties of [loadSchema] *)
(* ===================================================================== *)

(** X12.  An error that [loadSchema] makes itself has the code INVALID_JSON,
    names no field and carries the path of the file in its details; any
    other error is the one that [validateSchema] raised on the decoded
    content of the file. *)
Theorem loadSchema_failures `{Engine} (malformedMetadata : JSON -> bool)
    (fs : FileSystem) (filePath : jsstring) (failure : LoadFailure)
    (Hfails : loadSchema malformedMetadata fs filePath = Throw failure) :
  match failure with
  | LoaderError e details =>
      sch_code e = INVALID_JSON /\ sch_field e = None
      /\ det_filePath details = Some filePath
  | ValidatorError e =>
      exists content schema,
        fs_readFile fs filePath = Ok content
        /\ JSON_parse content = Ok schema
        /\ validateSchema malformedMetadata schema = Throw e
  end.
Proof.
  unfold loadSchema, bind, try_catch in Hfails.
  destruct (fs_access fs filePath) as [[]|eAccess].
  - destruct (fs_readFile fs filePath) as [content|eRead].
    + destruct (JSON_parse content) as [schema|eParse] eqn:Hparse.
      * destruct (validateSchema malformedMetadata schema) as [[]|e] eqn:Hvalid.
        -- discriminate.
        -- injection Hfails as <-. exists content, schema. now repeat split.
      * injection Hfails as <-. now repeat split.
    + injection Hfails as <-. now repeat split.
  - injection Hfails as <-. now repeat split.
Qed.

Lemma loadSchema_failures_witness :
  fs_access (mkFileSystem (fun _ => Ok tt) (fun _ => Ok (js "{"))) (js "s.json")
  = Ok tt
  /\ exists e,
       @loadSchema referenceEngine (fun _ => false)
         (mkFileSystem (fun _ => Ok tt) (fun _ => Ok (js "{"))) (js "s.json")
       = Throw (LoaderError e (mkLoadDetails (Some (js "s.json")) None))
       /\ sch_code e = INVALID_JSON.
Proof.
  split; [reflexivity|].
  eexists. split; [vm_compute; reflexivity|].
  exact (proj1 (@loadSchema_failures referenceEngine (fun _ => false)
                  (mkFileSystem (fun _ => Ok tt) (fun _ => Ok (js "{")))
                  (js "s.json") _ eq_refl)).
Defined.

(** X13.  For a file that can be read, [loadSchema] returns a schema exactly
    when [parseSchema] returns it for the content of the file, and fails in
    the validation exactly when [loadSchemaFromObject] fails, with the same
    error, on the decoded content. *)
Theorem loadSchema_of_readable_file `{Engine} (malformedMetadata : JSON -> bool)
    (fs : FileSystem) (filePath content : jsstring)
    (Haccess : fs_access fs filePath = Ok tt)
    (Hread : fs_readFile fs filePath = Ok content) :
  (forall schema,
      loadSchema malformedMetadata fs filePath = Ok schema
      <-> parseSchema malformedMetadata content = Ok schema)
  /\ (forall e,
         loadSchema malformedMetadata fs filePath = Throw (ValidatorError e)
         <-> exists schema,
               JSON_parse content = Ok schema
               /\ loadSchemaFromObject malformedMetadata schema = Throw e).
Proof.
  unfold loadSchema, parseSchema, loadSchemaFromObject.
  rewrite Haccess, Hread. unfold bind, try_catch.
  destruct (JSON_parse content) as [schema|eParse].
  - destruct (validateSchema malformedMetadata schema) as [[]|e'] eqn:Hvalid.
    + split.
      * intros s. split; intros Hs; injection Hs as ->; reflexivity.
      * intros e. split; [discriminate|].
        intros [s [Hs He]]. injection Hs as <-.
        rewrite Hvalid in He. discriminate.
    + split.
      * intros s. split; discriminate.
      * intros e. split.
        -- intros He. injection He as ->. exists schema.
           rewrite Hvalid. now split.
        -- intros [s [Hs He]]. injection Hs as <-.
           rewrite Hvalid in He. now injection He as ->.
  - split.
    + intros s. split; discriminate.
    + intros e. split; [discriminate|]. now intros [s [Hs _]].
Qed.

(* ===================================================================== *)
(** * Properties of the command line *)
(* ===================================================================== *)

(** A word that does not begin with two dashes is none of the options. *)
Lemma not_dashed (word tail : jsstring) :
  startsWith word (js "--") = false -> str_eqb word (js "--" ++ tail) = false.
Proof.
  destruct word as [|c1 [|c2 w]]; simpl; intros Hs; try reflexivity.
  - apply andb_false_r.
  - destruct (c1 =? 45)%N; [|reflexivity].
    destruct (c2 =? 45)%N; [|reflexivity].
    destruct w; discriminate.
Qed.

(** One well-formed token is read as what it means. *)
Lemma parseLoop_token (packageVersion : jsstring) (t : Token)
    (rest : list jsstring) (parsed : CliArgs) :
  tokenOk t = true ->
  parseLoop packageVersion (renderToken t ++ rest) parsed
  = parseLoop packageVersion rest (applyToken parsed t).
Proof.
  destruct t as [|name value|word]; intros Hok.
  - reflexivity.
  - destruct value as [|c v]; [discriminate|]. now destruct name.
  - simpl in Hok.
    apply andb_true_iff in Hok as [Hok Hv].
    apply andb_true_iff in Hok as [Hdash Hh].
    apply negb_true_iff in Hdash, Hh, Hv.
    cbn [renderToken app parseLoop].
    change (js "--help") with (js "--" ++ js "help").
    change (js "--version") with (js "--" ++ js "version").
    change (js "--debug") with (js "--" ++ js "debug").
    change (js "--schema") with (js "--" ++ js "schema").
    change (js "--input") with (js "--" ++ js "input").
    change (js "--base") with (js "--" ++ js "base").
    change (js "--model") with (js "--" ++ js "model").
    rewrite !(not_dashed _ _ Hdash), Hh, Hv. cbn [orb andb].
    unfold positional. rewrite Hdash. cbn [negb].
    now destruct rest.
Qed.

(** [parseLoop] writes nothing unless it ends the process, and it ends the
    process with the exit code 0 only. *)
Lemma parseLoop_outcome (packageVersion : jsstring) (n : nat) :
  forall (args : list jsstring) (parsed : CliArgs),
    (List.length args <= n)%nat ->
    (exists a, parseLoop packageVersion args parsed = ([], Continue a))
    \/ (exists out, parseLoop packageVersion args parsed = (out, Exited 0)).
Proof.
  induction n as [|n IH]; intros [|arg rest] parsed Hlen;
    try (left; eexists; reflexivity).
  - simpl in Hlen. lia.
  - simpl in Hlen. cbn [parseLoop].
    destruct (str_eqb arg (js "--help") || str_eqb arg (js "-h"));
      [right; eexists; reflexivity|].
    destruct (str_eqb arg (js "--version") || str_eqb arg (js "-v"));
      [right; eexists; reflexivity|].
    destruct (str_eqb arg (js "--debug")); [apply IH; lia|].
    destruct rest as [|value rest']; [apply IH; simpl; lia|].
    simpl in Hlen.
    repeat match goal with
           | |- context [if ?b then _ else _] =>
               destruct b; [apply IH; simpl; lia|]
           end.
    apply IH; simpl; lia.
Qed.

(** X14.  [parseArgs] reads a command line of well-formed tokens as the
    tokens mean, from left to right: a later value of an option or a later word
    replaces an earlier one, and the value of an option is taken as it is,
    whatever it looks like.  Nothing is written and the process goes on. *)
Theorem parseArgs_reads_tokens (packageVersion node script : jsstring)
    (tokens : list Token)
    (Hok : forallb tokenOk tokens = true) :
  parseArgs packageVersion (node :: script :: List.concat (map renderToken tokens))
  = ([], Continue (fold_left applyToken tokens noArgs)).
Proof.
  unfold parseArgs. cbn [skipn].
  generalize noArgs as parsed.
  induction tokens as [|t tokens IH]; intros parsed; [reflexivity|].
  cbn [forallb] in Hok. apply andb_true_iff in Hok as [Ht Hrest].
  cbn [map List.concat fold_left].
  rewrite (parseLoop_token packageVersion t _ parsed Ht).
  now apply IH.
Qed.

Lemma parseArgs_reads_tokens_witness :
  forallb tokenOk
    [TOption OptSchema (js "a.json"); TWord (js "extract");
     TOption OptModel (js "--help"); TDebug;
     TOption OptSchema (js "b.json")] = true
  /\ parseArgs (js "0.1.0")
       (map js ["node"; "ordis"; "--schema"; "a.json"; "extract"; "--model";
                "--help"; "--debug"; "--schema"; "b.json"])%string
     = ([], Continue (mkCliArgs (Some (js "extract")) (Some (js "b.json")) None
                        None (Some (js "--help")) true)).
Proof.
  split; [reflexivity|].
  exact (@parseArgs_reads_tokens (js "0.1.0") (js "node") (js "ordis")
           [TOption OptSchema (js "a.json"); TWord (js "extract");
            TOption OptModel (js "--help"); TDebug;
            TOption OptSchema (js "b.json")] eq_refl).
Defined.

(** X15.  [main] runs the extraction only on complete arguments: either the
    command line was read without an exit, names the command [extract] and
    gives the four options a value, and [main] writes what the extraction
    writes (after the debug line) and ends as it ends; or [main] ends the
    process with the exit code 0 or 1 and writes the same whatever the
    extraction would do. *)
Theorem main_runs_extraction_on_complete_arguments
    (packageVersion : jsstring)
    (pipeline : CliArgs -> list Output * Exit unit) (argv : list jsstring) :
  (exists args,
      parseArgs packageVersion argv = ([], Continue args)
      /\ complete args = true
      /\ main packageVersion pipeline argv
         = (startingLine args ++ fst (pipeline args), snd (pipeline args)))
  \/ (exists (out : list Output) (exitCode : Z),
         (exitCode = 0 \/ exitCode = 1)%Z
         /\ forall other, main packageVersion other argv = (out, Exited exitCode)).
Proof.
  unfold main.
  destruct (@parseLoop_outcome packageVersion (List.length (skipn 2 argv))
              (skipn 2 argv) noArgs (le_n _)) as [[args Hparse]|[out Hparse]];
    unfold parseArgs; rewrite Hparse.
  - destruct (truthy_opt (cli_command args)) eqn:Hcommand; cbn [negb];
      [|right; do 2 eexists; split; [right; reflexivity | reflexivity]].
    destruct (str_eqb (orDefault (cli_command args) []) (js "extract"))
      eqn:Hextract;
      [|right; do 2 eexists; split; [right; reflexivity | reflexivity]].
    unfold runExtraction, required.
    destruct (truthy_opt (cli_schema args)) eqn:Hschema; cbn [negb];
      [|right; do 2 eexists; split; [right; reflexivity | reflexivity]].
    destruct (truthy_opt (cli_input args)) eqn:Hinput; cbn [negb];
      [|right; do 2 eexists; split; [right; reflexivity | reflexivity]].
    destruct (truthy_opt (cli_base args)) eqn:Hbase; cbn [negb];
      [|right; do 2 eexists; split; [right; reflexivity | reflexivity]].
    destruct (truthy_opt (cli_model args)) eqn:Hmodel; cbn [negb];
      [|right; do 2 eexists; split; [right; reflexivity | reflexivity]].
    left. exists args. split; [reflexivity|]. split.
    + unfold complete. now rewrite Hextract, Hschema, Hinput, Hbase, Hmodel.
    + unfold startingLine. destruct (pipeline args) as [out' result]. reflexivity.
  - right. do 2 eexists. split; [left; reflexivity | reflexivity].
Qed.

(* ===================================================================== *)
(** * Properties of the benchmark *)
(* ===================================================================== *)

Section AccuracyProperties.

Context {engine : Engine}.
Variable Object_prototype : jsstring -> option jsstring.
Variable Number_toFixed0 : Q -> jsstring.
Variable not_a_function_message : jsstring -> jsstring.

Local Abbreviation compareField :=
  (Benchmark.compareField Object_prototype Number_toFixed0
     not_a_function_message).
Local Abbreviation compareFields :=
  (Benchmark.compareFields Object_prototype Number_toFixed0
     not_a_function_message).
Local Abbreviation calculateAccuracy :=
  (Benchmark.calculateAccuracy Object_prototype Number_toFixed0
     not_a_function_message).

(** Each iteration counts the field, and either counts it as correct or
    reports one issue. *)
Lemma compareField_counts extracted confidenceByField tally entry tally' :
  compareField extracted confidenceByField tally entry = Ok tally' ->
  Benchmark.total tally' = S (Benchmark.total tally)
  /\ (Benchmark.correct tally' + List.length (Benchmark.tally_issues tally')
      = S (Benchmark.correct tally + List.length (Benchmark.tally_issues tally)))%nat.
Proof.
  unfold Benchmark.compareField. destruct entry as [key expectedValue].
  destruct (Benchmark.confStr _ _ _ confidenceByField key) as [text|e];
    [|discriminate].
  cbn [bind].
  destruct (Benchmark.strictEquals _ _).
  { intros Heq. injection Heq as <-. cbn. split; reflexivity. }
  destruct expectedValue as [| |expectedNumber| | |];
    try (intros Heq; injection Heq as <-; cbn;
         rewrite length_app; cbn; split; [reflexivity | lia]).
  destruct (Benchmark.getMember _ _ _) as [|[| |extractedNumber| | |]|];
    try (intros Heq; injection Heq as <-; cbn;
         rewrite length_app; cbn; split; [reflexivity | lia]).
  destruct (Double.ltb _ _); intros Heq; injection Heq as <-; cbn.
  - split; reflexivity.
  - rewrite length_app; cbn; split; [reflexivity | lia].
Qed.

Lemma compareFields_counts extracted confidenceByField entries :
  forall tally tally',
    compareFields extracted confidenceByField entries tally = Ok tally' ->
    Benchmark.total tally' = (Benchmark.total tally + List.length entries)%nat
    /\ (Benchmark.correct tally' + List.length (Benchmark.tally_issues tally')
        = Benchmark.correct tally + List.length (Benchmark.tally_issues tally)
          + List.length entries)%nat.
Proof.
  induction entries as [|entry entries IH]; intros tally tally' Hrun.
  - injection Hrun as <-. cbn. lia.
  - cbn in Hrun.
    destruct (Benchmark.compareField _ _ _ extracted confidenceByField tally entry)
      as [tally1|e] eqn:Hstep; [|discriminate].
    apply compareField_counts in Hstep as [Htotal Hsum].
    apply IH in Hrun as [Htotal' Hsum']. cbn [List.length]. lia.
Qed.

(** The accuracy when every one of [n] fields is correct, and when none
    is. *)
Lemma percentage_all (n : nat) :
  (0 < Z.of_nat n < 2 ^ 53)%Z ->
  Double.mul (Double.div (Double.ofZ (Z.of_nat n)) (Double.ofZ (Z.of_nat n)))
    (Double.ofZ 100) = Double.ofZ 100.
Proof.
  intros [Hpos Hsize].
  destruct (Z.of_nat n) as [|p|p] eqn:Hn; try lia.
  destruct (@DoubleFacts.ofZ_finite p Hsize) as (m & e & ->).
  rewrite DoubleFacts.div_same. vm_compute. reflexivity.
Qed.

Lemma percentage_none (n : nat) :
  (0 < Z.of_nat n < 2 ^ 53)%Z ->
  Double.mul (Double.div (Double.ofZ 0) (Double.ofZ (Z.of_nat n)))
    (Double.ofZ 100) = Double.ofZ 0.
Proof.
  intros [Hpos Hsize].
  destruct (Z.of_nat n) as [|p|p] eqn:Hn; try lia.
  destruct (@DoubleFacts.ofZ_finite p Hsize) as (m & e & ->).
  rewrite DoubleFacts.div_zero. vm_compute. reflexivity.
Qed.

(** X16.  When [calculateAccuracy] returns, every expected field is either
    counted as correct or reported in exactly one issue, so that the
    accuracy is a function of the number of expected fields and the number
    of issues alone: the double of the fields without an issue, divided by
    the double of the fields, times 100, each operation rounded as a double
    is.  With fewer than 2^53 expected fields it is exactly 100 when there
    is no issue and exactly 0 when every field has one.  With no expected
    field the accuracy is 0. *)
Theorem accuracy_is_share_of_fields_without_issue
    (extracted expected : list (jsstring * JSON))
    (confidenceByField : option (list (jsstring * JSON)))
    (result : Benchmark.Accuracy)
    (Hreturns : calculateAccuracy extracted expected confidenceByField = Ok result) :
  (List.length (Benchmark.issues result) <= List.length expected)%nat
  /\ (expected <> [] ->
      Benchmark.accuracy result
      = Double.mul
          (Double.div
             (Double.ofZ (Z.of_nat (List.length expected
                                    - List.length (Benchmark.issues result))))
             (Double.ofZ (Z.of_nat (List.length expected))))
          (Double.ofZ 100))
  /\ (expected <> [] -> (Z.of_nat (List.length expected) < 2 ^ 53)%Z ->
      Benchmark.issues result = [] ->
      Benchmark.accuracy result = Double.ofZ 100)
  /\ (expected <> [] -> (Z.of_nat (List.length expected) < 2 ^ 53)%Z ->
      List.length (Benchmark.issues result) = List.length expected ->
      Benchmark.accuracy result = Double.ofZ 0)
  /\ (expected = [] -> Benchmark.accuracy result = Double.ofZ 0).
Proof.
  unfold Benchmark.calculateAccuracy in Hreturns.
  destruct (Benchmark.compareFields _ _ _ extracted confidenceByField expected _)
    as [tally|e] eqn:Hrun; [|discriminate].
  cbn [bind] in Hreturns. injection Hreturns as <-.
  apply compareFields_counts in Hrun as [Htotal Hsum].
  cbn [Benchmark.total Benchmark.correct Benchmark.tally_issues List.length] in *.
  cbn [Benchmark.accuracy Benchmark.issues].
  rewrite Htotal. cbn [Nat.add].
  assert (Hc : Benchmark.correct tally
               = (List.length expected
                  - List.length (Benchmark.tally_issues tally))%nat) by lia.
  assert (Hshare : expected <> [] ->
            (if (0 <? List.length expected)%nat
             then Double.mul
                    (Double.div (Double.ofZ (Z.of_nat (Benchmark.correct tally)))
                       (Double.ofZ (Z.of_nat (List.length expected))))
                    (Double.ofZ 100)
             else Double.ofZ 0)
            = Double.mul
                (Double.div
                   (Double.ofZ (Z.of_nat (List.length expected
                                          - List.length (Benchmark.tally_issues tally))))
                   (Double.ofZ (Z.of_nat (List.length expected))))
                (Double.ofZ 100)).
  { intros Hsome. rewrite <- Hc.
    destruct expected as [|entry expected']; [now elim Hsome | reflexivity]. }
  assert (Hpos : expected <> [] -> (0 < Z.of_nat (List.length expected))%Z).
  { intros Hsome. destruct expected; [now elim Hsome | cbn [List.length]; lia]. }
  split; [lia|]. split; [exact Hshare|]. split; [|split].
  - intros Hsome Hsize Hnone. etransitivity; [exact (Hshare Hsome)|].
    rewrite Hnone.
    cbn [List.length]. rewrite Nat.sub_0_r.
    apply percentage_all. split; [now apply Hpos | exact Hsize].
  - intros Hsome Hsize Hall. etransitivity; [exact (Hshare Hsome)|].
    rewrite Hall, Nat.sub_diag.
    apply percentage_none. split; [now apply Hpos | exact Hsize].
  - intros ->. reflexivity.
Qed.

(** The text of the confidence is made unless the confidence is there and
    is not a number. *)
Lemma confStr_returns confidenceByField key :
  (exists text,
      Benchmark.confStr Object_prototype Number_toFixed0 not_a_function_message
        confidenceByField key = Ok text)
  <-> confidenceReadable Object_prototype confidenceByField key = true.
Proof.
  unfold Benchmark.confStr, confidenceReadable.
  destruct confidenceByField as [object|]; [|split; eauto].
  destruct (Benchmark.getMember Object_prototype object key) as [|[| | | | |]|];
    split; eauto; try discriminate; intros [x Habs]; discriminate.
Qed.

Lemma compareField_returns extracted confidenceByField tally entry :
  (exists tally', compareField extracted confidenceByField tally entry = Ok tally')
  <-> confidenceReadable Object_prototype confidenceByField (fst entry) = true.
Proof.
  rewrite <- confStr_returns.
  unfold Benchmark.compareField. destruct entry as [key expectedValue].
  cbn [fst].
  destruct (Benchmark.confStr _ _ _ confidenceByField key) as [text|e]; cbn [bind].
  - split; [eauto|]. intros _.
    destruct (Benchmark.strictEquals _ _); [eauto|].
    destruct expectedValue; eauto.
    destruct (Benchmark.getMember _ _ _) as [|[| | | | |]|]; eauto.
    destruct (Double.ltb _ _); eauto.
  - split; intros [x Habs]; discriminate.
Qed.

Lemma compareFields_returns extracted confidenceByField entries :
  forall tally,
    (exists tally',
        compareFields extracted confidenceByField entries tally = Ok tally')
    <-> forallb (confidenceReadable Object_prototype confidenceByField)
          (keys entries) = true.
Proof.
  induction entries as [|entry entries IH]; intros tally.
  - cbn. split; eauto.
  - cbn [keys map forallb]. rewrite andb_true_iff.
    rewrite <- (compareField_returns extracted confidenceByField tally entry).
    cbn [Benchmark.compareFields].
    destruct (compareField extracted confidenceByField tally entry)
      as [tally1|e]; cbn [bind].
    + rewrite (IH tally1). unfold keys. split; [eauto | tauto].
    + split; [intros [x Habs]; discriminate|].
      intros [[x Habs] _]. discriminate.
Qed.

(** X17.  [calculateAccuracy] throws exactly when the confidences have, for
    some expected field, a member that is not a number: the member may be
    inherited from [Object.prototype], and the field may well have the
    expected value.  Without confidences it always returns. *)
Theorem accuracy_throws_on_unreadable_confidence
    (extracted expected : list (jsstring * JSON))
    (confidenceByField : option (list (jsstring * JSON))) :
  ((exists result,
       calculateAccuracy extracted expected confidenceByField = Ok result)
   <-> forallb (confidenceReadable Object_prototype confidenceByField)
         (keys expected) = true)
  /\ exists result, calculateAccuracy extracted expected None = Ok result.
Proof.
  assert (Hiff : forall c,
             (exists result, calculateAccuracy extracted expected c = Ok result)
             <-> forallb (confidenceReadable Object_prototype c) (keys expected)
                 = true).
  { intros c.
    rewrite <- (compareFields_returns extracted c expected
                  (Benchmark.mkTally 0 0 [])).
    unfold Benchmark.calculateAccuracy.
    destruct (Benchmark.compareFields _ _ _ extracted c expected _)
      as [tally|e]; cbn [bind].
    - split; eauto.
    - split; intros [x Habs]; discriminate. }
  split; [apply Hiff|].
  apply Hiff. clear Hiff. unfold keys.
  induction expected as [|entry expected' IH]; [reflexivity|]. exact IH.
Qed.

(** What the loop throws is a TypeError. *)
Lemma confStr_throws confidenceByField key e :
  Benchmark.confStr Object_prototype Number_toFixed0 not_a_function_message
    confidenceByField key = Throw e ->
  err_name e = js "TypeError".
Proof.
  unfold Benchmark.confStr.
  destruct confidenceByField as [object|]; [|discriminate].
  destruct (Benchmark.getMember Object_prototype object key) as [|[| | | | |]|];
    try discriminate; intros Heq; injection Heq as <-; reflexivity.
Qed.

Lemma compareFields_throws extracted confidenceByField entries :
  forall tally e,
    compareFields extracted confidenceByField entries tally = Throw e ->
    err_name e = js "TypeError".
Proof.
  induction entries as [|[key expectedValue] entries IH]; intros tally e Hrun;
    [discriminate|].
  cbn [Benchmark.compareFields] in Hrun.
  destruct (compareField extracted confidenceByField tally (key, expectedValue))
    as [tally1|e1] eqn:Hstep; cbn [bind] in Hrun.
  - exact (IH tally1 e Hrun).
  - injection Hrun as <-. unfold Benchmark.compareField in Hstep.
    destruct (Benchmark.confStr _ _ _ confidenceByField key) as [text|e0]
      eqn:Hconf; cbn [bind] in Hstep.
    + destruct (Benchmark.strictEquals _ _); [discriminate|].
      destruct expectedValue; try discriminate.
      destruct (Benchmark.getMember _ _ _) as [|[| | | | |]|]; try discriminate.
      destruct (Double.ltb _ _); discriminate.
    + injection Hstep as <-. exact (confStr_throws _ _ Hconf).
Qed.

(** The loop over fields that the extraction has with the expected value,
    when the confidence of each can be read. *)
Lemma compareFields_all_correct extracted confidenceByField entries :
  Forall (fun entry =>
            Json.lookup (fst entry) extracted = Some (snd entry)
            /\ primitive (snd entry) = true) entries ->
  forallb (confidenceReadable Object_prototype confidenceByField) (keys entries)
  = true ->
  forall tally,
    compareFields extracted confidenceByField entries tally
    = Ok (Benchmark.mkTally (Benchmark.correct tally + List.length entries)
            (Benchmark.total tally + List.length entries)
            (Benchmark.tally_issues tally)).
Proof.
  induction 1 as [|[key expectedValue] entries [Hlookup Hprimitive] _ IH];
    intros Hreadable tally.
  - cbn. rewrite !Nat.add_0_r. now destruct tally.
  - cbn [keys map forallb fst] in Hreadable.
    apply andb_true_iff in Hreadable as [Hkey Hreadable].
    apply confStr_returns in Hkey as [text Htext].
    cbn [Benchmark.compareFields].
    unfold Benchmark.compareField at 1. cbn [fst snd] in *.
    rewrite Htext. unfold Benchmark.getMember. rewrite Hlookup. cbn [bind].
    assert (Hsame : Benchmark.strictEquals (Benchmark.Plain expectedValue)
                      expectedValue = true).
    { destruct expectedValue as [|b|q|s| |]; cbn; try discriminate.
      - reflexivity.
      - apply Bool.eqb_reflx.
      - apply DoubleFacts.eqb_ofQ_refl.
      - apply str_eqb_refl. }
    rewrite Hsame. cbn [bind]. rewrite (IH Hreadable). cbn.
    rewrite !Nat.add_succ_r. reflexivity.
Qed.

(** X18.  Take an extraction that has every expected field with the
    expected value, the values being strings, numbers, booleans or [null]
    and the fields fewer than 2^53.  Whatever confidences are passed along:
    when the confidence of every expected field can be read (there is none,
    or it is a number; so always without confidences), the accuracy is
    exactly 100 and there is no issue, and what else the extraction
    contains does not count; when the confidence of some expected field
    cannot be read, the call throws a TypeError although the extraction
    matches. *)
Theorem accuracy_of_matching_extraction
    (extracted expected : list (jsstring * JSON))
    (confidenceByField : option (list (jsstring * JSON)))
    (Hsome : expected <> [])
    (Hsize : (Z.of_nat (List.length expected) < 2 ^ 53)%Z)
    (Hmatch : Forall (fun entry =>
                        Json.lookup (fst entry) extracted = Some (snd entry)
                        /\ primitive (snd entry) = true) expected) :
  if forallb (confidenceReadable Object_prototype confidenceByField)
       (keys expected)
  then exists result,
      calculateAccuracy extracted expected confidenceByField = Ok result
      /\ Benchmark.accuracy result = Double.ofZ 100
      /\ Benchmark.issues result = []
  else exists e,
      calculateAccuracy extracted expected confidenceByField = Throw e
      /\ err_name e = js "TypeError".
Proof.
  destruct (forallb (confidenceReadable Object_prototype confidenceByField)
              (keys expected)) eqn:Hreadable.
  - unfold Benchmark.calculateAccuracy.
    rewrite (@compareFields_all_correct extracted confidenceByField expected
               Hmatch Hreadable (Benchmark.mkTally 0 0 [])).
    cbn [bind]. eexists. split; [reflexivity|].
    cbn [Benchmark.accuracy Benchmark.issues Benchmark.total Benchmark.correct
         Benchmark.tally_issues Nat.add].
    split; [|reflexivity].
    assert (Hpos : (0 < Z.of_nat (List.length expected))%Z)
      by (destruct expected; [now elim Hsome | cbn [List.length]; lia]).
    assert (Hn : (0 <? List.length expected)%nat = true)
      by (apply Nat.ltb_lt; lia).
    rewrite Hn. apply percentage_all. split; assumption.
  - unfold Benchmark.calculateAccuracy.
    destruct (Benchmark.compareFields _ _ _ extracted confidenceByField expected
                (Benchmark.mkTally 0 0 [])) as [tally|e] eqn:Hrun.
    + assert (exists tally',
                 compareFields extracted confidenceByField expected
                   (Benchmark.mkTally 0 0 []) = Ok tally') as Hreturns
        by (exists tally; exact Hrun).
      apply compareFields_returns in Hreturns. congruence.
    + cbn [bind]. exists e. split; [reflexivity|].
      exact (@compareFields_throws extracted confidenceByField expected _ e Hrun).
Qed.

End AccuracyProperties.

(** X16, witness: of three expected fields the name is another, the age is
    off by one and the score is within the tolerance as doubles have it
    (the difference of 0.05 and 0.06 rounds below 0.01): two issues, and
    the accuracy is the double 33.33333333333333. *)
Lemma accuracy_is_share_of_fields_without_issue_witness :
  exists result,
    @Benchmark.calculateAccuracy referenceEngine noPrototype toFixed0
      notAFunction extractedScores expectedScores None = Ok result
    /\ List.length (Benchmark.issues result) = 2%nat
    /\ Benchmark.accuracy result
       = SpecFloat.S754_finite false 4691249611844266 (-47).
Proof.
  eexists. split; [vm_compute; reflexivity|].
  pose proof (@accuracy_is_share_of_fields_without_issue referenceEngine
                noPrototype toFixed0 notAFunction extractedScores
                expectedScores None _ eq_refl) as Hshare.
  destruct Hshare as [_ [Hshare _]].
  split; [reflexivity|].
  etransitivity; [apply Hshare; discriminate|]. vm_compute. reflexivity.
Defined.

(** X18, witness: the extraction of the expected person, with the
    confidences of the reply. *)
Lemma accuracy_of_matching_extraction_witness :
  exists result,
    @Benchmark.calculateAccuracy referenceEngine noPrototype toFixed0
      notAFunction extractedPerson expectedPerson (Some confidencesOfPerson)
    = Ok result
    /\ Benchmark.accuracy result = Double.ofZ 100
    /\ Benchmark.issues result = [].
Proof.
  apply (@accuracy_of_matching_extraction referenceEngine noPrototype
           toFixed0 notAFunction extractedPerson expectedPerson
           (Some confidencesOfPerson)).
  - discriminate.
  - vm_compute. reflexivity.
  - repeat (constructor; [split; reflexivity|]). constructor.
Defined.

Lemma loadSchema_of_readable_file_witness :
  exists schema,
    @loadSchema referenceEngine (fun _ => false) (oneFile NAME_SCHEMA_TEXT)
      (js "name.schema.json") = Ok schema
    /\ @parseSchema referenceEngine (fun _ => false) NAME_SCHEMA_TEXT = Ok schema.
Proof.
  destruct (@loadSchema_of_readable_file referenceEngine (fun _ => false)
              (oneFile NAME_SCHEMA_TEXT) (js "name.schema.json")
              NAME_SCHEMA_TEXT eq_refl eq_refl) as [Hsame _].
  eexists. split; [vm_compute; reflexivity|].
  apply Hsame. vm_compute. reflexivity.
Defined.

(* ===================================================================== *)
(** * Properties of [ensureModelsAvailable] *)
(* ===================================================================== *)

Lemma includes_In (array : list jsstring) (model : jsstring) :
  Benchmark.includes array model = true <-> In model array.
Proof.
  unfold Benchmark.includes. rewrite existsb_exists. split.
  - intros [x [Hin Heq]]. apply str_eqb_eq in Heq. now subst.
  - intros Hin. exists model. split; [exact Hin | apply str_eqb_refl].
Qed.

Lemma filterIndex_In {A} (keep : nat -> bool) (array : list A) :
  forall (idx : nat) (x : A),
    In x (Benchmark.filterIndex keep idx array)
    <-> exists j, nth_error array j = Some x /\ keep (idx + j)%nat = true.
Proof.
  induction array as [|y array IH]; intros idx x; cbn [Benchmark.filterIndex].
  - split; [intros [] | intros [[|j] [Hnth _]]; discriminate].
  - split.
    + intros Hin.
      destruct (keep idx) eqn:Hkeep.
      * destruct Hin as [->|Hin].
        -- exists 0%nat. rewrite Nat.add_0_r. now split.
        -- apply IH in Hin as [j [Hnth Hj]]. exists (S j).
           rewrite Nat.add_succ_r. now split.
      * apply IH in Hin as [j [Hnth Hj]]. exists (S j).
        rewrite Nat.add_succ_r. now split.
    + intros [[|j] [Hnth Hj]].
      * cbn in Hnth. injection Hnth as ->. rewrite Nat.add_0_r in Hj.
        rewrite Hj. now left.
      * cbn in Hnth. rewrite Nat.add_succ_r in Hj.
        assert (Hin : In x (Benchmark.filterIndex keep (S idx) array))
          by (apply IH; now exists j).
        destruct (keep idx); [now right | exact Hin].
Qed.

Lemma mapIndex_nth {A B} (f : nat -> A -> B) (array : list A) (d : B) :
  forall (idx j : nat) (x : A),
    nth_error array j = Some x ->
    nth j (Benchmark.mapIndex f idx array) d = f (idx + j)%nat x.
Proof.
  induction array as [|y array IH]; intros idx [|j] x Hnth; try discriminate.
  - cbn in *. injection Hnth as ->. now rewrite Nat.add_0_r.
  - cbn in *. rewrite (IH (S idx) j x Hnth). now rewrite Nat.add_succ_r.
Qed.

(** X19.  [ensureModelsAvailable] returns exactly the required models that are
    available, or that the user let it pull and of which every pull
    succeeded; the order and the repetitions of the required models are
    kept. *)
Theorem ensureModelsAvailable_returns
    (availableModels : list jsstring) (shouldPull : bool)
    (pullModel : nat -> jsstring -> bool)
    (requiredModels : list jsstring) (model : jsstring) :
  (In model (Benchmark.ensureModelsAvailable availableModels shouldPull
               pullModel requiredModels)
   <-> In model requiredModels
       /\ (Benchmark.isAvailable availableModels model = true
           \/ (shouldPull = true
               /\ forall idx,
                   nth_error (Benchmark.missingModels availableModels
                                requiredModels) idx = Some model ->
                   pullModel idx model = true)))
  /\ exists keep,
       Benchmark.ensureModelsAvailable availableModels shouldPull pullModel
         requiredModels = filter keep requiredModels.
Proof.
  unfold Benchmark.ensureModelsAvailable.
  set (missingModels := Benchmark.missingModels availableModels requiredModels).
  assert (Hmissing : forall m, In m missingModels
                               <-> In m requiredModels
                                   /\ Benchmark.isAvailable availableModels m = false).
  { intros m. unfold missingModels, Benchmark.missingModels.
    rewrite filter_In, negb_true_iff. tauto. }
  destruct (List.length missingModels =? 0)%nat eqn:Hnone.
  - apply Nat.eqb_eq, length_zero_iff_nil in Hnone. split.
    + split.
      * intros Hin. split; [exact Hin|]. left.
        destruct (Benchmark.isAvailable availableModels model) eqn:Hav;
          [reflexivity|].
        assert (Habs : In model missingModels) by now apply Hmissing.
        rewrite Hnone in Habs. destruct Habs.
      * now intros [Hin _].
    + exists (fun _ => true). symmetry. apply forallb_filter_id.
      now apply forallb_forall.
  - destruct shouldPull; cbn [negb].
    + split; [|eexists; reflexivity].
      rewrite filter_In, negb_true_iff.
      set (failed := Benchmark.filterIndex _ 0 missingModels).
      assert (Hfailed : In model failed
                        <-> exists j, nth_error missingModels j = Some model
                                      /\ pullModel j model = false).
      { unfold failed. rewrite filterIndex_In. cbn [Nat.add].
        split; intros [j [Hnth Hj]]; exists j; (split; [exact Hnth|]).
        - rewrite (mapIndex_nth pullModel missingModels false 0 j Hnth) in Hj.
          now apply negb_true_iff in Hj.
        - rewrite (mapIndex_nth pullModel missingModels false 0 j Hnth).
          now apply negb_true_iff. }
      split.
      * intros [Hin Hnot]. split; [exact Hin|].
        destruct (Benchmark.isAvailable availableModels model) eqn:Hav;
          [now left | right]. split; [reflexivity|].
        intros idx Hnth.
        destruct (pullModel idx model) eqn:Hpull; [reflexivity|].
        assert (Habs : Benchmark.includes failed model = true)
          by (apply includes_In, Hfailed; now exists idx).
        congruence.
      * intros [Hin Hwhy]. split; [exact Hin|].
        destruct (Benchmark.includes failed model) eqn:Hinc; [|reflexivity].
        apply includes_In, Hfailed in Hinc as [j [Hnth Hj]].
        destruct Hwhy as [Hav | [_ Hall]].
        -- apply nth_error_In, Hmissing in Hnth as [_ Hno]. congruence.
        -- rewrite (Hall j Hnth) in Hj. discriminate.
    + split; [|eexists; reflexivity].
      rewrite filter_In, negb_true_iff. split.
      * intros [Hin Hnot]. split; [exact Hin|]. left.
        destruct (Benchmark.isAvailable availableModels model) eqn:Hav;
          [reflexivity|].
        assert (Habs : Benchmark.includes missingModels model = true)
          by (apply includes_In, Hmissing; now split).
        congruence.
      * intros [Hin [Hav | [Habs _]]]; [|discriminate]. split; [exact Hin|].
        destruct (Benchmark.includes missingModels model) eqn:Hinc;
          [|reflexivity].
        apply includes_In, Hmissing in Hinc as [_ Hno]. congruence.
Qed.
